(** * Gastos: the IndexedDB record store of [js/database.js]

    A shallow embedding of the [Database] class (transactions, categories,
    statistics, search, export and import), of the data the calendar and
    the list of transactions compute from it, and the properties of its
    specification.

    - JavaScript numbers are IEEE 754 binary64 values: Rocq's primitive
      floats, with the same operations.
    - The objects the store keeps are records. A field is optional when the
      source tests for its presence ([!transaction.id],
      [!transaction.createdAt], [transaction.description &&]) or leaves it
      out of the objects it builds ([category], [updatedAt]); the other
      fields are those every object built in the source has (the form data
      of [ui.js], the default categories), with the type they have there.
    - An IndexedDB object store is a finite map from the key (the [id],
      [keyPath: 'id']) to the record, read back in key order. IndexedDB
      orders string keys by their code units; strings are compared here
      byte by byte, which is the same order on the ASCII ids and dates of
      the application.
    - Every method returns a promise: a function from the state of the
      browser to a settled outcome and the next state.
    - What the platform decides (the clock, the random part of an id, the
      parsing of a date, the collation of [localeCompare], the lower case
      of a string) is a variable of the development. *)

From Stdlib Require Import PrimFloat FloatAxioms SpecFloat.
From stdpp Require Import gmap strings list fin_maps pretty sorting.

Open Scope string_scope.

(** ** Errors and settled promises *)

(** What a rejected promise carries: [new Error(message)], a [TypeError]
    raised by the language, or a [DOMException] of the storage engine,
    told apart by its name. *)
Inductive error :=
| Error (message : string)
| TypeError
| DOMException (name : string).

(** [error.name] *)
Definition error_name (e : error) : string :=
  match e with
  | Error _ => "Error"
  | TypeError => "TypeError"
  | DOMException name => name
  end.

Definition NotInitialized : error := Error "Base de datos no inicializada".
Definition TransactionNotFound : error := Error "Transacción no encontrada".
Definition CategoryNotFound : error := Error "Categoría no encontrada".
Definition InvalidFormat : error := Error "Formato de datos inválido".
Definition CategoryInUse (n : nat) : error :=
  Error ("No se puede eliminar: " +:+ pretty n +:+ " transacciones usan esta categoría").
Definition ConstraintError : error := DOMException "ConstraintError".
Definition DataError : error := DOMException "DataError".
Definition NotFoundError : error := DOMException "NotFoundError".
Definition VersionError : error := DOMException "VersionError".

Inductive outcome (A : Type) :=
| Resolved (value : A)
| Rejected (reason : error).
Arguments Resolved {A} value.
Arguments Rejected {A} reason.

(** ** The stored objects *)

(** [!x] for a property that holds a string when present. *)
Definition falsy (x : option string) : bool :=
  match x with
  | None => true
  | Some s => String.eqb s ""
  end.

Module Transaction.
Record t := mk {
  id : option string;
  type : string;
  name : string;
  description : option string;
  amount : float;
  date : string;
  category : option string;
  createdAt : option string;
  updatedAt : option string }.

(** An object with some of the properties of a transaction, as
    [updateTransaction] takes it: [None] is a property the object lacks. *)
Record partial := mkPartial {
  p_id : option string;
  p_type : option string;
  p_name : option string;
  p_description : option string;
  p_amount : option float;
  p_date : option string;
  p_category : option string;
  p_createdAt : option string;
  p_updatedAt : option string }.

Definition none : partial :=
  mkPartial None None None None None None None None None.

(** [{amount: X}] *)
Definition only_amount (X : float) : partial :=
  mkPartial None None None None (Some X) None None None None.

Definition set_id (v : string) (x : t) : t :=
  mk (Some v) (type x) (name x) (description x) (amount x) (date x)
     (category x) (createdAt x) (updatedAt x).

Definition set_createdAt (v : string) (x : t) : t :=
  mk (id x) (type x) (name x) (description x) (amount x) (date x)
     (category x) (Some v) (updatedAt x).

(** [{...transaction, ...updates, updatedAt: now}] *)
Definition merge (transaction : t) (updates : partial) (now : string) : t :=
  mk (from_option Some (id transaction) (p_id updates))
     (default (type transaction) (p_type updates))
     (default (name transaction) (p_name updates))
     (from_option Some (description transaction) (p_description updates))
     (default (amount transaction) (p_amount updates))
     (default (date transaction) (p_date updates))
     (from_option Some (category transaction) (p_category updates))
     (from_option Some (createdAt transaction) (p_createdAt updates))
     (Some now).
End Transaction.

Module Category.
Record t := mk {
  id : option string;
  name : string;
  color : string;
  icon : string;
  type : string;
  createdAt : option string;
  updatedAt : option string }.

Record partial := mkPartial {
  p_id : option string;
  p_name : option string;
  p_color : option string;
  p_icon : option string;
  p_type : option string;
  p_createdAt : option string;
  p_updatedAt : option string }.

(** A whole category passed where updates are expected
    ([this.updateCategory(category.id, category)]): every property it has. *)
Definition as_partial (x : t) : partial :=
  mkPartial (id x) (Some (name x)) (Some (color x)) (Some (icon x))
            (Some (type x)) (createdAt x) (updatedAt x).

Definition set_id (v : string) (x : t) : t :=
  mk (Some v) (name x) (color x) (icon x) (type x) (createdAt x) (updatedAt x).

Definition set_createdAt (v : string) (x : t) : t :=
  mk (id x) (name x) (color x) (icon x) (type x) (Some v) (updatedAt x).

(** [{...category, ...updates, updatedAt: now}] *)
Definition merge (category : t) (updates : partial) (now : string) : t :=
  mk (from_option Some (id category) (p_id updates))
     (default (name category) (p_name updates))
     (default (color category) (p_color updates))
     (default (icon category) (p_icon updates))
     (default (type category) (p_type updates))
     (from_option Some (createdAt category) (p_createdAt updates))
     (Some now).
End Category.

(** ** IndexedDB *)

(** An object store with [keyPath: 'id']: the names of its indexes and its
    records by key. *)
Record ObjectStore (A : Type) := mkStore {
  indexNames : list string;
  records : gmap string A }.
Arguments mkStore {A} indexNames records.
Arguments indexNames {A} o.
Arguments records {A} o.

(** The database [TallerFinanzasDB] as the browser keeps it. A database
    that was never opened has version 0 and no object store. *)
Record IDBDatabase := mkIDB {
  version : nat;
  transactions : option (ObjectStore Transaction.t);
  categories : option (ObjectStore Category.t) }.

(** The state a method runs in: the browser's database, whether [this.db]
    is set, and how many times the platform was asked for the time or for a
    fresh id so far. *)
Record State := mkState {
  indexedDB : IDBDatabase;
  db : bool;
  ticks : nat }.

Definition Promise (A : Type) : Type := State → outcome A * State.

Definition resolve {A} (v : A) : Promise A := λ s, (Resolved v, s).
Definition reject {A} (e : error) : Promise A := λ s, (Rejected e, s).

(** [await m], then [k] on its value; a rejection ends the method there,
    with the state as it is at that point. *)
Definition await {A B} (m : Promise A) (k : A → Promise B) : Promise B :=
  λ s, match m s with
       | (Resolved v, s') => k v s'
       | (Rejected e, s') => (Rejected e, s')
       end.

Notation "'let*' x := m 'in' k" := (await m (λ x, k))
  (at level 10, x name, m at level 100, k at level 200).
Notation "m ;;; k" := (await m (λ _, k))
  (at level 100, k at level 200, right associativity).

(** The key of a record: the value at the key path, when it has one. *)
Class Keyed (A : Type) := keyPath : A → option string.
Global Instance Transaction_Keyed : Keyed Transaction.t := Transaction.id.
Global Instance Category_Keyed : Keyed Category.t := Category.id.

Definition dbVersion : nat := 2.

(** *** [Array.prototype.sort]

    The sort is stable: [x] moves behind [y] only when the comparison says
    it comes after it. With a consistent comparison every stable sort gives
    this list, and so does the sort of every engine. With a comparison that
    is not consistent (one that returns [NaN] for some pairs only) the
    language leaves the order to the engine; what is proved of the order
    of a result below is under the hypothesis that rules this out. *)
Fixpoint insert_sorted {A} (after : A → A → bool) (x : A) (l : list A) : list A :=
  match l with
  | [] => [x]
  | y :: l' => if after x y then y :: insert_sorted after x l' else x :: y :: l'
  end.

Definition stable_sort {A} (after : A → A → bool) (l : list A) : list A :=
  foldr (insert_sorted after) [] l.

(** [array.sort(comparefn)]: [a] comes after [b] when [comparefn(a, b) > 0]
    (a [NaN] counts as 0). *)
Definition Array_sort {A} (comparefn : A → A → float) (array : list A) : list A :=
  stable_sort (λ a b, PrimFloat.ltb 0 (comparefn a b)) array.

(** *** Requests on an object store *)

(** [store.getAll()]: the records by ascending key. The keys are compared
    byte by byte; this is the order of IndexedDB (by code units) as soon
    as one of two keys is made of ASCII characters. *)
Definition getAll {A} (store : ObjectStore A) : list A :=
  (stable_sort (λ a b, String.ltb b.1 a.1) (map_to_list (records store))).*2.

Inductive IDBKeyRange :=
| unbounded
| only (key : string)
| bound (lower upper : string).

Definition includes (range : IDBKeyRange) (key : string) : bool :=
  match range with
  | unbounded => true
  | only k => String.eqb key k
  | bound lower upper => String.leb lower key && String.leb key upper
  end.

(** [IDBKeyRange.bound(lower, upper)] throws when [lower > upper], in the
    order of the keys (see [getAll]). *)
Definition IDBKeyRange_bound (lower upper : string) : error + IDBKeyRange :=
  if String.ltb upper lower then inl DataError else inr (bound lower upper).

(** [index.getAll(range)] on the index over the property [key]: the records
    that have the property, by ascending index key, then by primary key,
    within the range. *)
Definition index_getAll {A} (key : A → option string) (range : IDBKeyRange)
    (store : ObjectStore A) : list A :=
  List.filter (λ r, from_option (includes range) false (key r))
    (stable_sort (λ a b, match key a, key b with
                         | Some ka, Some kb => String.ltb kb ka
                         | _, _ => false
                         end)
                 (getAll store)).

(** A record in the store, under another key, with which [value] cannot
    coexist (a unique index holds the same key for both). *)
Definition violates {A} (conflict : A → A → bool) (value : A) (k : string)
    (store : ObjectStore A) : Prop :=
  map_Exists (λ k' r, k' ≠ k ∧ conflict value r = true) (records store).

(** [store.add(value)] *)
Definition IDB_add {A} `{Keyed A} (conflict : A → A → bool) (value : A)
    (store : ObjectStore A) : error + string * ObjectStore A :=
  match keyPath value with
  | None => inl DataError
  | Some k =>
      match records store !! k with
      | Some _ => inl ConstraintError
      | None =>
          if decide (violates conflict value k store) then inl ConstraintError
          else inr (k, mkStore (indexNames store) (<[k := value]> (records store)))
      end
  end.

(** [store.put(value)] *)
Definition IDB_put {A} `{Keyed A} (conflict : A → A → bool) (value : A)
    (store : ObjectStore A) : error + string * ObjectStore A :=
  match keyPath value with
  | None => inl DataError
  | Some k =>
      if decide (violates conflict value k store) then inl ConstraintError
      else inr (k, mkStore (indexNames store) (<[k := value]> (records store)))
  end.

(** [store.delete(key)] *)
Definition IDB_delete {A} (key : string) (store : ObjectStore A) : ObjectStore A :=
  mkStore (indexNames store) (delete key (records store)).

(** [store.clear()] *)
Definition IDB_clear {A} (store : ObjectStore A) : ObjectStore A :=
  mkStore (indexNames store) ∅.

(** The transactions store has no unique index. *)
Definition no_conflict (a b : Transaction.t) : bool := false.

(** The categories store has the unique index [name]. *)
Definition same_name (store : ObjectStore Category.t) (a b : Category.t) : bool :=
  bool_decide ("name" ∈ indexNames store) && String.eqb (Category.name a) (Category.name b).

(** *** Access to the state *)

Definition requireDb : Promise unit :=
  λ s, if db s then (Resolved (), s) else (Rejected NotInitialized, s).

(** [this.db.transaction([this.storeName], mode).objectStore(this.storeName)] *)
Definition transactionStore : Promise (ObjectStore Transaction.t) :=
  λ s, match transactions (indexedDB s) with
       | Some store => (Resolved store, s)
       | None => (Rejected NotFoundError, s)
       end.

Definition categoriesStore : Promise (ObjectStore Category.t) :=
  λ s, match categories (indexedDB s) with
       | Some store => (Resolved store, s)
       | None => (Rejected NotFoundError, s)
       end.

Definition commitTransactions (store : ObjectStore Transaction.t) : Promise unit :=
  λ s, (Resolved (),
        mkState (mkIDB (version (indexedDB s)) (Some store) (categories (indexedDB s)))
                (db s) (ticks s)).

Definition commitCategories (store : ObjectStore Category.t) : Promise unit :=
  λ s, (Resolved (),
        mkState (mkIDB (version (indexedDB s)) (transactions (indexedDB s)) (Some store))
                (db s) (ticks s)).

(** A request settles: its error rejects the promise. *)
Definition request {A} (r : error + A) : Promise A :=
  match r with
  | inl e => reject e
  | inr v => resolve v
  end.

(** ** Values that cross the interface *)

(** [parseFloat(x)] for a number [x]: the number read back from its decimal
    form, which is [x] itself, except that [-0] prints as ["0"]. *)
Definition parseFloat (x : float) : float :=
  if PrimFloat.eqb x 0 then 0%float else x.

Module Stats.
Record t := mk {
  totalIncome : float;
  totalExpense : float;
  balance : float;
  count : nat }.
End Stats.

Module Backup.
Record t := mk {
  exportedAt : string;
  count : nat;
  transactions : list Transaction.t }.
End Backup.

(** What [data.transactions] evaluates to for the argument of [importData]:
    a primitive, an array of transactions, or some other object. *)
Inductive JsValue :=
| Undefined
| Null
| Boolean (b : bool)
| Number (x : float)
| String_ (s : string)
| Array (items : list Transaction.t)
| Object.

(** The argument of [importData]: [null] and [undefined] have no
    properties to read; any other value gives [data.transactions]
    ([Undefined] when it has no such property). *)
Inductive ImportData :=
| DataNull
| DataUndefined
| Data (transactions : JsValue).

(** [!v] *)
Definition not_ (v : JsValue) : bool :=
  match v with
  | Undefined | Null => true
  | Boolean b => negb b
  | Number x => negb (PrimFloat.ltb x 0 || PrimFloat.ltb 0 x)
  | String_ s => String.eqb s ""
  | Array _ | Object => false
  end.

Definition Array_isArray (v : JsValue) : bool :=
  match v with
  | Array _ => true
  | _ => false
  end.

(** The elements of an array. *)
Definition elements (v : JsValue) : list Transaction.t :=
  match v with
  | Array l => l
  | _ => []
  end.

(** What [addCategory] resolves with: the id of the category it added, or
    the category it updated instead. *)
Inductive AddCategoryResult :=
| Added (id : string)
| Updated (category : Category.t).

(** The backup an export returns, passed to [importData]. *)
Definition backup_data (b : Backup.t) : ImportData :=
  Data (Array (Backup.transactions b)).

(** ** The class [Database] *)

Section Database.

(** The platform: the value of [generateId()]
    ([Date.now().toString(36) + Math.random().toString(36).substr(2)]) and
    of [new Date().toISOString()] at each moment the state counts, the
    number a date string parses to ([new Date(s)], [NaN] when invalid), and
    [a.localeCompare(b)]. *)
Variable generateId_value : nat → string.
Variable toISOString_value : nat → string.
Variable Date_parse : string → float.
Variable localeCompare : string → string → float.

Definition tick (s : State) : State :=
  mkState (indexedDB s) (db s) (S (ticks s)).

Definition generateId : Promise string :=
  λ s, (Resolved (generateId_value (ticks s)), tick s).

(** [new Date().toISOString()] *)
Definition toISOString : Promise string :=
  λ s, (Resolved (toISOString_value (ticks s)), tick s).

(** [onupgradeneeded]: create what is missing, keep what is there. *)
Definition upgrade (d : IDBDatabase) : IDBDatabase :=
  mkIDB dbVersion
    (Some match transactions d with
          | None => mkStore ["date"; "type"; "amount"; "category"] ∅
          | Some store =>
              if bool_decide ("category" ∈ indexNames store) then store
              else mkStore (indexNames store ++ ["category"]) (records store)
          end)
    (Some match categories d with
          | None => mkStore ["type"; "name"] ∅
          | Some store => store
          end).

(** [init()]: [indexedDB.open(this.dbName, this.dbVersion)] *)
Definition init : Promise unit :=
  λ s, let d := indexedDB s in
       if decide (dbVersion < version d) then (Rejected VersionError, s)
       else
         let d' := if decide (version d < dbVersion) then upgrade d else d in
         (Resolved (), mkState d' true (ticks s)).

Definition addTransaction (transaction : Transaction.t) : Promise string :=
  requireDb ;;;
  let* store := transactionStore in
  let* transaction :=
    (if falsy (Transaction.id transaction)
     then let* i := generateId in resolve (Transaction.set_id i transaction)
     else resolve transaction) in
  let* transaction :=
    (if falsy (Transaction.createdAt transaction)
     then let* now := toISOString in resolve (Transaction.set_createdAt now transaction)
     else resolve transaction) in
  let* added := request (IDB_add no_conflict transaction store) in
  commitTransactions added.2 ;;;
  resolve added.1.

Definition getAllTransactions : Promise (list Transaction.t) :=
  requireDb ;;;
  let* store := transactionStore in
  resolve (Array_sort
             (λ a b, PrimFloat.sub (Date_parse (Transaction.date b))
                                   (Date_parse (Transaction.date a)))
             (getAll store)).

(** Resolves with [None] for [undefined]. *)
Definition getTransaction (id : string) : Promise (option Transaction.t) :=
  requireDb ;;;
  let* store := transactionStore in
  resolve (records store !! id).

Definition updateTransaction (id : string) (updates : Transaction.partial)
    : Promise Transaction.t :=
  requireDb ;;;
  let* store := transactionStore in
  match records store !! id with
  | None => reject TransactionNotFound
  | Some transaction =>
      let* now := toISOString in
      let updatedTransaction := Transaction.merge transaction updates now in
      let* put := request (IDB_put no_conflict updatedTransaction store) in
      commitTransactions put.2 ;;;
      resolve updatedTransaction
  end.

Definition deleteTransaction (id : string) : Promise bool :=
  requireDb ;;;
  let* store := transactionStore in
  commitTransactions (IDB_delete id store) ;;;
  resolve true.

Definition getTransactionsByDateRange (startDate endDate : string)
    : Promise (list Transaction.t) :=
  requireDb ;;;
  let* store := transactionStore in
  if bool_decide ("date" ∈ indexNames store) then
    let* range := request (IDBKeyRange_bound startDate endDate) in
    resolve (index_getAll (λ t, Some (Transaction.date t)) range store)
  else reject NotFoundError.

Definition getTransactionsByType (type : string) : Promise (list Transaction.t) :=
  requireDb ;;;
  let* store := transactionStore in
  if bool_decide ("type" ∈ indexNames store) then
    resolve (index_getAll (λ t, Some (Transaction.type t)) (only type) store)
  else reject NotFoundError.

(** The loop of [getStats]: one transaction added to the running totals. *)
Definition addToStats (stats : Stats.t) (transaction : Transaction.t) : Stats.t :=
  if String.eqb (Transaction.type transaction) "income" then
    Stats.mk (PrimFloat.add (Stats.totalIncome stats) (parseFloat (Transaction.amount transaction)))
             (Stats.totalExpense stats) (Stats.balance stats) (Stats.count stats)
  else
    Stats.mk (Stats.totalIncome stats)
             (PrimFloat.add (Stats.totalExpense stats) (parseFloat (Transaction.amount transaction)))
             (Stats.balance stats) (Stats.count stats).

Definition getStats : Promise Stats.t :=
  let* transactions := getAllTransactions in
  let stats := Stats.mk 0 0 0 (length transactions) in
  let stats := fold_left addToStats transactions stats in
  resolve (Stats.mk (Stats.totalIncome stats) (Stats.totalExpense stats)
                    (PrimFloat.sub (Stats.totalIncome stats) (Stats.totalExpense stats))
                    (Stats.count stats)).

Definition exportData : Promise Backup.t :=
  let* transactions := getAllTransactions in
  let* now := toISOString in
  resolve (Backup.mk now (length transactions) transactions).

Definition clearAll : Promise bool :=
  requireDb ;;;
  let* store := transactionStore in
  commitTransactions (IDB_clear store) ;;;
  resolve true.

(** [for (const transaction of transactions) await this.addTransaction(transaction)] *)
Fixpoint addEach (transactions : list Transaction.t) : Promise unit :=
  match transactions with
  | [] => resolve ()
  | transaction :: rest => addTransaction transaction ;;; addEach rest
  end.

Definition importData (data : ImportData) : Promise nat :=
  match data with
  | DataNull | DataUndefined => reject TypeError
  | Data transactions =>
      if not_ transactions || negb (Array_isArray transactions) then reject InvalidFormat
      else
        clearAll ;;;
        addEach (elements transactions) ;;;
        resolve (length (elements transactions))
  end.

(** *** Categories *)

Definition getAllCategories : Promise (list Category.t) :=
  requireDb ;;;
  let* store := categoriesStore in
  resolve (getAll store).

Definition getCategory (id : string) : Promise (option Category.t) :=
  requireDb ;;;
  let* store := categoriesStore in
  resolve (records store !! id).

Definition updateCategory (id : string) (updates : Category.partial)
    : Promise Category.t :=
  requireDb ;;;
  let* store := categoriesStore in
  match records store !! id with
  | None => reject CategoryNotFound
  | Some category =>
      let* now := toISOString in
      let updated := Category.merge category updates now in
      let* put := request (IDB_put (same_name store) updated store) in
      commitCategories put.2 ;;;
      resolve updated
  end.

Definition addCategory (category : Category.t) : Promise AddCategoryResult :=
  requireDb ;;;
  let* category :=
    (if falsy (Category.id category)
     then let* i := generateId in resolve (Category.set_id i category)
     else resolve category) in
  let* category :=
    (if falsy (Category.createdAt category)
     then let* now := toISOString in resolve (Category.set_createdAt now category)
     else resolve category) in
  let* store := categoriesStore in
  match IDB_add (same_name store) category store with
  | inr added => commitCategories added.2 ;;; resolve (Added added.1)
  | inl e =>
      if String.eqb (error_name e) "ConstraintError" then
        (* Si existe, intentar actualizar *)
        let* updated := updateCategory (default "" (Category.id category))
                                       (Category.as_partial category) in
        resolve (Updated updated)
      else reject e
  end.

Definition getCategoriesByType (type : string) : Promise (list Category.t) :=
  requireDb ;;;
  let* store := categoriesStore in
  if bool_decide ("type" ∈ indexNames store) then
    let range := if String.eqb type "both" then unbounded else only type in
    let cats := index_getAll (λ c, Some (Category.type c)) range store in
    resolve (Array_sort (λ a b, localeCompare (Category.name a) (Category.name b)) cats)
  else
    (* Si no hay índice, devolver todo *)
    getAllCategories.

Definition getTransactionsByCategory (categoryId : string)
    : Promise (list Transaction.t) :=
  requireDb ;;;
  let* store := transactionStore in
  if bool_decide ("category" ∈ indexNames store) then
    resolve (index_getAll Transaction.category (only categoryId) store)
  else
    (* índice no disponible *)
    resolve [].

Definition deleteCategory (id : string) : Promise bool :=
  requireDb ;;;
  let* transactions := getTransactionsByCategory id in
  if decide (0 < length transactions) then reject (CategoryInUse (length transactions))
  else
    let* store := categoriesStore in
    commitCategories (IDB_delete id store) ;;;
    resolve true.

End Database.

(** ** The rest of the code *)

(** *** Search *)

(** [haystack.includes(needle)] *)
Fixpoint String_includes (needle haystack : string) : bool :=
  String.prefix needle haystack ||
  match haystack with
  | EmptyString => false
  | String _ rest => String_includes needle rest
  end.

Section Search.

(** The platform: [s.toLowerCase()], and the parsing of a date. *)
Variable toLowerCase : string → string.
Variable Date_parse : string → float.

(** The callback of the filter: the name, or a description that is there
    and not empty, holds the text, whatever the case. *)
Definition matches (searchText : string) (transaction : Transaction.t) : bool :=
  let searchLower := toLowerCase searchText in
  String_includes searchLower (toLowerCase (Transaction.name transaction))
  || match Transaction.description transaction with
     | Some description =>
         negb (String.eqb description "")
         && String_includes searchLower (toLowerCase description)
     | None => false
     end.

Definition searchTransactions (searchText : string) : Promise (list Transaction.t) :=
  let* transactions := getAllTransactions Date_parse in
  resolve (List.filter (matches searchText) transactions).

(** The filters of [loadTransactions] in [js/ui.js], on the values read
    from the form ([searchText] after [trim()]): by type unless it is
    ['all'], by text when there is one, by dates when both are given. *)
Definition filterTransactions (typeFilter searchText startDate endDate : string)
    (transactions : list Transaction.t) : list Transaction.t :=
  let transactions :=
    if negb (String.eqb typeFilter "all")
    then List.filter (λ t, String.eqb (Transaction.type t) typeFilter) transactions
    else transactions in
  let transactions :=
    if negb (String.eqb searchText "")
    then List.filter (matches searchText) transactions
    else transactions in
  if negb (String.eqb startDate "") && negb (String.eqb endDate "")
  then List.filter (λ t, String.leb startDate (Transaction.date t)
                         && String.leb (Transaction.date t) endDate) transactions
  else transactions.

End Search.

(** *** The default categories *)

(** [try { await m } catch (e) { console.warn(...) }]: a rejection is
    logged and the method goes on, from the state [m] left. *)
Definition try_catch {A} (m : Promise A) : Promise unit :=
  λ s, (Resolved (), (m s).2).

(** The id, name, colour, icon and type of the default categories. *)
Definition defaultLiterals : list (string * string * string * string * string) :=
  [("ventas", "Ventas", "#4CAF50", "store", "income");
   ("servicios", "Servicios", "#2196F3", "build", "income");
   ("reparaciones", "Reparaciones", "#00BCD4", "handyman", "income");
   ("repuestos", "Repuestos", "#FF9800", "settings", "expense");
   ("materiales", "Materiales", "#9C27B0", "inventory_2", "expense");
   ("herramientas", "Herramientas", "#795548", "construction", "expense");
   ("alquiler", "Alquiler", "#607D8B", "house", "expense");
   ("servicios-publicos", "Servicios Públicos", "#3F51B5", "flash_on", "expense");
   ("nomina", "Nómina", "#F44336", "groups", "expense");
   ("otros", "Otros", "#9E9E9E", "category", "both")].

Section DefaultCategories.
Variable generateId_value : nat → string.
Variable toISOString_value : nat → string.

(** The array literal: each element reads the clock for its [createdAt]. *)
Fixpoint arrayLiteral (literals : list (string * string * string * string * string))
    : Promise (list Category.t) :=
  match literals with
  | [] => resolve []
  | (id, name, color, icon, type) :: rest =>
      let* now := toISOString toISOString_value in
      let* categories := arrayLiteral rest in
      resolve (Category.mk (Some id) name color icon type (Some now) None :: categories)
  end.

Definition defaultCategories : Promise (list Category.t) := arrayLiteral defaultLiterals.

(** [for (const cat of defaultCategories) try { await this.addCategory(cat) } catch ...] *)
Fixpoint addDefaults (defaultCategories : list Category.t) : Promise unit :=
  match defaultCategories with
  | [] => resolve ()
  | cat :: rest =>
      try_catch (addCategory generateId_value toISOString_value cat) ;;;
      addDefaults rest
  end.

Definition initDefaultCategories : Promise unit :=
  try_catch
    (let* existing := getAllCategories in
     if (length existing =? 0)%nat then
       let* defaultCategories := defaultCategories in
       addDefaults defaultCategories
     else resolve ()).

End DefaultCategories.

(** *** The calendar *)

Module Calendar.

(** The names every object literal inherits from [Object.prototype]:
    [obj[name]] is then a function (an object for [__proto__]), not
    [undefined]. *)
Definition Object_prototype : list string :=
  ["constructor"; "hasOwnProperty"; "isPrototypeOf"; "propertyIsEnumerable";
   "toLocaleString"; "toString"; "valueOf"; "__proto__";
   "__defineGetter__"; "__defineSetter__"; "__lookupGetter__"; "__lookupSetter__"].

(** The body of the loop that fills [transactionsByDate]:
    [if (!byDate[date]) byDate[date] = []; byDate[date].push(transaction)].
    An inherited property is not replaced, and has no [push]. *)
Definition push_by_date (byDate : gmap string (list Transaction.t))
    (transaction : Transaction.t) : error + gmap string (list Transaction.t) :=
  let date := Transaction.date transaction in
  match byDate !! date with
  | Some group => inr (<[date := (group ++ [transaction])%list]> byDate)
  | None =>
      if bool_decide (date ∈ Object_prototype) then inl TypeError
      else inr (<[date := [transaction]]> byDate)
  end.

(** [transactions.forEach(...)], from the object built so far. *)
Fixpoint organize (transactions : list Transaction.t)
    (byDate : gmap string (list Transaction.t))
    : error + gmap string (list Transaction.t) :=
  match transactions with
  | [] => inr byDate
  | transaction :: rest =>
      match push_by_date byDate transaction with
      | inl e => inl e
      | inr byDate => organize rest byDate
      end
  end.

(** [loadTransactionsForMonth()], from the two dates it computes for the
    month shown ([startDate] and [endDate], which the platform's [Date]
    gives); it resolves with the object it leaves in
    [this.transactionsByDate]. *)
Definition loadTransactionsForMonth (startDate endDate : string)
    : Promise (gmap string (list Transaction.t)) :=
  let* transactions := getTransactionsByDateRange startDate endDate in
  request (organize transactions ∅).

(** A day of the grid: its total and whether it has incomes and expenses. *)
Record Day := mkDay {
  dayTotal : float;
  hasIncome : bool;
  hasExpense : bool }.

(** The loop over the transactions of a day in [generateCalendarHTML]. *)
Definition addToDay (day : Day) (transaction : Transaction.t) : Day :=
  if String.eqb (Transaction.type transaction) "income" then
    mkDay (PrimFloat.add (dayTotal day) (parseFloat (Transaction.amount transaction)))
          true (hasExpense day)
  else
    mkDay (PrimFloat.sub (dayTotal day) (parseFloat (Transaction.amount transaction)))
          (hasIncome day) true.

(** [hasTransactions] is [this.transactionsByDate[dateStr]]. *)
Definition day (hasTransactions : option (list Transaction.t)) : Day :=
  match hasTransactions with
  | Some transactions => fold_left addToDay transactions (mkDay 0 false false)
  | None => mkDay 0 false false
  end.

(** The dot a day with transactions shows. *)
Inductive Indicator := mixed | income_indicator | expense_indicator.

Definition indicator (d : Day) : Indicator :=
  if hasIncome d && hasExpense d then mixed
  else if hasIncome d then income_indicator
  else expense_indicator.

(** The grid: the empty cells before the first day, with the week starting
    on Monday, and those after the last day. *)
Definition adjustedFirstDayOfWeek (firstDayOfWeek : Z) : Z :=
  if (firstDayOfWeek =? 0)%Z then 6%Z else (firstDayOfWeek - 1)%Z.

Definition totalCells : Z := 42.

Definition emptyCells (firstDayOfWeek daysInMonth : Z) : Z :=
  let usedCells := (adjustedFirstDayOfWeek firstDayOfWeek + daysInMonth)%Z in
  (totalCells - usedCells)%Z.

(** How many times [for (let i = 0; i < n; i++)] runs its body. *)
Definition iterations (n : Z) : nat := Z.to_nat n.

(** The number of cells the three loops of [generateCalendarHTML] write. *)
Definition cells (firstDayOfWeek daysInMonth : Z) : nat :=
  iterations (adjustedFirstDayOfWeek firstDayOfWeek)
  + iterations daysInMonth
  + iterations (emptyCells firstDayOfWeek daysInMonth).

End Calendar.

(** ** Vocabulary of the specification *)

(** The state a promise leaves. *)
Definition after {A} (m : Promise A) (s : State) : State := (m s).2.

(** A browser that never opened the database. *)
Definition fresh : State := mkState (mkIDB 0 None None) false 0.

(** One call of a method that can change the state, with any arguments. The
    other methods only read. *)
Inductive call (generateId_value toISOString_value : nat → string)
    (Date_parse : string → float) : State → State → Prop :=
| call_addTransaction t s :
    call generateId_value toISOString_value Date_parse s
      (after (addTransaction generateId_value toISOString_value t) s)
| call_updateTransaction id updates s :
    call generateId_value toISOString_value Date_parse s
      (after (updateTransaction toISOString_value id updates) s)
| call_deleteTransaction id s :
    call generateId_value toISOString_value Date_parse s (after (deleteTransaction id) s)
| call_clearAll s :
    call generateId_value toISOString_value Date_parse s (after clearAll s)
| call_exportData s :
    call generateId_value toISOString_value Date_parse s
      (after (exportData toISOString_value Date_parse) s)
| call_importData data s :
    call generateId_value toISOString_value Date_parse s
      (after (importData generateId_value toISOString_value data) s)
| call_addCategory c s :
    call generateId_value toISOString_value Date_parse s
      (after (addCategory generateId_value toISOString_value c) s)
| call_updateCategory id updates s :
    call generateId_value toISOString_value Date_parse s
      (after (updateCategory toISOString_value id updates) s)
| call_deleteCategory id s :
    call generateId_value toISOString_value Date_parse s (after (deleteCategory id) s).

(** The states the methods reach, called one after the other, once a
    browser has opened the database for the first time. *)
Definition reachable (generateId_value toISOString_value : nat → string)
    (Date_parse : string → float) (s : State) : Prop :=
  rtc (call generateId_value toISOString_value Date_parse) (after init fresh) s.

(** The records of a store, in any order. *)
Definition stored {A} (store : ObjectStore A) : list A :=
  (map_to_list (records store)).*2.

(** The index key of a record lies in a range. *)
Definition in_range {A} (key : A → option string) (range : IDBKeyRange) (r : A) : bool :=
  from_option (includes range) false (key r).

(** [x] is not placed after [y] by a comparison. *)
Definition not_after {A} (after : A → A → bool) (x y : A) : Prop :=
  after x y = false.

(** What IndexedDB maintains by itself: a record is kept under the key its
    key path gives, and a unique index holds a key once. *)
Definition keyed {A} `{Keyed A} (m : gmap string A) : Prop :=
  map_Forall (λ k r, keyPath r = Some k) m.

Definition unique_names (m : gmap string Category.t) : Prop :=
  ∀ k1 k2 c1 c2,
    m !! k1 = Some c1 → m !! k2 = Some c2 →
    Category.name c1 = Category.name c2 → k1 = k2.

(** The state after a successful [init()]: [this.db] is set and the
    database has the schema of version 2. *)
Definition has_indexes {A} (names : list string) (store : option (ObjectStore A)) : bool :=
  match store with
  | Some st => forallb (λ n, bool_decide (n ∈ indexNames st)) names
  | None => false
  end.

Definition ready (s : State) : bool :=
  db s
  && has_indexes ["date"; "type"; "category"] (transactions (indexedDB s))
  && has_indexes ["type"; "name"] (categories (indexedDB s)).

(** The transactions and the categories a state holds. *)
Definition transactions_of (s : State) : gmap string Transaction.t :=
  from_option records ∅ (transactions (indexedDB s)).

Definition categories_of (s : State) : gmap string Category.t :=
  from_option records ∅ (categories (indexedDB s)).

(** The transactions that reference a category. *)
Definition referencing (id : string) (s : State) : list Transaction.t :=
  List.filter (λ t, bool_decide (Transaction.category t = Some id))
              (map_to_list (transactions_of s)).*2.

(** The sum of the amounts of a list of transactions, in the order of the
    list, from a first value. *)
Definition sum_from (total : float) (l : list Transaction.t) : float :=
  fold_left (λ acc t, PrimFloat.add acc (parseFloat (Transaction.amount t))) l total.

Definition sum_amounts (l : list Transaction.t) : float := sum_from 0 l.

Definition is_income (t : Transaction.t) : bool :=
  String.eqb (Transaction.type t) "income".

Definition is_expense (t : Transaction.t) : bool :=
  String.eqb (Transaction.type t) "expense".

(** The string a property holds after [if (!x) x = fresh]. *)
Definition assigned (x : option string) (fresh : string) : string :=
  if falsy x then fresh else default "" x.

(** A transaction as the callers build it: an [id] or a [createdAt] that is
    present is not the empty string. *)
Definition valid_transaction (t : Transaction.t) : Prop :=
  Transaction.id t ≠ Some "" ∧ Transaction.createdAt t ≠ Some "".

(** The key and the record a stored transaction is kept as. *)
Definition entry (t : Transaction.t) : string * Transaction.t :=
  (default "" (Transaction.id t), t).

(** Neither [!t.id] nor [!t.createdAt] holds. *)
Definition stamped (t : Transaction.t) : Prop :=
  falsy (Transaction.id t) = false ∧ falsy (Transaction.createdAt t) = false.

(** The rejections that come from the store itself. *)
Definition storage_error (e : error) : Prop :=
  e = NotInitialized ∨ e = NotFoundError ∨ e = ConstraintError ∨ e = DataError.

(** The key and the record a stored category is kept as. *)
Definition category_entry (c : Category.t) : string * Category.t :=
  (default "" (Category.id c), c).

(** Neither [!category.id] nor [!category.createdAt] holds. *)
Definition stamped_category (c : Category.t) : Prop :=
  falsy (Category.id c) = false ∧ falsy (Category.createdAt c) = false.

(** The categories of the array literal when the clock is read from its
    [n]-th value on. *)
Fixpoint categories_from (toISOString_value : nat → string) (n : nat)
    (literals : list (string * string * string * string * string)) : list Category.t :=
  match literals with
  | [] => []
  | (id, name, color, icon, type) :: rest =>
      Category.mk (Some id) name color icon type (Some (toISOString_value n)) None
      :: categories_from toISOString_value (S n) rest
  end.

(** The transactions of a list that have a date, in the order of the list. *)
Definition dated (date : string) (transactions : list Transaction.t) : list Transaction.t :=
  List.filter (λ t, String.eqb (Transaction.date t) date) transactions.

(** A transaction whose date names an inherited property. *)
Definition inherited (t : Transaction.t) : Prop :=
  Transaction.date t ∈ Calendar.Object_prototype.

(** [comparefn(a, b) > 0] for the comparison of [getAllTransactions],
    [new Date(b.date) - new Date(a.date)]: the date of [a] is before the
    date of [b], so [a] is to come after [b]. *)
Definition earlier (Date_parse : string → float) (a b : Transaction.t) : bool :=
  PrimFloat.ltb 0 (PrimFloat.sub (Date_parse (Transaction.date b))
                                 (Date_parse (Transaction.date a))).

(** The comparison is consistent on a list of transactions: being not
    before goes through a third transaction. It fails when a date is
    invalid and two other dates differ; the language then leaves the order
    of the sorted array to the engine. *)
Definition consistent_dates (Date_parse : string → float) (l : list Transaction.t) : Prop :=
  ∀ a b c, a ∈ l → b ∈ l → c ∈ l →
    earlier Date_parse a b = false → earlier Date_parse b c = false →
    earlier Date_parse a c = false.

(** A string of ASCII characters. On such keys the order of the bytes is
    the order of the code units, in which IndexedDB keeps its keys. *)
Definition ascii_only (s : string) : bool :=
  forallb (λ a, (Ascii.N_of_ascii a <? 128)%N) (String.list_ascii_of_string s).

(** ** A platform and a shop to run the methods on *)

(** Ids and times as a browser could give them: a new id at every call,
    and a clock that moves on by a second. *)
Definition demo_generateId (n : nat) : string := "lwx3k9f" +:+ pretty n.

Definition two_digits (n : nat) : string :=
  if decide (n < 10) then "0" +:+ pretty n else pretty n.

Definition demo_toISOString (n : nat) : string :=
  "2024-06-01T12:00:" +:+ two_digits (n `mod` 60) +:+ ".000Z".

Definition digit (a : Ascii.ascii) : option Z :=
  let n := Z.of_N (Ascii.N_of_ascii a) in
  if (48 <=? n)%Z && (n <=? 57)%Z then Some (n - 48)%Z else None.

Fixpoint digits (s : string) (acc : Z) : option Z :=
  match s with
  | EmptyString => Some acc
  | String a s' =>
      match digit a with
      | Some d => digits s' (acc * 10 + d)%Z
      | None => None
      end
  end.

(** Days from 1970-01-01 to a day of the proleptic Gregorian calendar. *)
Definition days_from_civil (y m d : Z) : Z :=
  let y := if (m <=? 2)%Z then (y - 1)%Z else y in
  let era := (y `div` 400)%Z in
  let yoe := (y - era * 400)%Z in
  let doy := ((153 * (if (2 <? m)%Z then m - 3 else m + 9) + 2) `div` 5 + d - 1)%Z in
  let doe := (yoe * 365 + yoe `div` 4 - yoe `div` 100 + doy)%Z in
  (era * 146097 + doe - 719468)%Z.

Fixpoint float_of_positive (p : positive) : float :=
  match p with
  | xH => 1%float
  | xO p => PrimFloat.mul 2 (float_of_positive p)
  | xI p => PrimFloat.add (PrimFloat.mul 2 (float_of_positive p)) 1
  end.

Definition float_of_Z (z : Z) : float :=
  match z with
  | Z0 => 0%float
  | Zpos p => float_of_positive p
  | Zneg p => PrimFloat.opp (float_of_positive p)
  end.

(** [new Date(s)] for the date-only form [YYYY-MM-DD] (midnight UTC, in
    milliseconds); any other string is an invalid date here. *)
Definition demo_Date_parse (s : string) : float :=
  match digits (String.substring 0 4 s) 0, digits (String.substring 5 2 s) 0, digits (String.substring 8 2 s) 0 with
  | Some y, Some m, Some d =>
      if (String.length s =? 10)%nat
         && String.eqb (String.substring 4 1 s) "-" && String.eqb (String.substring 7 1 s) "-"
         && (1 <=? m)%Z && (m <=? 12)%Z && (1 <=? d)%Z && (d <=? 31)%Z
      then float_of_Z (days_from_civil y m d * 86400000)
      else PrimFloat.nan
  | _, _, _ => PrimFloat.nan
  end.

(** [a.localeCompare(b)] as the comparison of the strings. *)
Definition demo_localeCompare (a b : string) : float :=
  match String.compare a b with
  | Lt => (-1)%float
  | Eq => 0%float
  | Gt => 1%float
  end.

Definition ventas : Category.t :=
  Category.mk (Some "ventas") "Ventas" "#4CAF50" "store" "income"
              (Some "2024-06-01T11:00:00.000Z") None.
Definition alquiler : Category.t :=
  Category.mk (Some "alquiler") "Alquiler" "#607D8B" "house" "expense"
              (Some "2024-06-01T11:00:00.000Z") None.
Definition otros : Category.t :=
  Category.mk (Some "otros") "Otros" "#9E9E9E" "category" "both"
              (Some "2024-06-01T11:00:00.000Z") None.

(** A sale of 100 on 2024-01-01 and a rent of 40 on 2023-12-31, as the
    form builds them. *)
Definition sale : Transaction.t :=
  Transaction.mk (Some "t1") "income" "Venta" (Some "") 100 "2024-01-01"
                 (Some "ventas") None None.
Definition rent : Transaction.t :=
  Transaction.mk (Some "t2") "expense" "Alquiler de enero" (Some "") 40 "2023-12-31"
                 (Some "alquiler") None None.

Definition demo_addTransaction := addTransaction demo_generateId demo_toISOString.
Definition demo_addCategory := addCategory demo_generateId demo_toISOString.
Definition demo_updateTransaction := updateTransaction demo_toISOString.
Definition demo_importData := importData demo_generateId demo_toISOString.
Definition demo_exportData := exportData demo_toISOString demo_Date_parse.

(** The database after [init()] and with three categories. *)
Definition opened : State :=
  after (demo_addCategory otros)
    (after (demo_addCategory alquiler)
       (after (demo_addCategory ventas) (after init fresh))).

(** The shop with the sale and the rent. *)
Definition shop : State :=
  after (demo_addTransaction rent) (after (demo_addTransaction sale) opened).

(** A transfer of 5: neither an income nor an expense. *)
Definition transfer : Transaction.t :=
  Transaction.mk (Some "t3") "transfer" "Caja a banco" (Some "") 5 "2024-01-15"
                 None None None.

Definition shop_with_transfer : State := after (demo_addTransaction transfer) opened.

(** A backup made where the clock was years ahead. *)
Definition sale_from_2031 : Transaction.t :=
  Transaction.mk (Some "t1") "income" "Venta" (Some "") 100 "2024-01-01"
                 (Some "ventas") (Some "2031-01-01T09:00:00.000Z")
                 (Some "2031-01-02T09:00:00.000Z").

Definition restored : State :=
  after (demo_importData (Data (Array [sale_from_2031]))) opened.

(** The sale after its creation time was overwritten with the empty string. *)
Definition createdAt_emptied : Transaction.partial :=
  Transaction.mkPartial None None None None None None None (Some "") None.

Definition shop_without_createdAt : State :=
  after (demo_updateTransaction "t1" createdAt_emptied) shop.

(** The sale as that shop holds it, the backup of that shop, and the shop
    after the backup is imported again. *)
Definition sale_emptied : Transaction.t :=
  Transaction.mk (Some "t1") "income" "Venta" (Some "") 100 "2024-01-01"
                 (Some "ventas") (Some "") (Some "2024-06-01T12:00:02.000Z").

Definition backup_of_emptied : Backup.t :=
  Backup.mk "2024-06-01T12:00:03.000Z" 2
    [sale_emptied;
     Transaction.mk (Some "t2") "expense" "Alquiler de enero" (Some "") 40 "2023-12-31"
                    (Some "alquiler") (Some "2024-06-01T12:00:01.000Z") None].

Definition reimported : State :=
  after (demo_importData (backup_data backup_of_emptied))
    (after demo_exportData shop_without_createdAt).

(** The sale and the rent as the shop stores them: with the time at which
    each was added. *)
Definition sale_stored : Transaction.t :=
  Transaction.mk (Some "t1") "income" "Venta" (Some "") 100 "2024-01-01"
                 (Some "ventas") (Some "2024-06-01T12:00:00.000Z") None.
Definition rent_stored : Transaction.t :=
  Transaction.mk (Some "t2") "expense" "Alquiler de enero" (Some "") 40 "2023-12-31"
                 (Some "alquiler") (Some "2024-06-01T12:00:01.000Z") None.

(** The category of the sales, sent again with another colour, and a
    category of the same name without an id. *)
Definition ventas_again : Category.t :=
  Category.mk (Some "ventas") "Ventas" "#2E7D32" "sell" "income" None None.
Definition ventas_without_id : Category.t :=
  Category.mk None "Ventas" "#2E7D32" "sell" "income" None None.

(** [s.toLowerCase()] on the letters A to Z. *)
Definition lower (a : Ascii.ascii) : Ascii.ascii :=
  let n := Ascii.N_of_ascii a in
  if (65 <=? n)%N && (n <=? 90)%N then Ascii.ascii_of_N (n + 32) else a.

Fixpoint demo_toLowerCase (s : string) : string :=
  match s with
  | EmptyString => EmptyString
  | String a rest => String (lower a) (demo_toLowerCase rest)
  end.

Definition demo_initDefaultCategories : Promise unit :=
  initDefaultCategories demo_generateId demo_toISOString.

(** The database as version 1 of the application left it: the transactions
    store with its three indexes, here with the sale, and no categories. *)
Definition version_1 : State :=
  mkState (mkIDB 1 (Some (mkStore ["date"; "type"; "amount"] {["t1" := sale_stored]})) None)
          false 0.

(** Updates that move a transaction to the id [t9], and that rename a
    category to the name of the sales. *)
Definition moved_to_t9 : Transaction.partial :=
  Transaction.mkPartial (Some "t9") None None None None None None None None.

Definition renamed_to_ventas : Category.partial :=
  Category.mkPartial None (Some "Ventas") None None None None None.

(** A category the shop does not have yet. *)
Definition taller : Category.t :=
  Category.mk (Some "taller") "Taller" "#FF5722" "garage" "expense" None None.

(** The ISO form [YYYY-MM-DD] of a calendar date, digit by digit from the
    right. *)
Definition digit_char (d : nat) : Ascii.ascii := Ascii.ascii_of_nat (48 + d).

Definition hyphen : Ascii.ascii := Ascii.ascii_of_nat 45.

Fixpoint pad_acc (width n : nat) (rest : string) : string :=
  match width with
  | 0 => rest
  | S w => pad_acc w (n / 10) (String (digit_char (n `mod` 10)) rest)
  end.

Definition iso_date (y m d : nat) : string :=
  pad_acc 4 y (String hyphen (pad_acc 2 m (String hyphen (pad_acc 2 d "")))).

(** The order of the calendar. *)
Definition date_le (y m d y' m' d' : nat) : Prop :=
  (y < y')%nat ∨ (y = y' ∧ ((m < m')%nat ∨ (m = m' ∧ (d ≤ d')%nat))).

(** A comparison, refined by a second one when it finds no difference. *)
Definition then_compare (c c' : comparison) : comparison :=
  match c with
  | Eq => c'
  | _ => c
  end.

(** The invariant of the states the methods run in once [init()] has
    succeeded: the schema of version 2, and what IndexedDB maintains. *)
Definition consistent (s : State) : Prop :=
  ready s = true ∧
  keyed (transactions_of s) ∧
  keyed (categories_of s) ∧
  unique_names (categories_of s).

(** ** Proof steps *)

(** Unfolding a method on a state where the first steps are known. *)
Ltac run_method :=
  unfold await, requireDb, transactionStore, categoriesStore, request, resolve, reject,
    commitTransactions, commitCategories; simpl.

(** * Properties *)

(** ** Sorting *)

Section sorting.
Context {A : Type} (after : A → A → bool).

Lemma insert_sorted_perm x l : insert_sorted after x l ≡ₚ x :: l.
Proof.
  induction l as [|y l IH]; simpl; [done|].
  destruct (after x y); [|done].
  rewrite IH. apply perm_swap.
Qed.

Lemma stable_sort_perm l : stable_sort after l ≡ₚ l.
Proof.
  induction l as [|x l IH]; simpl; [done|].
  unfold stable_sort in *. simpl.
  rewrite insert_sorted_perm. by rewrite IH.
Qed.

Lemma elem_of_stable_sort x l : x ∈ stable_sort after l ↔ x ∈ l.
Proof. by rewrite stable_sort_perm. Qed.

Lemma length_stable_sort l : length (stable_sort after l) = length l.
Proof. by rewrite stable_sort_perm. Qed.

(** No element of a sorted list comes after its successor, as soon as the
    comparison never puts two elements after each other. *)
Hypothesis after_asym : ∀ x y, after x y = true → after y x = false.

Lemma insert_sorted_Sorted x l :
  Sorted (not_after after) l → Sorted (not_after after) (insert_sorted after x l).
Proof.
  induction 1 as [|y l Hl IH Hhd]; simpl.
  - by repeat constructor.
  - destruct (after x y) eqn:Hxy.
    + constructor; [done|].
      destruct Hhd as [|z l Hyz]; simpl.
      * constructor. by apply after_asym.
      * destruct (after x z); constructor; [done|by apply after_asym].
    + by repeat constructor.
Qed.

Lemma stable_sort_Sorted l : Sorted (not_after after) (stable_sort after l).
Proof.
  induction l as [|x l IH]; [constructor|].
  by apply insert_sorted_Sorted.
Qed.
End sorting.

(** ** Object stores *)

Section stores.
Context {A : Type}.
Implicit Types (store : ObjectStore A) (r : A) (k : string).

Lemma getAll_perm store : getAll store ≡ₚ stored store.
Proof. unfold getAll, stored. by rewrite stable_sort_perm. Qed.

Lemma elem_of_stored store r :
  r ∈ stored store ↔ ∃ k, records store !! k = Some r.
Proof.
  unfold stored. rewrite list_elem_of_fmap. split.
  - intros [[k r'] [-> Hin]]. exists k. by apply elem_of_map_to_list.
  - intros [k Hk]. exists (k, r). split; [done|]. by apply elem_of_map_to_list.
Qed.

Lemma elem_of_getAll store r :
  r ∈ getAll store ↔ ∃ k, records store !! k = Some r.
Proof. by rewrite getAll_perm, elem_of_stored. Qed.

Lemma length_getAll store : length (getAll store) = size (records store).
Proof.
  rewrite getAll_perm. unfold stored.
  by rewrite length_fmap, length_map_to_list.
Qed.

Lemma stored_empty (names : list string) : stored (mkStore names (∅ : gmap string A)) = [].
Proof. unfold stored. simpl. by rewrite map_to_list_empty. Qed.

(** An index query returns the records of the store whose index key is in
    the range, each as often as the store holds it. *)
Lemma index_getAll_perm key range store :
  index_getAll key range store ≡ₚ List.filter (in_range key range) (stored store).
Proof.
  unfold index_getAll. fold (in_range key range).
  assert (Hf : ∀ l1 l2 : list A, l1 ≡ₚ l2 →
            List.filter (in_range key range) l1 ≡ₚ List.filter (in_range key range) l2).
  { induction 1; simpl; repeat case_match; eauto using Permutation. }
  apply Hf. rewrite stable_sort_perm. apply getAll_perm.
Qed.

Lemma elem_of_index_getAll key range store r :
  r ∈ index_getAll key range store ↔
  (∃ k, records store !! k = Some r) ∧ in_range key range r = true.
Proof.
  rewrite index_getAll_perm, list_elem_of_In, filter_In, <-list_elem_of_In.
  by rewrite elem_of_stored.
Qed.

Lemma IDB_delete_absent store k :
  records store !! k = None → IDB_delete k store = store.
Proof.
  intros Hk. destruct store as [names m]. unfold IDB_delete. simpl in *.
  by rewrite delete_id.
Qed.
End stores.

(** ** What IndexedDB maintains *)

Lemma violates_same_name_iff cs (c : Category.t) i :
  "name" ∈ indexNames cs →
  violates (same_name cs) c i cs ↔
  ∃ k r, records cs !! k = Some r ∧ k ≠ i ∧ Category.name c = Category.name r.
Proof.
  intros Hname. unfold violates, same_name. rewrite map_Exists_lookup.
  rewrite bool_decide_true by done. simpl.
  split; intros (k & r & Hk & Hne & Heq); exists k, r; split_and!; try done.
  - by apply String.eqb_eq.
  - by apply String.eqb_eq.
Qed.


Section maintained.
Context {A : Type} `{Keyed A}.
Implicit Types (store : ObjectStore A) (value : A) (k : string).

Lemma IDB_add_inv conflict value store k store' :
  IDB_add conflict value store = inr (k, store') →
  keyPath value = Some k ∧
  records store !! k = None ∧
  ¬ violates conflict value k store ∧
  store' = mkStore (indexNames store) (<[k := value]> (records store)).
Proof.
  unfold IDB_add. destruct (keyPath value) as [k'|]; [|done].
  destruct (records store !! k') eqn:Hk; [done|].
  destruct (decide _) as [|Hv]; [done|]. by intros [= <- <-].
Qed.

Lemma IDB_put_inv conflict value store k store' :
  IDB_put conflict value store = inr (k, store') →
  keyPath value = Some k ∧
  ¬ violates conflict value k store ∧
  store' = mkStore (indexNames store) (<[k := value]> (records store)).
Proof.
  unfold IDB_put. destruct (keyPath value) as [k'|]; [|done].
  destruct (decide _) as [|Hv]; [done|]. by intros [= <- <-].
Qed.

Lemma keyed_insert (m : gmap string A) k value :
  keyed m → keyPath value = Some k → keyed (<[k := value]> m).
Proof.
  intros Hm Hk. unfold keyed. apply map_Forall_insert_2; [done|]. exact Hm.
Qed.

Lemma keyed_delete (m : gmap string A) k : keyed m → keyed (delete k m).
Proof. intros Hm. by apply map_Forall_delete. Qed.

Lemma keyed_empty : keyed (∅ : gmap string A).
Proof. apply map_Forall_empty. Qed.
End maintained.

Lemma unique_names_insert cs (m : gmap string Category.t) k c :
  "name" ∈ indexNames cs →
  m = records cs →
  unique_names m →
  ¬ violates (same_name cs) c k cs →
  unique_names (<[k := c]> m).
Proof.
  intros Hname -> Hm Hv. rewrite violates_same_name_iff in Hv by done.
  intros k1 k2 c1 c2. rewrite !lookup_insert.
  repeat case_decide; subst; intros H1 H2 Hn; simplify_eq; try done.
  - destruct Hv. exists k2, c2. by split_and!.
  - destruct Hv. exists k1, c1. by split_and!.
  - by apply (Hm k1 k2 c1 c2).
Qed.

Lemma unique_names_delete (m : gmap string Category.t) k :
  unique_names m → unique_names (delete k m).
Proof.
  intros Hm k1 k2 c1 c2 [_ H1]%lookup_delete_Some [_ H2]%lookup_delete_Some.
  by apply Hm.
Qed.

(** ** Strings in key order *)

Lemma String_compare_refl s : String.compare s s = Eq.
Proof.
  induction s as [|a s IH]; simpl; [done|].
  unfold Ascii.compare. by rewrite N.compare_refl.
Qed.

Lemma String_leb_refl s : String.leb s s = true.
Proof. unfold String.leb. by rewrite String_compare_refl. Qed.

Lemma String_ltb_not_leb a b : String.ltb a b = true → String.leb b a = false.
Proof.
  unfold String.ltb, String.leb. rewrite (String.compare_antisym b a).
  by destruct (String.compare a b).
Qed.

Lemma String_leb_not_ltb a b : String.leb a b = true → String.ltb b a = false.
Proof.
  unfold String.ltb, String.leb. rewrite (String.compare_antisym b a).
  by destruct (String.compare a b).
Qed.

(** On ISO dates the order of the keys is the order of the calendar. *)

Example iso_date_new_year : iso_date 2024 1 1 = "2024-01-01".
Proof. reflexivity. Qed.

Lemma digit_char_compare a b :
  a < 10 → b < 10 → Ascii.compare (digit_char a) (digit_char b) = Nat.compare a b.
Proof.
  intros Ha Hb. unfold Ascii.compare, digit_char, Ascii.ascii_of_nat.
  rewrite !Ascii.N_ascii_embedding by lia.
  rewrite <-Nat2N.inj_compare.
  destruct (Nat.compare_spec a b), (Nat.compare_spec (48 + a) (48 + b)); try done; lia.
Qed.

Lemma compare_digits p r p' r' :
  r < 10 → r' < 10 →
  Nat.compare (10 * p + r) (10 * p' + r') =
  then_compare (Nat.compare p p') (Nat.compare r r').
Proof.
  intros Hr Hr'. unfold then_compare.
  destruct (Nat.compare_spec p p'), (Nat.compare_spec r r'),
    (Nat.compare_spec (10 * p + r) (10 * p' + r')); try done; lia.
Qed.

Lemma pad_acc_compare w : ∀ a b x y,
  String.compare (pad_acc w a x) (pad_acc w b y) =
  then_compare (Nat.compare (a `mod` 10 ^ w) (b `mod` 10 ^ w)) (String.compare x y).
Proof.
  induction w as [|w IH]; intros a b x y.
  - cbn [pad_acc]. by rewrite Nat.pow_0_r, !Nat.mod_1_r.
  - cbn [pad_acc]. rewrite IH. cbn [String.compare].
    rewrite digit_char_compare by (apply Nat.mod_upper_bound; lia).
    rewrite !Nat.pow_succ_r', !(Nat.Div0.mod_mul_r _ 10).
    rewrite (Nat.add_comm (a `mod` 10)), (Nat.add_comm (b `mod` 10)).
    rewrite compare_digits by (apply Nat.mod_upper_bound; lia).
    unfold then_compare. by repeat case_match.
Qed.

Lemma iso_date_compare y m d y' m' d' :
  y < 10 ^ 4 → y' < 10 ^ 4 → m < 10 ^ 2 → m' < 10 ^ 2 → d < 10 ^ 2 → d' < 10 ^ 2 →
  String.compare (iso_date y m d) (iso_date y' m' d') =
  then_compare (Nat.compare y y') (then_compare (Nat.compare m m') (Nat.compare d d')).
Proof.
  intros. unfold iso_date.
  assert (Hhyphen : Ascii.compare hyphen hyphen = Eq) by done.
  rewrite pad_acc_compare. cbn [String.compare]. rewrite Hhyphen.
  rewrite pad_acc_compare. cbn [String.compare]. rewrite Hhyphen.
  rewrite pad_acc_compare. cbn [String.compare].
  rewrite !Nat.mod_small by done.
  unfold then_compare. by repeat case_match.
Qed.

Lemma iso_date_leb y m d y' m' d' :
  y < 10 ^ 4 → y' < 10 ^ 4 → m < 10 ^ 2 → m' < 10 ^ 2 → d < 10 ^ 2 → d' < 10 ^ 2 →
  String.leb (iso_date y m d) (iso_date y' m' d') = true ↔ date_le y m d y' m' d'.
Proof.
  intros. unfold String.leb, date_le. rewrite iso_date_compare by done.
  unfold then_compare.
  destruct (Nat.compare_spec y y'), (Nat.compare_spec m m'), (Nat.compare_spec d d');
    split; try done; lia.
Qed.

(** ** The state after [init()] *)

Lemma ready_inv s :
  ready s = true →
  db s = true ∧
  ∃ ts cs,
    transactions (indexedDB s) = Some ts ∧ categories (indexedDB s) = Some cs ∧
    transactions_of s = records ts ∧ categories_of s = records cs ∧
    "date" ∈ indexNames ts ∧ "type" ∈ indexNames ts ∧ "category" ∈ indexNames ts ∧
    "type" ∈ indexNames cs ∧ "name" ∈ indexNames cs.
Proof.
  unfold ready, transactions_of, categories_of, has_indexes.
  destruct (transactions (indexedDB s)) as [ts|], (categories (indexedDB s)) as [cs|];
    simpl; rewrite ?andb_true_r, ?andb_false_r; try done.
  rewrite !andb_true_iff, !bool_decide_eq_true.
  intros [[Hdb (? & ? & ?)] (? & ?)]. split; [done|]. by exists ts, cs.
Qed.

Lemma commitTransactions_same s ts :
  transactions (indexedDB s) = Some ts →
  mkState (mkIDB (version (indexedDB s)) (Some ts) (categories (indexedDB s)))
          (db s) (ticks s) = s.
Proof. destruct s as [[v t c] d n]. simpl. by intros ->. Qed.

Lemma commitCategories_same s cs :
  categories (indexedDB s) = Some cs →
  mkState (mkIDB (version (indexedDB s)) (transactions (indexedDB s)) (Some cs))
          (db s) (ticks s) = s.
Proof. destruct s as [[v t c] d n]. simpl. by intros ->. Qed.

(** C9. Deleting a transaction id that the store does not hold succeeds
    with [true] on an initialized store, and leaves the state, and so the
    set of stored transactions, as it was. *)
Theorem deleteTransaction_absent_id s id :
  ready s = true →
  transactions_of s !! id = None →
  deleteTransaction id s = (Resolved true, s) ∧
  transactions_of (deleteTransaction id s).2 = transactions_of s.
Proof.
  intros (Hdb & ts & cs & Hts & Hcs & Hrec & _)%ready_inv Hid.
  rewrite Hrec in Hid.
  assert (Hrun : deleteTransaction id s = (Resolved true, s)).
  { unfold deleteTransaction. run_method. rewrite Hdb, Hts.
    rewrite IDB_delete_absent by done. by rewrite commitTransactions_same. }
  by rewrite Hrun.
Qed.

(** What the date-range query does on an initialized store. *)
Lemma getTransactionsByDateRange_run s startDate endDate :
  ready s = true →
  String.leb startDate endDate = true →
  ∃ result,
    getTransactionsByDateRange startDate endDate s = (Resolved result, s) ∧
    result ≡ₚ List.filter
                (λ t, String.leb startDate (Transaction.date t)
                      && String.leb (Transaction.date t) endDate)
                (map_to_list (transactions_of s)).*2 ∧
    (∀ t, t ∈ result ↔
          (∃ k, transactions_of s !! k = Some t) ∧
          String.leb startDate (Transaction.date t) = true ∧
          String.leb (Transaction.date t) endDate = true).
Proof.
  intros (Hdb & ts & cs & Hts & Hcs & Hrec & _ & Hdate & _)%ready_inv Hle.
  rewrite Hrec.
  set (key := λ t : Transaction.t, Some (Transaction.date t)).
  exists (index_getAll key (bound startDate endDate) ts). split_and!.
  - unfold getTransactionsByDateRange. run_method. rewrite Hdb, Hts.
    rewrite bool_decide_true by done. unfold IDBKeyRange_bound.
    by rewrite (String_leb_not_ltb _ _ Hle).
  - apply index_getAll_perm.
  - intros t. rewrite elem_of_index_getAll. unfold in_range, key. simpl.
    by rewrite andb_true_iff.
Qed.

(** C7. For bounds [startDate <= endDate], the date-range query resolves
    with exactly the stored transactions whose date is within the bounds,
    both bounds included: a transaction dated as one of the bounds is
    returned, one dated before the first or after the second is not; with
    the bounds 2024-01-01 and 2024-01-31, a transaction of 2024-01-01 is
    returned and one of 2023-12-31 is not. The state is unchanged. *)
Theorem getTransactionsByDateRange_inclusive s startDate endDate :
  ready s = true →
  String.leb startDate endDate = true →
  ∃ result,
    getTransactionsByDateRange startDate endDate s = (Resolved result, s) ∧
    result ≡ₚ List.filter
                (λ t, String.leb startDate (Transaction.date t)
                      && String.leb (Transaction.date t) endDate)
                (map_to_list (transactions_of s)).*2 ∧
    (∀ t, t ∈ result ↔
          (∃ k, transactions_of s !! k = Some t) ∧
          String.leb startDate (Transaction.date t) = true ∧
          String.leb (Transaction.date t) endDate = true) ∧
    (∀ k t, transactions_of s !! k = Some t →
            Transaction.date t = startDate ∨ Transaction.date t = endDate →
            t ∈ result) ∧
    (∀ t, String.ltb (Transaction.date t) startDate = true ∨
          String.ltb endDate (Transaction.date t) = true →
          t ∉ result) ∧
    (startDate = "2024-01-01" → endDate = "2024-01-31" →
     ∀ k t, transactions_of s !! k = Some t →
            (Transaction.date t = "2024-01-01" → t ∈ result) ∧
            (Transaction.date t = "2023-12-31" → t ∉ result)).
Proof.
  intros Hready Hle.
  destruct (getTransactionsByDateRange_run s startDate endDate Hready Hle)
    as (result & Hrun & Hperm & Hmem).
  exists result. split_and!; try done.
  - intros k t Hk Hd. apply Hmem. split; [by exists k|].
    destruct Hd as [Hd|Hd]; rewrite Hd; by rewrite String_leb_refl.
  - intros t Hd [_ [H1 H2]]%Hmem.
    destruct Hd as [Hd%String_ltb_not_leb|Hd%String_ltb_not_leb]; congruence.
  - intros -> -> k t Hk. split.
    + intros Hd. apply Hmem. rewrite Hd. split; [by exists k|done].
    + intros Hd [_ [H1 _]]%Hmem. by rewrite Hd in H1.
Qed.

(** X3. Between two calendar dates in ISO form, the first not after the
    second, the query returns the stored transactions dated, in the order
    of the calendar, from the first to the second: on the dates the
    application stores, the order of the keys is the order of the
    calendar. *)
Lemma getTransactionsByDateRange_calendar s y1 m1 d1 y2 m2 d2 :
  ready s = true →
  y1 < 10 ^ 4 → m1 < 10 ^ 2 → d1 < 10 ^ 2 →
  y2 < 10 ^ 4 → m2 < 10 ^ 2 → d2 < 10 ^ 2 →
  date_le y1 m1 d1 y2 m2 d2 →
  ∃ result,
    getTransactionsByDateRange (iso_date y1 m1 d1) (iso_date y2 m2 d2) s
      = (Resolved result, s) ∧
    ∀ k t y m d,
      transactions_of s !! k = Some t →
      Transaction.date t = iso_date y m d →
      y < 10 ^ 4 → m < 10 ^ 2 → d < 10 ^ 2 →
      t ∈ result ↔ date_le y1 m1 d1 y m d ∧ date_le y m d y2 m2 d2.
Proof.
  intros Hready ? ? ? ? ? ? Hle.
  apply iso_date_leb in Hle; [|done..].
  destruct (getTransactionsByDateRange_run s _ _ Hready Hle) as (result & Hrun & _ & Hmem).
  exists result. split; [done|].
  intros k t y m d Hk Hd ? ? ?.
  rewrite Hmem, Hd, !iso_date_leb by done. split.
  - by intros [_ ?].
  - intros ?. split; [by exists k|done].
Qed.

(** ** Categories in use *)

Lemma filter_ext_perm {A} (f g : A → bool) (l1 l2 : list A) :
  (∀ x, f x = g x) → l1 ≡ₚ l2 → List.filter f l1 ≡ₚ List.filter g l2.
Proof.
  intros Hfg Hperm.
  assert (Hext : ∀ l, List.filter f l = List.filter g l).
  { induction l as [|x l IH]; simpl; [done|]. by rewrite Hfg, IH. }
  rewrite Hext. clear Hext.
  induction Hperm as [|x l1 l2 _ IH|x y l|l1 l2 l3 _ IH1 _ IH2]; simpl.
  - done.
  - destruct (g x); by rewrite IH.
  - destruct (g x), (g y); try done. apply perm_swap.
  - by rewrite IH1.
Qed.

Lemma getTransactionsByCategory_run s id :
  ready s = true →
  ∃ result,
    getTransactionsByCategory id s = (Resolved result, s) ∧
    result ≡ₚ referencing id s.
Proof.
  intros (Hdb & ts & cs & Hts & Hcs & Hrec & _ & _ & _ & Hcat & _)%ready_inv.
  exists (index_getAll Transaction.category (only id) ts). split.
  - unfold getTransactionsByCategory. run_method. rewrite Hdb, Hts.
    by rewrite bool_decide_true.
  - rewrite index_getAll_perm. unfold referencing. rewrite Hrec.
    apply filter_ext_perm; [|done].
    intros t. unfold in_range, from_option, includes.
    destruct (Transaction.category t) as [c|].
    + destruct (String.eqb_spec c id) as [->|Hne].
      * by rewrite bool_decide_true.
      * rewrite bool_decide_false; [done|congruence].
    + by rewrite bool_decide_false.
Qed.

Lemma referencing_nonempty s id :
  0 < length (referencing id s) ↔
  ∃ k t, transactions_of s !! k = Some t ∧ Transaction.category t = Some id.
Proof.
  unfold referencing. split.
  - intros Hlen.
    destruct (List.filter _ _) as [|t l] eqn:Hf; simpl in Hlen; [lia|].
    assert (Hin : In t (t :: l)) by (by left). rewrite <-Hf in Hin.
    apply filter_In in Hin as [Hin Hc]. apply bool_decide_eq_true in Hc.
    apply list_elem_of_In, list_elem_of_fmap in Hin as [[k t'] [-> Hin]].
    apply elem_of_map_to_list in Hin. by exists k, t'.
  - intros (k & t & Hk & Hc).
    assert (Hin : In t (List.filter (λ t, bool_decide (Transaction.category t = Some id))
                          (map_to_list (transactions_of s)).*2)).
    { apply filter_In. split; [|by apply bool_decide_eq_true].
      apply list_elem_of_In, list_elem_of_fmap. exists (k, t). split; [done|].
      by apply elem_of_map_to_list. }
    destruct (List.filter _ _); simpl in *; [done|lia].
Qed.

(** C2. On an initialized store, deleting a category fails with
    [CategoryInUse], carrying the number of transactions that reference the
    category, exactly when some stored transaction has that category; the
    state (and with it the categories) is then as before. When no
    transaction references the id, the deletion succeeds with [true] and
    the category is removed. *)
Theorem deleteCategory_in_use s id :
  ready s = true →
  ((∃ k t, transactions_of s !! k = Some t ∧ Transaction.category t = Some id) →
   deleteCategory id s = (Rejected (CategoryInUse (length (referencing id s))), s) ∧
   0 < length (referencing id s)) ∧
  ((¬ ∃ k t, transactions_of s !! k = Some t ∧ Transaction.category t = Some id) →
   (deleteCategory id s).1 = Resolved true ∧
   categories_of (deleteCategory id s).2 = delete id (categories_of s) ∧
   transactions_of (deleteCategory id s).2 = transactions_of s) ∧
  ((∃ n, (deleteCategory id s).1 = Rejected (CategoryInUse n)) ↔
   ∃ k t, transactions_of s !! k = Some t ∧ Transaction.category t = Some id).
Proof.
  intros Hready.
  destruct (getTransactionsByCategory_run s id Hready) as (result & Hrun & Hperm).
  apply ready_inv in Hready as (Hdb & ts & cs & Hts & Hcs & Hrec & Hcrec & _).
  assert (Hlen : length result = length (referencing id s)) by (by rewrite Hperm).
  assert (Hused : 0 < length (referencing id s) →
            deleteCategory id s = (Rejected (CategoryInUse (length (referencing id s))), s)).
  { intros Hpos. unfold deleteCategory. run_method. rewrite Hdb, Hrun, Hlen.
    by rewrite decide_True. }
  assert (Hfree : ¬ 0 < length (referencing id s) →
            deleteCategory id s =
            (Resolved true,
             mkState (mkIDB (version (indexedDB s)) (transactions (indexedDB s))
                            (Some (IDB_delete id cs))) (db s) (ticks s))).
  { intros Hpos. unfold deleteCategory. run_method. rewrite Hdb, Hrun, Hlen.
    rewrite decide_False by done. by rewrite Hcs, Hdb. }
  split_and!.
  - intros Href%referencing_nonempty. by split; [apply Hused|].
  - intros Href. rewrite <-referencing_nonempty in Href.
    rewrite (Hfree Href). unfold categories_of, transactions_of. simpl.
    by rewrite Hcs.
  - rewrite <-referencing_nonempty. split.
    + intros [n Hn]. destruct (decide (0 < length (referencing id s))) as [|Hno]; [done|].
      by rewrite (Hfree Hno) in Hn.
    + intros Hpos. rewrite (Hused Hpos). by eexists.
Qed.

(** ** Statistics *)

Lemma fold_addToStats l income expense balance count :
  fold_left addToStats l (Stats.mk income expense balance count) =
  Stats.mk (sum_from income (List.filter is_income l))
           (sum_from expense (List.filter (λ t, negb (is_income t)) l))
           balance count.
Proof.
  revert income expense.
  induction l as [|t l IH]; intros income expense; simpl; [done|].
  unfold addToStats at 2. fold (is_income t). simpl.
  destruct (is_income t); simpl; by rewrite IH.
Qed.

Lemma filter_not_income_expense l :
  (∀ t, t ∈ l → Transaction.type t = "income" ∨ Transaction.type t = "expense") →
  List.filter (λ t, negb (is_income t)) l = List.filter is_expense l.
Proof.
  induction l as [|t l IH]; intros Hty; simpl; [done|].
  rewrite IH by (intros t' Ht'; apply Hty; by right).
  unfold is_income, is_expense.
  destruct (Hty t) as [-> | ->]; [by left|done..].
Qed.

Section statistics.
Variable Date_parse : string → float.

Lemma getAllTransactions_run s :
  ready s = true →
  ∃ scanned,
    getAllTransactions Date_parse s = (Resolved scanned, s) ∧
    scanned ≡ₚ (map_to_list (transactions_of s)).*2.
Proof.
  intros (Hdb & ts & cs & Hts & Hcs & Hrec & _)%ready_inv.
  eexists. split.
  - unfold getAllTransactions. run_method. by rewrite Hdb, Hts.
  - unfold Array_sort. rewrite stable_sort_perm, getAll_perm. unfold stored.
    by rewrite Hrec.
Qed.

(** C1. On an initialized store [getStats] scans the stored transactions
    (each once) and resolves with
    - [totalIncome]: the sum of the amounts of the transactions whose type
      is income;
    - [totalExpense]: the sum of the amounts of all the other transactions,
      which is the sum over the type expense when every transaction is an
      income or an expense;
    - [balance]: [totalIncome - totalExpense];
    - [count]: the number of stored transactions.
    On an income of 100 and an expense of 40 it gives 100, 40, 60 and 2. *)
Theorem getStats_totals s :
  ready s = true →
  ∃ scanned,
    getAllTransactions Date_parse s = (Resolved scanned, s) ∧
    scanned ≡ₚ (map_to_list (transactions_of s)).*2 ∧
    let income := sum_amounts (List.filter is_income scanned) in
    let expense := sum_amounts (List.filter (λ t, negb (is_income t)) scanned) in
    getStats Date_parse s =
      (Resolved (Stats.mk income expense (PrimFloat.sub income expense) (length scanned)), s) ∧
    length scanned = size (transactions_of s) ∧
    ((∀ t, t ∈ scanned → Transaction.type t = "income" ∨ Transaction.type t = "expense") →
     expense = sum_amounts (List.filter is_expense scanned)) ∧
    (∀ a b, scanned ≡ₚ [a; b] →
       Transaction.type a = "income" → Transaction.amount a = 100%float →
       Transaction.type b = "expense" → Transaction.amount b = 40%float →
       getStats Date_parse s = (Resolved (Stats.mk 100 40 60 2), s)).
Proof.
  intros Hready.
  destruct (getAllTransactions_run s Hready) as (scanned & Hrun & Hperm).
  exists scanned.
  assert (Hstats : getStats Date_parse s =
            (Resolved (Stats.mk (sum_amounts (List.filter is_income scanned))
                         (sum_amounts (List.filter (λ t, negb (is_income t)) scanned))
                         (PrimFloat.sub (sum_amounts (List.filter is_income scanned))
                            (sum_amounts (List.filter (λ t, negb (is_income t)) scanned)))
                         (length scanned)), s)).
  { unfold getStats, await. rewrite Hrun. unfold resolve.
    by rewrite fold_addToStats. }
  do 2 (split; [done|]). cbv zeta. split_and!; [done|..].
  - rewrite Hperm. by rewrite length_fmap, length_map_to_list.
  - intros Hty. by rewrite filter_not_income_expense.
  - intros a b Hab Ha Hamount Hb Hbmount. rewrite Hstats.
    assert (Hcases : scanned = [a; b] ∨ scanned = [b; a]).
    { symmetry in Hab. apply Permutation_length_2_inv in Hab. destruct Hab; auto. }
    destruct Hcases as [-> | ->]; simpl; unfold is_income;
      rewrite Ha, Hb; simpl; unfold sum_amounts; simpl;
      by rewrite Hamount, Hbmount.
Qed.
End statistics.

(** ** Categories by type *)

Section categories_by_type.
Variable localeCompare : string → string → float.

(** C10. On an initialized store [getCategoriesByType('both')] resolves
    with every stored category, whatever its type, and with any other
    argument (so for ['income'] and ['expense']) with exactly the stored
    categories of that type; the state is unchanged. The result is in
    ascending order of name for [localeCompare]: no category is followed by
    one that the comparison puts before it, given that the comparison never
    puts two names after each other. *)
Theorem getCategoriesByType_result s type :
  ready s = true →
  ∃ result,
    getCategoriesByType localeCompare type s = (Resolved result, s) ∧
    (type = "both" →
     result ≡ₚ (map_to_list (categories_of s)).*2 ∧
     ∀ c, c ∈ result ↔ ∃ k, categories_of s !! k = Some c) ∧
    (type ≠ "both" →
     result ≡ₚ List.filter (λ c, String.eqb (Category.type c) type)
                 (map_to_list (categories_of s)).*2 ∧
     ∀ c, c ∈ result ↔ (∃ k, categories_of s !! k = Some c) ∧ Category.type c = type) ∧
    ((∀ a b, PrimFloat.ltb 0 (localeCompare a b) = true →
             PrimFloat.ltb 0 (localeCompare b a) = false) →
     Sorted (λ a b, PrimFloat.ltb 0 (localeCompare (Category.name a) (Category.name b)) = false)
            result).
Proof.
  intros (Hdb & ts & cs & Hts & Hcs & Hrec & Hcrec & _ & _ & _ & Htype & _)%ready_inv.
  rewrite Hcrec.
  set (key := λ c : Category.t, Some (Category.type c)).
  set (range := if String.eqb type "both" then unbounded else only type).
  exists (Array_sort (λ a b, localeCompare (Category.name a) (Category.name b))
            (index_getAll key range cs)).
  split_and!.
  - unfold getCategoriesByType. run_method. rewrite Hdb, Hcs.
    by rewrite bool_decide_true.
  - intros ->. unfold Array_sort, range. simpl. split.
    + rewrite stable_sort_perm, index_getAll_perm. fold (stored cs).
      induction (stored cs) as [|c l IH]; simpl; by rewrite ?IH.
    + intros c. rewrite elem_of_stable_sort, elem_of_index_getAll.
      split; [by intros [? _]|by intros ?].
  - intros Hne. apply String.eqb_neq in Hne. unfold Array_sort, range. rewrite Hne. split.
    + rewrite stable_sort_perm, index_getAll_perm. by apply filter_ext_perm.
    + intros c. rewrite elem_of_stable_sort, elem_of_index_getAll.
      unfold in_range, key. simpl. by rewrite String.eqb_eq.
  - intros Hasym. unfold Array_sort.
    apply (stable_sort_Sorted (λ a b, PrimFloat.ltb 0 (localeCompare (Category.name a) (Category.name b)))).
    intros a b. apply Hasym.
Qed.
End categories_by_type.

(** ** Adding and updating transactions *)

Lemma no_conflict_violates (value : Transaction.t) k store :
  ¬ violates no_conflict value k store.
Proof. intros (k' & r & _ & _ & Hc)%map_Exists_lookup. done. Qed.

Lemma assigned_present x fresh v : x = Some v → v ≠ "" → assigned x fresh = v.
Proof.
  intros -> Hv. unfold assigned, falsy. simpl.
  by apply String.eqb_neq in Hv as ->.
Qed.

Lemma assigned_absent fresh : assigned None fresh = fresh.
Proof. done. Qed.

Lemma set_id_present t v :
  Transaction.id t = Some v → Transaction.set_id v t = t.
Proof. destruct t. simpl. by intros ->. Qed.

Lemma set_createdAt_present t v :
  Transaction.createdAt t = Some v → Transaction.set_createdAt v t = t.
Proof. destruct t. simpl. by intros ->. Qed.

Lemma IDB_add_transaction t ts i :
  Transaction.id t = Some i →
  IDB_add no_conflict t ts =
    match records ts !! i with
    | Some _ => inl ConstraintError
    | None => inr (i, mkStore (indexNames ts) (<[i := t]> (records ts)))
    end.
Proof.
  intros Hi. unfold IDB_add, keyPath, Transaction_Keyed. rewrite Hi.
  destruct (records ts !! i); [done|].
  by rewrite decide_False by apply no_conflict_violates.
Qed.

Lemma IDB_put_transaction t ts i :
  Transaction.id t = Some i →
  IDB_put no_conflict t ts = inr (i, mkStore (indexNames ts) (<[i := t]> (records ts))).
Proof.
  intros Hi. unfold IDB_put, keyPath, Transaction_Keyed. rewrite Hi.
  by rewrite decide_False by apply no_conflict_violates.
Qed.

Section transactions.
Variable generateId_value : nat → string.
Variable toISOString_value : nat → string.

(** What [addTransaction] does on an initialized store, step by step. *)
Lemma addTransaction_run s ts t :
  db s = true →
  transactions (indexedDB s) = Some ts →
  valid_transaction t →
  let i := assigned (Transaction.id t) (generateId_value (ticks s)) in
  let n1 := if falsy (Transaction.id t) then S (ticks s) else ticks s in
  let c := assigned (Transaction.createdAt t) (toISOString_value n1) in
  let n2 := if falsy (Transaction.createdAt t) then S n1 else n1 in
  let t' := Transaction.set_createdAt c (Transaction.set_id i t) in
  addTransaction generateId_value toISOString_value t s =
    match records ts !! i with
    | Some _ => (Rejected ConstraintError, mkState (indexedDB s) true n2)
    | None =>
        (Resolved i,
         mkState (mkIDB (version (indexedDB s))
                        (Some (mkStore (indexNames ts) (<[i := t']> (records ts))))
                        (categories (indexedDB s)))
                 true n2)
    end.
Proof.
  intros Hdb Hts [Hid Hcr]. cbv zeta.
  unfold addTransaction. run_method. rewrite Hdb, Hts.
  unfold generateId, toISOString, tick, assigned.
  destruct (Transaction.id t) as [i|] eqn:Ei; simpl.
  - destruct (String.eqb_spec i "") as [->|_]; [done|].
    destruct (Transaction.createdAt t) as [c|] eqn:Ec; simpl.
    + destruct (String.eqb_spec c "") as [->|_]; [done|].
      rewrite (IDB_add_transaction _ _ i) by done.
      rewrite (set_id_present t i Ei), (set_createdAt_present t c Ec).
      destruct (records ts !! i); simpl; rewrite ?Hdb; try done; destruct s; simpl in *; by subst.
    + rewrite (IDB_add_transaction _ _ i) by done.
      rewrite (set_id_present t i Ei).
      destruct (records ts !! i); simpl; rewrite ?Hdb; try done; destruct s; simpl in *; by subst.
  - destruct (Transaction.createdAt t) as [c|] eqn:Ec; simpl.
    + destruct (String.eqb_spec c "") as [->|_]; [done|].
      rewrite (IDB_add_transaction _ _ (generateId_value (ticks s))) by done.
      rewrite (set_createdAt_present (Transaction.set_id _ t) c) by done.
      destruct (records ts !! _); simpl; rewrite ?Hdb; try done; destruct s; simpl in *; by subst.
    + rewrite (IDB_add_transaction _ _ (generateId_value (ticks s))) by done.
      destruct (records ts !! _); simpl; rewrite ?Hdb; try done; destruct s; simpl in *; by subst.
Qed.
(** C3. Adding a valid transaction [T] to an initialized store: the stored
    record has the fields of [T], except that its [id] is [i] and its
    [createdAt] is [c], where [i] is [T.id] when [T] has one and the
    generated id otherwise, and [c] is [T.createdAt] when [T] has one and
    otherwise the time the clock gives in the call (after the id was
    generated, when one was). When [i] is already a key of the store the
    promise is rejected with the [ConstraintError] of [store.add] (the
    duplicate id) and the database is as before. Otherwise it resolves with
    [i], and [getTransaction(i)] then resolves with that record: with [T]
    itself when [T] had both fields, and with [T] differing only in the
    assigned [id] and [createdAt] when it did not. *)
Theorem addTransaction_then_get s T :
  ready s = true →
  valid_transaction T →
  ∃ i c,
    let add := addTransaction generateId_value toISOString_value T s in
    let record := Transaction.mk (Some i) (Transaction.type T) (Transaction.name T)
                    (Transaction.description T) (Transaction.amount T)
                    (Transaction.date T) (Transaction.category T) (Some c)
                    (Transaction.updatedAt T) in
    (∀ v, Transaction.id T = Some v → i = v) ∧
    (Transaction.id T = None → i = generateId_value (ticks s)) ∧
    (∀ v, Transaction.createdAt T = Some v → c = v) ∧
    (Transaction.createdAt T = None →
     c = toISOString_value (match Transaction.id T with
                            | None => S (ticks s)
                            | Some _ => ticks s
                            end)) ∧
    (is_Some (Transaction.id T) → is_Some (Transaction.createdAt T) → record = T) ∧
    (is_Some (transactions_of s !! i) →
     add.1 = Rejected ConstraintError ∧ indexedDB add.2 = indexedDB s) ∧
    (transactions_of s !! i = None →
     add.1 = Resolved i ∧
     getTransaction i add.2 = (Resolved (Some record), add.2) ∧
     transactions_of add.2 = <[i := record]> (transactions_of s) ∧
     categories_of add.2 = categories_of s).
Proof.
  intros (Hdb & ts & cs & Hts & Hcs & Hrec & Hcrec & _)%ready_inv Hvalid.
  pose proof (addTransaction_run s ts T Hdb Hts Hvalid) as Hrun. cbv zeta in Hrun.
  destruct Hvalid as [Hid Hcr].
  set (n1 := if falsy (Transaction.id T) then S (ticks s) else ticks s) in *.
  exists (assigned (Transaction.id T) (generateId_value (ticks s))),
         (assigned (Transaction.createdAt T) (toISOString_value n1)).
  cbv zeta. rewrite Hrec. split_and!.
  - intros v Hv. apply assigned_present; congruence.
  - by intros ->.
  - intros v Hv. apply assigned_present; congruence.
  - intros Hnone. rewrite Hnone, assigned_absent. subst n1.
    destruct (Transaction.id T) as [v|]; [|done].
    assert (Hv : v ≠ "") by congruence.
    unfold falsy. by apply String.eqb_neq in Hv as ->.
  - intros [i Hi] [c Hc].
    rewrite (assigned_present _ _ i Hi), (assigned_present _ _ c Hc) by congruence.
    destruct T. simpl in *. by subst.
  - intros [old Hold]. rewrite Hrun, Hold. done.
  - intros Hnone. rewrite Hrun, Hnone. simpl. split_and!; try done.
    unfold getTransaction. run_method. by rewrite lookup_insert_eq.
Qed.

(** What [updateTransaction] does when the store holds the id. *)
Lemma updateTransaction_run s ts id old updates k :
  db s = true →
  transactions (indexedDB s) = Some ts →
  records ts !! id = Some old →
  let new := Transaction.merge old updates (toISOString_value (ticks s)) in
  Transaction.id new = Some k →
  updateTransaction toISOString_value id updates s =
    (Resolved new,
     mkState (mkIDB (version (indexedDB s))
                    (Some (mkStore (indexNames ts) (<[k := new]> (records ts))))
                    (categories (indexedDB s)))
             true (S (ticks s))).
Proof.
  intros Hdb Hts Hold new Hk.
  unfold updateTransaction. run_method. rewrite Hdb, Hts, Hold.
  unfold await, toISOString, tick, request. simpl. fold new.
  rewrite (IDB_put_transaction new ts k Hk). simpl. by rewrite Hdb.
Qed.

(** C4, as the code has it. For a stored transaction, on an initialized
    store whose records are kept under their ids,
    [updateTransaction(id, {amount: X})] resolves with the record in which
    [amount] is [X] and [updatedAt] is the time the clock gives at the
    call, every other field being as stored; that record replaces the
    stored one and nothing else changes. The new [updatedAt] is not before
    the previous one whenever the clock at the call is not before it (times
    are ISO strings, compared as strings). For
    an id that the store does not hold, the update is rejected with
    "not found", whatever the updates, and the state is unchanged. *)
Theorem updateTransaction_amount s id X :
  ready s = true →
  keyed (transactions_of s) →
  (∀ old, transactions_of s !! id = Some old →
     let now := toISOString_value (ticks s) in
     let new := Transaction.mk (Transaction.id old) (Transaction.type old)
                  (Transaction.name old) (Transaction.description old) X
                  (Transaction.date old) (Transaction.category old)
                  (Transaction.createdAt old) (Some now) in
     let update := updateTransaction toISOString_value id (Transaction.only_amount X) s in
     update.1 = Resolved new ∧
     transactions_of update.2 = <[id := new]> (transactions_of s) ∧
     categories_of update.2 = categories_of s ∧
     (∀ previous, Transaction.updatedAt old = Some previous →
        String.leb previous now = true →
        ∃ stamp, Transaction.updatedAt new = Some stamp ∧
                 String.leb previous stamp = true)) ∧
  (transactions_of s !! id = None →
   ∀ updates,
     updateTransaction toISOString_value id updates s = (Rejected TransactionNotFound, s)).
Proof.
  intros (Hdb & ts & cs & Hts & Hcs & Hrec & Hcrec & _)%ready_inv Hkeyed.
  rewrite Hrec in *. split.
  - intros old Hold. cbv zeta.
    assert (Hid : Transaction.id old = Some id) by (by apply (Hkeyed id old)).
    rewrite (updateTransaction_run s ts id old (Transaction.only_amount X) id Hdb Hts Hold)
      by done.
    simpl. split_and!; try done.
    intros previous _ Hle. by eexists.
  - intros Hnone updates. unfold updateTransaction. run_method.
    by rewrite Hdb, Hts, Hnone.
Qed.
(** ** Export and import *)

Lemma falsy_false x : falsy x = false → ∃ v, x = Some v ∧ v ≠ "".
Proof.
  destruct x as [v|]; simpl; [|done].
  intros Hv%String.eqb_neq. by exists v.
Qed.

Lemma stamped_valid t : stamped t → valid_transaction t.
Proof.
  intros [(i & Hi & ?)%falsy_false (c & Hc & ?)%falsy_false].
  split; congruence.
Qed.

Lemma clearAll_run s ts :
  db s = true →
  transactions (indexedDB s) = Some ts →
  clearAll s =
    (Resolved true,
     mkState (mkIDB (version (indexedDB s)) (Some (mkStore (indexNames ts) ∅))
                    (categories (indexedDB s)))
             true (ticks s)).
Proof.
  intros Hdb Hts. unfold clearAll. run_method. rewrite Hdb, Hts. simpl. by rewrite Hdb.
Qed.

(** Adding, one after the other, transactions that have an id and a
    creation time, under ids that are distinct and new to the store: all
    are stored as they are, and the platform is not asked for anything. *)
Lemma addEach_run l : ∀ s ts,
  db s = true →
  transactions (indexedDB s) = Some ts →
  Forall stamped l →
  NoDup (entry <$> l).*1 →
  (∀ t, t ∈ l → records ts !! (entry t).1 = None) →
  addEach generateId_value toISOString_value l s =
    (Resolved (),
     mkState (mkIDB (version (indexedDB s))
                    (Some (mkStore (indexNames ts)
                                   (list_to_map (entry <$> l) ∪ records ts)))
                    (categories (indexedDB s)))
             true (ticks s)).
Proof.
  induction l as [|t l IH]; intros s ts Hdb Hts Hst Hnd Hnew; simpl.
  - unfold resolve. rewrite (left_id_L ∅ (∪)).
    destruct s as [[v txs c] d n], ts. simpl in *. by subst.
  - apply Forall_cons in Hst as [Ht Hst].
    rewrite !fmap_cons in Hnd. apply NoDup_cons in Hnd as [Hnotin Hnd].
    pose proof (addTransaction_run s ts t Hdb Hts (stamped_valid t Ht)) as Hrun.
    cbv zeta in Hrun.
    destruct Ht as [(i & Hi & Hine)%falsy_false (c & Hc & Hcne)%falsy_false].
    unfold assigned in Hrun. rewrite Hi, Hc in Hrun. simpl in Hrun.
    apply String.eqb_neq in Hine, Hcne. rewrite Hine, Hcne in Hrun.
    assert (Hent : entry t = (i, t)) by (unfold entry; by rewrite Hi).
    rewrite Hent in Hnotin. cbn [fst] in Hnotin.
    specialize (Hnew t (list_elem_of_here _ _)) as Hfree. rewrite Hent in Hfree.
    cbn [fst] in Hfree. rewrite Hfree in Hrun.
    rewrite (set_id_present t i Hi), (set_createdAt_present t c Hc) in Hrun.
    assert (Hmap : list_to_map (entry <$> l) ∪ <[i := t]> (records ts) =
                   list_to_map (entry <$> t :: l) ∪ records ts).
    { rewrite fmap_cons, Hent. cbn [list_to_map foldr uncurry fst snd].
      rewrite <-insert_union_l. symmetry. apply insert_union_r.
      by apply not_elem_of_list_to_map_1. }
    assert (Hrest : ∀ t', t' ∈ l → <[i := t]> (records ts) !! (entry t').1 = None).
    { intros t' Ht'. rewrite lookup_insert_ne.
      - apply Hnew. by right.
      - intros Heq. apply Hnotin. rewrite Heq.
        apply list_elem_of_fmap. exists (entry t'). split; [done|].
        by apply list_elem_of_fmap_2. }
    unfold await. rewrite Hrun.
    erewrite IH; [|reflexivity|reflexivity|exact Hst|exact Hnd|exact Hrest].
    cbn [indexedDB version transactions categories db ticks indexNames records].
    by rewrite Hmap.
Qed.

(** The stored transactions, with their keys, from the records alone. *)
Lemma entries_of_keyed (m : gmap string Transaction.t) :
  keyed m → entry <$> (map_to_list m).*2 = map_to_list m.
Proof.
  intros Hkeyed. rewrite <-list_fmap_compose.
  erewrite list_fmap_ext; [by rewrite list_fmap_id|].
  intros j [k t] Hkt%list_elem_of_lookup_2%elem_of_map_to_list. simpl.
  pose proof (Hkeyed k t Hkt) as Hid. unfold keyPath, Transaction_Keyed in Hid.
  unfold entry. by rewrite Hid.
Qed.

Variable Date_parse : string → float.

Lemma exportData_run s :
  ready s = true →
  ∃ scanned,
    scanned ≡ₚ (map_to_list (transactions_of s)).*2 ∧
    exportData toISOString_value Date_parse s =
      (Resolved (Backup.mk (toISOString_value (ticks s)) (length scanned) scanned),
       tick s).
Proof.
  intros Hready.
  destruct (getAllTransactions_run Date_parse s Hready) as (scanned & Hrun & Hperm).
  exists scanned. split; [done|].
  unfold exportData, await. by rewrite Hrun.
Qed.

(** C6. On an initialized store whose records are kept under their ids,
    and in which every transaction has an [id] and a [createdAt] as the
    data model has them (assigned by the store, not empty), exporting and
    then importing the exported backup
    succeeds and leaves the store with the same transactions under the same
    keys, hence the same multiset of transactions; the import returns their
    number and the categories are untouched. *)
Theorem export_import_roundtrip s :
  ready s = true →
  keyed (transactions_of s) →
  (∀ k t, transactions_of s !! k = Some t → stamped t) →
  ∃ backup s1 s2,
    exportData toISOString_value Date_parse s = (Resolved backup, s1) ∧
    importData generateId_value toISOString_value (backup_data backup) s1 =
      (Resolved (size (transactions_of s)), s2) ∧
    transactions_of s2 = transactions_of s ∧
    (map_to_list (transactions_of s2)).*2 ≡ₚ (map_to_list (transactions_of s)).*2 ∧
    categories_of s2 = categories_of s.
Proof.
  intros Hready Hkeyed Hstamped.
  destruct (exportData_run s Hready) as (scanned & Hperm & Hexport).
  apply ready_inv in Hready as (Hdb & ts & cs & Hts & Hcs & Hrec & Hcrec & _).
  rewrite Hrec in *.
  assert (Hentries : entry <$> scanned ≡ₚ map_to_list (records ts)).
  { rewrite Hperm. by rewrite entries_of_keyed. }
  assert (Hmap : list_to_map (entry <$> scanned) = records ts).
  { transitivity (list_to_map (map_to_list (records ts)) : gmap string Transaction.t);
      [|apply list_to_map_to_list].
    apply list_to_map_proper; [|done].
    rewrite Hentries. apply NoDup_fst_map_to_list. }
  eexists _, _, _. split; [exact Hexport|].
  assert (Himport :
    importData generateId_value toISOString_value
      (backup_data (Backup.mk (toISOString_value (ticks s)) (length scanned) scanned))
      (tick s) =
    (Resolved (length scanned),
     mkState (mkIDB (version (indexedDB s))
                    (Some (mkStore (indexNames ts) (list_to_map (entry <$> scanned) ∪ ∅)))
                    (categories (indexedDB s)))
             true (S (ticks s)))).
  { unfold importData, backup_data. simpl. unfold await at 1.
    rewrite (clearAll_run (tick s) ts) by done.
    unfold await.
    rewrite (addEach_run scanned _ (mkStore (indexNames ts) ∅)); simpl; try done.
    - apply Forall_forall. intros t Ht. rewrite Hperm in Ht.
      apply list_elem_of_fmap in Ht as [[k t'] [-> Hin%elem_of_map_to_list]].
      by apply (Hstamped k).
    - rewrite Hentries. apply NoDup_fst_map_to_list. }
  assert (Hlen : length scanned = size (records ts)).
  { by rewrite Hperm, length_fmap, length_map_to_list. }
  rewrite Hlen in Himport. split; [exact Himport|].
  unfold transactions_of, categories_of. simpl.
  rewrite Hmap, (right_id_L ∅ (∪)), Hcs. done.
Qed.
(** ** Validation of the imported data *)

Lemma addTransaction_rejected t s e s' :
  addTransaction generateId_value toISOString_value t s = (Rejected e, s') →
  storage_error e.
Proof.
  unfold addTransaction, storage_error. run_method.
  unfold generateId, toISOString, IDB_add.
  repeat (case_match; simpl in *; simplify_eq); intros; simplify_eq; auto.
Qed.

Lemma addEach_rejected l : ∀ s e s',
  addEach generateId_value toISOString_value l s = (Rejected e, s') →
  storage_error e.
Proof.
  induction l as [|t l IH]; intros s e s'; simpl; [done|].
  unfold await.
  destruct (addTransaction _ _ t s) as [[i|e1] s1] eqn:Hadd.
  - apply IH.
  - intros [= <- <-]. by eapply addTransaction_rejected.
Qed.

Lemma clearAll_rejected s e s' :
  clearAll s = (Rejected e, s') → storage_error e.
Proof.
  unfold clearAll, storage_error. run_method.
  repeat (case_match; simpl in *; simplify_eq); intros; simplify_eq; auto.
Qed.

Lemma storage_error_not_InvalidFormat e : storage_error e → e ≠ InvalidFormat.
Proof. by intros [-> | [-> | [-> | ->]]]. Qed.

(** X2. For an argument that has properties, [importData] is rejected as
    an invalid format exactly when [data.transactions] is not an array,
    before anything is cleared. For an array it clears the store, adds the
    elements in order and, when all were added, resolves with their
    number; it is then never rejected as an invalid format. *)
Lemma importData_validates s v :
  (Array_isArray v = false →
   importData generateId_value toISOString_value (Data v) s = (Rejected InvalidFormat, s)) ∧
  (∀ l, v = Array l →
     importData generateId_value toISOString_value (Data v) s =
       (clearAll ;;; addEach generateId_value toISOString_value l ;;; resolve (length l)) s ∧
     (importData generateId_value toISOString_value (Data v) s).1 ≠ Rejected InvalidFormat ∧
     ∀ n s', importData generateId_value toISOString_value (Data v) s = (Resolved n, s') →
             n = length l).
Proof.
  split.
  - intros Hv. unfold importData. by rewrite Hv, orb_true_r.
  - intros l ->. unfold importData. simpl. split_and!; [done|..].
    + unfold await.
      destruct (clearAll s) as [[b|e] s1] eqn:Hclear; simpl.
      * destruct (addEach _ _ l s1) as [[u|e] s2] eqn:Hadd; simpl; [done|].
        intros [= ->]. by apply addEach_rejected, storage_error_not_InvalidFormat in Hadd.
      * intros [= ->]. by apply clearAll_rejected, storage_error_not_InvalidFormat in Hclear.
    + intros n s'. unfold await.
      destruct (clearAll s) as [[b|e] s1]; [|done].
      destruct (addEach _ _ l s1) as [[u|e] s2]; [|done].
      unfold resolve. by intros [= <- _].
Qed.

(** C5, where the code leaves the claim. [importData(null)] and
    [importData(undefined)] are rejected with the [TypeError] of reading
    [data.transactions], not with the error of an invalid format; the
    state is unchanged. *)
Theorem importData_null s :
  importData generateId_value toISOString_value DataNull s = (Rejected TypeError, s) ∧
  importData generateId_value toISOString_value DataUndefined s = (Rejected TypeError, s) ∧
  TypeError ≠ InvalidFormat.
Proof. done. Qed.
End transactions.

(** ** Adding a category whose name is taken *)

Lemma await_resolved {A B} (m : Promise A) (k : A → Promise B) s v s' :
  m s = (Resolved v, s') → await m k s = k v s'.
Proof. unfold await. by intros ->. Qed.

Lemma await_rejected {A B} (m : Promise A) (k : A → Promise B) s e s' :
  m s = (Rejected e, s') → await m k s = (Rejected e, s').
Proof. unfold await. by intros ->. Qed.

Lemma category_set_id_present c v :
  Category.id c = Some v → Category.set_id v c = c.
Proof. destruct c. simpl. by intros ->. Qed.

Lemma category_set_createdAt_present c v :
  Category.createdAt c = Some v → Category.set_createdAt v c = c.
Proof. destruct c. simpl. by intros ->. Qed.

Lemma assigned_falsy x fresh : falsy x = true → assigned x fresh = fresh.
Proof. unfold assigned. by intros ->. Qed.

Lemma assigned_truthy x fresh : falsy x = false → x = Some (assigned x fresh).
Proof.
  unfold assigned. intros Hx. rewrite Hx.
  by apply falsy_false in Hx as (v & -> & _).
Qed.

Section categories.
Variable generateId_value : nat → string.
Variable toISOString_value : nat → string.

(** What [updateCategory] does when the store holds the id. *)
Lemma updateCategory_run s cs id old updates :
  db s = true →
  categories (indexedDB s) = Some cs →
  records cs !! id = Some old →
  let updated := Category.merge old updates (toISOString_value (ticks s)) in
  updateCategory toISOString_value id updates s =
    match IDB_put (same_name cs) updated cs with
    | inl e => (Rejected e, tick s)
    | inr put =>
        (Resolved updated,
         mkState (mkIDB (version (indexedDB s)) (transactions (indexedDB s)) (Some put.2))
                 true (S (ticks s)))
    end.
Proof.
  intros Hdb Hcs Hold updated.
  unfold updateCategory. run_method. rewrite Hdb, Hcs, Hold.
  unfold await, toISOString, request. simpl. fold updated.
  destruct (IDB_put (same_name cs) updated cs) as [e|put]; simpl; [done|].
  by rewrite Hdb.
Qed.

(** What [addCategory] does on an initialized store: the category gets its
    id and creation time, then [store.add], and the update when that fails
    on a constraint. *)
Lemma addCategory_run s cs c :
  db s = true →
  categories (indexedDB s) = Some cs →
  let i := assigned (Category.id c) (generateId_value (ticks s)) in
  let n1 := if falsy (Category.id c) then S (ticks s) else ticks s in
  let created := assigned (Category.createdAt c) (toISOString_value n1) in
  let n2 := if falsy (Category.createdAt c) then S n1 else n1 in
  let c' := Category.set_createdAt created (Category.set_id i c) in
  let s2 := mkState (indexedDB s) true n2 in
  addCategory generateId_value toISOString_value c s =
    match IDB_add (same_name cs) c' cs with
    | inr added =>
        (Resolved (Added added.1),
         mkState (mkIDB (version (indexedDB s)) (transactions (indexedDB s)) (Some added.2))
                 true n2)
    | inl e =>
        if String.eqb (error_name e) "ConstraintError" then
          (let* updated := updateCategory toISOString_value i (Category.as_partial c') in
           resolve (Updated updated)) s2
        else (Rejected e, s2)
    end.
Proof.
  intros Hdb Hcs. cbv zeta.
  set (i := assigned (Category.id c) (generateId_value (ticks s))).
  set (n1 := if falsy (Category.id c) then S (ticks s) else ticks s).
  set (created := assigned (Category.createdAt c) (toISOString_value n1)).
  set (n2 := if falsy (Category.createdAt c) then S n1 else n1).
  unfold addCategory.
  rewrite (await_resolved requireDb _ s () s) by (unfold requireDb; by rewrite Hdb).
  erewrite (await_resolved _ _ s (Category.set_id i c) (mkState (indexedDB s) true n1)).
  2:{ subst i n1. destruct (falsy (Category.id c)) eqn:Hf.
      - rewrite (assigned_falsy _ _ Hf). unfold await, generateId, resolve, tick. simpl.
        by rewrite Hdb.
      - rewrite (category_set_id_present c _ (assigned_truthy _ _ Hf)). unfold resolve.
        destruct s; simpl in *; by subst. }
  erewrite (await_resolved _ _ _ (Category.set_createdAt created (Category.set_id i c))
              (mkState (indexedDB s) true n2)).
  2:{ assert (Hcr : Category.createdAt (Category.set_id i c) = Category.createdAt c) by done.
      rewrite Hcr. subst created n2. destruct (falsy (Category.createdAt c)) eqn:Hf.
      - by rewrite (assigned_falsy _ _ Hf).
      - rewrite (category_set_createdAt_present (Category.set_id i c) _
                   (assigned_truthy _ _ Hf)). done. }
  rewrite (await_resolved categoriesStore _ _ cs (mkState (indexedDB s) true n2))
    by (unfold categoriesStore; simpl; by rewrite Hcs).
  destruct (IDB_add _ _ cs) as [e|added]; [|done].
  destruct (String.eqb (error_name e) "ConstraintError"); done.
Qed.
(** C8. A category [c] is added to an initialized store (records under
    their ids, names unique) in which the category [e], under the key [ke],
    already has the name of [c]. Let [i] be the id [c] is added under (its
    own, or the generated one when it has none). [store.add] fails on the
    constraint and [updateCategory(i, c)] runs instead:
    - when [i] is [ke], [e] is updated in place: the promise resolves with
      [e] overlaid with the properties of [c] and a new [updatedAt], and
      that record replaces [e];
    - when [i] is another id, the promise is rejected, with "not found"
      when the store has no category [i] and with the constraint error of
      [store.put] when it has one, and the categories are as before;
    - in both cases no category under a key other than [i] changes, so the
      record that holds the name is only ever written when the ids match. *)
Theorem addCategory_name_taken s c ke e :
  ready s = true →
  keyed (categories_of s) →
  unique_names (categories_of s) →
  categories_of s !! ke = Some e →
  Category.name e = Category.name c →
  ∃ i created,
    let add := addCategory generateId_value toISOString_value c s in
    let c' := Category.set_createdAt created (Category.set_id i c) in
    (∀ v, Category.id c = Some v → v ≠ "" → i = v) ∧
    (falsy (Category.id c) = true → i = generateId_value (ticks s)) ∧
    (i = ke →
     ∃ now,
       let updated := Category.merge e (Category.as_partial c') now in
       add.1 = Resolved (Updated updated) ∧
       categories_of add.2 = <[ke := updated]> (categories_of s)) ∧
    (i ≠ ke →
     (categories_of s !! i = None → add.1 = Rejected CategoryNotFound) ∧
     (is_Some (categories_of s !! i) → add.1 = Rejected ConstraintError) ∧
     categories_of add.2 = categories_of s) ∧
    (∀ k, k ≠ i → categories_of add.2 !! k = categories_of s !! k) ∧
    transactions_of add.2 = transactions_of s.
Proof.
  intros (Hdb & ts & cs & Hts & Hcs & Hrec & Hcrec & _ & _ & _ & _ & Hname)%ready_inv.
  rewrite Hcrec. intros Hkeyed Huniq He Hsame.
  pose proof (addCategory_run s cs c Hdb Hcs) as Hrun. cbv zeta in Hrun.
  set (i := assigned (Category.id c) (generateId_value (ticks s))) in *.
  set (n1 := if falsy (Category.id c) then S (ticks s) else ticks s) in *.
  set (created := assigned (Category.createdAt c) (toISOString_value n1)) in *.
  set (n2 := if falsy (Category.createdAt c) then S n1 else n1) in *.
  set (c' := Category.set_createdAt created (Category.set_id i c)) in *.
  set (s2 := mkState (indexedDB s) true n2) in *.
  exists i, created. cbv zeta. fold c'.
  assert (Hid' : Category.id c' = Some i) by done.
  assert (Hname' : Category.name c' = Category.name e) by done.
  (* [store.add] fails on the constraint *)
  assert (Hadd : IDB_add (same_name cs) c' cs = inl ConstraintError).
  { unfold IDB_add, keyPath, Category_Keyed. rewrite Hid'.
    destruct (records cs !! i) as [o|] eqn:Hi; [done|].
    rewrite decide_True; [done|].
    apply violates_same_name_iff; [done|]. exists ke, e. split_and!; try done.
    intros ->. congruence. }
  rewrite Hadd in Hrun. simpl in Hrun.
  assert (Hown : ∀ v, Category.id c = Some v → v ≠ "" → i = v).
  { intros v Hv Hvne. by apply assigned_present. }
  assert (Hgen : falsy (Category.id c) = true → i = generateId_value (ticks s)).
  { apply assigned_falsy. }
  do 2 (split; [done|]).
  (* the update that runs instead *)
  destruct (records cs !! i) as [o|] eqn:Hi.
  - pose proof (updateCategory_run s2 cs i o (Category.as_partial c')
                  eq_refl Hcs Hi) as Hupd.
    cbv zeta in Hupd.
    set (updated := Category.merge o (Category.as_partial c') (toISOString_value (ticks s2))) in *.
    assert (Hkey : keyPath updated = Some i) by done.
    assert (Huname : Category.name updated = Category.name e) by done.
    unfold IDB_put in Hupd. rewrite Hkey in Hupd.
    destruct (decide (i = ke)) as [Heq|Hne].
    + (* the ids match *)
      assert (o = e) as Hoe by congruence.
      rewrite decide_False in Hupd.
      2:{ rewrite violates_same_name_iff by done. intros (k & r & Hk & Hkne & Hn).
          apply Hkne. rewrite Heq. apply (Huniq k ke r e); congruence. }
      rewrite (await_resolved _ _ _ _ _ Hupd) in Hrun. rewrite Hrun. simpl.
      unfold categories_of, transactions_of. simpl. rewrite ?Hcs, ?Hts. simpl.
      split_and!; try done.
      * intros _. exists (toISOString_value (ticks s2)).
        subst updated. by rewrite Hoe, Heq.
      * intros k Hk. by rewrite lookup_insert_ne.
    + (* another category has the id *)
      rewrite decide_True in Hupd.
      2:{ apply violates_same_name_iff; [done|]. exists ke, e. by split_and!. }
      rewrite (await_rejected _ _ _ _ _ Hupd) in Hrun. rewrite Hrun. simpl.
      unfold categories_of, transactions_of. simpl. rewrite ?Hcs, ?Hts. simpl.
      split_and!; try done.
  - (* no category has the id *)
    assert (Hne : i ≠ ke) by congruence.
    assert (Hupd : updateCategory toISOString_value i (Category.as_partial c') s2 =
                   (Rejected CategoryNotFound, s2)).
    { unfold updateCategory. run_method. by rewrite Hcs, Hi. }
    rewrite (await_rejected _ _ _ _ _ Hupd) in Hrun. rewrite Hrun. simpl.
    unfold categories_of, transactions_of. simpl. rewrite ?Hcs, ?Hts. simpl.
    by split_and!.
Qed.
End categories.


(** ** The invariant of the methods *)

Lemma consistent_inv s :
  consistent s →
  ∃ v ts cs n,
    s = mkState (mkIDB v (Some ts) (Some cs)) true n ∧
    has_indexes ["date"; "type"; "category"] (Some ts) = true ∧
    has_indexes ["type"; "name"] (Some cs) = true ∧
    "name" ∈ indexNames cs ∧
    keyed (records ts) ∧ keyed (records cs) ∧ unique_names (records cs).
Proof.
  intros (Hready & Ht & Hc & Hu).
  pose proof Hready as (Hdb & ts & cs & Hts & Hcs & Hrec & Hcrec & _ & _ & _ & _ & Hname)%ready_inv.
  rewrite Hrec in Ht. rewrite Hcrec in Hc, Hu.
  pose proof Hready as Hi. unfold ready in Hi. rewrite Hts, Hcs in Hi.
  apply andb_true_iff in Hi as [[_ Hti]%andb_true_iff Hci].
  destruct s as [[v txs cats] d n]. cbn [indexedDB db transactions categories] in *. subst.
  by exists v, ts, cs, n.
Qed.

Lemma consistent_intro v ts cs n :
  has_indexes ["date"; "type"; "category"] (Some ts) = true →
  has_indexes ["type"; "name"] (Some cs) = true →
  keyed (records ts) → keyed (records cs) → unique_names (records cs) →
  consistent (mkState (mkIDB v (Some ts) (Some cs)) true n).
Proof.
  intros Hti Hci Ht Hc Hu. split_and!; try done.
  unfold ready. simpl in *. by rewrite Hti, Hci.
Qed.

(** A database that was just opened for the first time is consistent. *)
Lemma init_fresh_consistent : consistent (after init fresh).
Proof.
  assert (Ht : transactions_of (after init fresh) = ∅) by (by vm_compute).
  assert (Hc : categories_of (after init fresh) = ∅) by (by vm_compute).
  unfold consistent. rewrite Ht, Hc.
  split_and!; [by vm_compute|apply keyed_empty..|].
  intros k1 k2 c1 c2 H1. by rewrite lookup_empty in H1.
Qed.

Section invariant.
Variable generateId_value : nat → string.
Variable toISOString_value : nat → string.

Local Arguments IDB_add : simpl never.
Local Arguments IDB_put : simpl never.

Lemma addTransaction_consistent t s :
  consistent s →
  consistent (addTransaction generateId_value toISOString_value t s).2.
Proof.
  intros (v & ts & cs & n & -> & Hti & Hci & Hname & Ht & Hc & Hu)%consistent_inv.
  unfold addTransaction. run_method. unfold generateId, toISOString, tick.
  destruct (falsy (Transaction.id t)); simpl;
    destruct (falsy (Transaction.createdAt t)); simpl;
    (destruct (IDB_add _ _ ts) as [e|[k st']] eqn:Hadd; simpl;
     [by apply consistent_intro|];
     apply IDB_add_inv in Hadd as (Hk & _ & _ & ->);
     apply consistent_intro; try done; by apply keyed_insert).
Qed.

Lemma updateTransaction_consistent id updates s :
  consistent s →
  consistent (updateTransaction toISOString_value id updates s).2.
Proof.
  intros (v & ts & cs & n & -> & Hti & Hci & Hname & Ht & Hc & Hu)%consistent_inv.
  unfold updateTransaction. run_method.
  destruct (records ts !! id) as [old|]; simpl; [|by apply consistent_intro].
  unfold await, toISOString, tick. simpl.
  destruct (IDB_put _ _ ts) as [e|[k st']] eqn:Hput; simpl; [by apply consistent_intro|].
  apply IDB_put_inv in Hput as (Hk & _ & ->).
  apply consistent_intro; try done. by apply keyed_insert.
Qed.

Lemma deleteTransaction_consistent id s :
  consistent s → consistent (deleteTransaction id s).2.
Proof.
  intros (v & ts & cs & n & -> & Hti & Hci & Hname & Ht & Hc & Hu)%consistent_inv.
  unfold deleteTransaction. run_method.
  apply consistent_intro; try done. by apply keyed_delete.
Qed.

Lemma clearAll_consistent s : consistent s → consistent (clearAll s).2.
Proof.
  intros (v & ts & cs & n & -> & Hti & Hci & Hname & Ht & Hc & Hu)%consistent_inv.
  unfold clearAll. run_method.
  by apply consistent_intro.
Qed.

Lemma addEach_consistent l : ∀ s,
  consistent s → consistent (addEach generateId_value toISOString_value l s).2.
Proof.
  induction l as [|t l IH]; intros s Hs; simpl; [done|].
  unfold await.
  pose proof (addTransaction_consistent t s Hs) as Hadd.
  destruct (addTransaction _ _ t s) as [[i|e] s1]; simpl in *; [by apply IH|done].
Qed.

Lemma importData_consistent data s :
  consistent s →
  consistent (importData generateId_value toISOString_value data s).2.
Proof.
  intros Hs. unfold importData. destruct data as [| |v]; try done.
  destruct (not_ v || negb (Array_isArray v)); [done|].
  unfold await.
  pose proof (clearAll_consistent s Hs) as Hclear.
  destruct (clearAll s) as [[b|e] s1]; simpl in *; [|done].
  pose proof (addEach_consistent (elements v) s1 Hclear) as Hadd.
  by destruct (addEach _ _ (elements v) s1) as [[u|e] s2].
Qed.

Lemma updateCategory_consistent id updates s :
  consistent s →
  consistent (updateCategory toISOString_value id updates s).2.
Proof.
  intros (v & ts & cs & n & -> & Hti & Hci & Hname & Ht & Hc & Hu)%consistent_inv.
  unfold updateCategory. run_method.
  destruct (records cs !! id) as [old|]; simpl; [|by apply consistent_intro].
  unfold await, toISOString, tick. simpl.
  destruct (IDB_put _ _ cs) as [e|[k st']] eqn:Hput; simpl; [by apply consistent_intro|].
  apply IDB_put_inv in Hput as (Hk & Hv & ->).
  apply consistent_intro; try done.
  - by apply keyed_insert.
  - by apply (unique_names_insert cs).
Qed.

Lemma addCategory_consistent c s :
  consistent s →
  consistent (addCategory generateId_value toISOString_value c s).2.
Proof.
  intros Hs.
  pose proof Hs as (v & ts & cs & n & -> & Hti & Hci & Hname & Ht & Hc & Hu)%consistent_inv.
  rewrite (addCategory_run generateId_value toISOString_value
             (mkState (mkIDB v (Some ts) (Some cs)) true n) cs c eq_refl eq_refl).
  simpl.
  set (n2 := if falsy (Category.createdAt c) then _ else _).
  destruct (IDB_add _ _ cs) as [e|[k st']] eqn:Hadd; simpl.
  - assert (Hs2 : consistent (mkState (mkIDB v (Some ts) (Some cs)) true n2))
      by (by apply consistent_intro).
    destruct (String.eqb (error_name e) "ConstraintError"); [|done].
    unfold await.
    pose proof (updateCategory_consistent
                  (assigned (Category.id c) (generateId_value n)) 
                  (Category.as_partial
                     (Category.set_createdAt
                        (assigned (Category.createdAt c)
                           (toISOString_value (if falsy (Category.id c) then S n else n)))
                        (Category.set_id (assigned (Category.id c) (generateId_value n)) c)))
                  _ Hs2) as Hupd.
    by destruct (updateCategory _ _ _ _) as [[u|e'] s3].
  - apply IDB_add_inv in Hadd as (Hk & _ & Hv & ->).
    apply consistent_intro; try done.
    + by apply keyed_insert.
    + by apply (unique_names_insert cs).
Qed.

Lemma deleteCategory_consistent id s :
  consistent s → consistent (deleteCategory id s).2.
Proof.
  intros Hs. pose proof Hs as (Hready & _).
  destruct (getTransactionsByCategory_run s id Hready) as (result & Hrun & _).
  pose proof Hs as (v & ts & cs & n & -> & Hti & Hci & Hname & Ht & Hc & Hu)%consistent_inv.
  unfold deleteCategory.
  erewrite (await_resolved requireDb); [|reflexivity].
  rewrite (await_resolved _ _ _ _ _ Hrun).
  destruct (decide (0 < length result)); [done|].
  run_method. apply consistent_intro; try done.
  - by apply keyed_delete.
  - by apply unique_names_delete.
Qed.
Variable Date_parse : string → float.

Lemma exportData_consistent s :
  consistent s → consistent (exportData toISOString_value Date_parse s).2.
Proof.
  intros Hs. pose proof Hs as [Hready _].
  destruct (exportData_run toISOString_value Date_parse s Hready) as (scanned & _ & ->).
  apply consistent_inv in Hs as (v & ts & cs & n & -> & Hti & Hci & Hname & Ht & Hc & Hu).
  by apply consistent_intro.
Qed.

Lemma call_consistent s s' :
  call generateId_value toISOString_value Date_parse s s' →
  consistent s → consistent s'.
Proof.
  destruct 1; unfold after;
    eauto using addTransaction_consistent, updateTransaction_consistent,
      deleteTransaction_consistent, clearAll_consistent, exportData_consistent,
      importData_consistent, addCategory_consistent, updateCategory_consistent,
      deleteCategory_consistent.
Qed.

(** Every state the methods reach has the schema of version 2, its records
    under their ids, and its categories under distinct names. *)
Lemma reachable_consistent s :
  reachable generateId_value toISOString_value Date_parse s → consistent s.
Proof.
  unfold reachable. revert s. apply rtc_ind_r.
  - apply init_fresh_consistent.
  - intros s1 s2 _ Hcall IH. by eapply call_consistent.
Qed.
End invariant.

(** ** Opening the database *)

(** X1. [init()] on a database of an earlier version, whose stores (if
    any) have the indexes that version created, succeeds and leaves the
    state the methods need, with the records the stores held; in
    particular on a browser that never opened the database. *)
Lemma init_ready s :
  version (indexedDB s) < dbVersion →
  (∀ store, transactions (indexedDB s) = Some store →
            "date" ∈ indexNames store ∧ "type" ∈ indexNames store) →
  (∀ store, categories (indexedDB s) = Some store →
            "type" ∈ indexNames store ∧ "name" ∈ indexNames store) →
  (init s).1 = Resolved () ∧
  ready (after init s) = true ∧
  transactions_of (after init s) = transactions_of s ∧
  categories_of (after init s) = categories_of s.
Proof.
  intros Hv Htx Hcat. unfold after, init.
  rewrite decide_False by lia. rewrite decide_True by done.
  unfold ready, upgrade, transactions_of, categories_of, has_indexes. simpl.
  destruct (transactions (indexedDB s)) as [ts|] eqn:Hts,
           (categories (indexedDB s)) as [cs|] eqn:Hcs; simpl.
  - destruct (Htx ts eq_refl) as [Hd Ht], (Hcat cs eq_refl) as [Hct Hcn].
    destruct (decide ("category" ∈ indexNames ts)) as [Hc|Hc];
      [rewrite (bool_decide_true _ Hc)|rewrite (bool_decide_false _ Hc)]; simpl;
      rewrite !bool_decide_true by (rewrite ?elem_of_app, ?list_elem_of_singleton; auto); done.
  - destruct (Htx ts eq_refl) as [Hd Ht].
    destruct (decide ("category" ∈ indexNames ts)) as [Hc|Hc];
      [rewrite (bool_decide_true _ Hc)|rewrite (bool_decide_false _ Hc)]; simpl;
      rewrite !bool_decide_true by (rewrite ?elem_of_app, ?list_elem_of_singleton; auto); done.
  - destruct (Hcat cs eq_refl) as [Hct Hcn].
    by rewrite (bool_decide_true _ Hct), (bool_decide_true _ Hcn).
  - done.
Qed.

(** ** The shop *)

Lemma opened_ready : ready opened = true.
Proof. by vm_compute. Qed.


(** The states of the examples are states the methods reach. *)
Lemma opened_reachable :
  reachable demo_generateId demo_toISOString demo_Date_parse opened.
Proof.
  unfold reachable, opened, demo_addCategory.
  do 3 (eapply rtc_r; [|apply call_addCategory]). apply rtc_refl.
Qed.

Lemma shop_reachable :
  reachable demo_generateId demo_toISOString demo_Date_parse shop.
Proof.
  unfold shop, demo_addTransaction.
  do 2 (eapply rtc_r; [|apply call_addTransaction]). apply opened_reachable.
Qed.

Lemma shop_with_transfer_reachable :
  reachable demo_generateId demo_toISOString demo_Date_parse shop_with_transfer.
Proof.
  unfold shop_with_transfer, demo_addTransaction.
  eapply rtc_r; [|apply call_addTransaction]. apply opened_reachable.
Qed.

Lemma restored_reachable :
  reachable demo_generateId demo_toISOString demo_Date_parse restored.
Proof.
  unfold restored, demo_importData.
  eapply rtc_r; [|apply call_importData]. apply opened_reachable.
Qed.

Lemma shop_without_createdAt_reachable :
  reachable demo_generateId demo_toISOString demo_Date_parse shop_without_createdAt.
Proof.
  unfold shop_without_createdAt, demo_updateTransaction.
  eapply rtc_r; [|apply call_updateTransaction]. apply shop_reachable.
Qed.

Lemma shop_consistent : consistent shop.
Proof. eapply reachable_consistent, shop_reachable. Qed.

Lemma shop_ready : ready shop = true.
Proof. apply shop_consistent. Qed.

Lemma shop_transactions :
  transactions_of shop = <["t2" := rent_stored]> (<["t1" := sale_stored]> ∅).
Proof. by vm_compute. Qed.

Lemma shop_categories :
  categories_of shop =
  <["otros" := otros]> (<["alquiler" := alquiler]> (<["ventas" := ventas]> ∅)).
Proof. by vm_compute. Qed.

Lemma shop_keyed : keyed (transactions_of shop).
Proof. apply shop_consistent. Qed.

Lemma shop_stamped : ∀ k t, transactions_of shop !! k = Some t → stamped t.
Proof.
  apply (bool_decide_unpack (map_Forall (λ _ t, stamped t) (transactions_of shop))).
  by vm_compute.
Qed.

Lemma shop_categories_keyed : keyed (categories_of shop).
Proof. apply shop_consistent. Qed.

Lemma shop_unique_names : unique_names (categories_of shop).
Proof. apply shop_consistent. Qed.

Lemma demo_localeCompare_asym a b :
  PrimFloat.ltb 0 (demo_localeCompare a b) = true →
  PrimFloat.ltb 0 (demo_localeCompare b a) = false.
Proof.
  unfold demo_localeCompare. rewrite (String.compare_antisym b a).
  destruct (String.compare a b); vm_compute; congruence.
Qed.

(** ** The properties on the shop *)

(** The shop has an income of 100 and an expense of 40: its statistics are
    100, 40, 60 and 2. *)
Lemma getStats_totals_witness :
  ready shop = true ∧
  getStats demo_Date_parse shop = (Resolved (Stats.mk 100 40 60 2), shop).
Proof.
  split; [exact shop_ready|].
  destruct (getStats_totals demo_Date_parse shop shop_ready)
    as (scanned & _ & Hperm & _ & _ & _ & Hexample).
  apply (Hexample sale_stored rent_stored); try reflexivity.
  rewrite Hperm, shop_transactions. by vm_compute.
Defined.

(** Outside the data model, where a type is an income or an expense: the
    amount of a transfer is counted in [totalExpense]. *)
Lemma getStats_counts_transfer_as_expense :
  ∃ stats,
    reachable demo_generateId demo_toISOString demo_Date_parse shop_with_transfer ∧
    getStats demo_Date_parse shop_with_transfer = (Resolved stats, shop_with_transfer) ∧
    Stats.totalExpense stats = 5%float ∧
    sum_amounts (List.filter is_expense (map_to_list (transactions_of shop_with_transfer)).*2)
      = 0%float ∧
    PrimFloat.eqb 5 0 = false.
Proof.
  eexists. split_and!; [exact shop_with_transfer_reachable|by vm_compute..].
Qed.

(** Deleting the category of the sale is refused: one transaction uses it. *)
Lemma deleteCategory_in_use_witness :
  ready shop = true ∧
  deleteCategory "ventas" shop = (Rejected (CategoryInUse 1), shop).
Proof.
  split; [exact shop_ready|].
  destruct (deleteCategory_in_use shop "ventas" shop_ready) as [Hused _].
  destruct Hused as [Hrun _].
  - exists "t1", sale_stored. by rewrite shop_transactions.
  - rewrite Hrun. by vm_compute.
Defined.

(** The sale, added to the opened database, is read back as it was sent,
    with the time of the call as its creation time. *)
Lemma addTransaction_then_get_witness :
  ready opened = true ∧
  valid_transaction sale ∧
  getTransaction "t1" (after (demo_addTransaction sale) opened) =
    (Resolved (Some sale_stored), after (demo_addTransaction sale) opened).
Proof.
  split; [exact opened_ready|].
  assert (Hvalid : valid_transaction sale) by (split; discriminate).
  split; [exact Hvalid|].
  destruct (addTransaction_then_get demo_generateId demo_toISOString opened sale
              opened_ready Hvalid)
    as (i & c & Hid & _ & _ & Hcreated & _ & _ & Hnew).
  assert (Hi : i = "t1") by (by apply Hid).
  assert (Hc : c = "2024-06-01T12:00:00.000Z").
  { rewrite (Hcreated eq_refl). by vm_compute. }
  subst i c.
  destruct Hnew as (_ & Hget & _); [by vm_compute|].
  exact Hget.
Defined.

(** The amount of the rent is changed to 45: the other fields stay, and
    [updatedAt] is the time of the call. *)
Lemma updateTransaction_amount_witness :
  ready shop = true ∧
  keyed (transactions_of shop) ∧
  (demo_updateTransaction "t2" (Transaction.only_amount 45) shop).1 =
    Resolved (Transaction.mk (Some "t2") "expense" "Alquiler de enero" (Some "") 45
                "2023-12-31" (Some "alquiler") (Some "2024-06-01T12:00:01.000Z")
                (Some "2024-06-01T12:00:02.000Z")).
Proof.
  split; [exact shop_ready|]. split; [exact shop_keyed|].
  destruct (updateTransaction_amount demo_toISOString shop "t2" 45 shop_ready shop_keyed)
    as [Hfound _].
  destruct (Hfound rent_stored) as (Hrun & _); [by rewrite shop_transactions|].
  exact Hrun.
Defined.

(** A sale restored from a backup made where the clock was years ahead:
    after the update its [updatedAt] is earlier than before. *)
Lemma updateTransaction_updatedAt_earlier :
  ∃ old new,
    reachable demo_generateId demo_toISOString demo_Date_parse restored ∧
    transactions_of restored !! "t1" = Some old ∧
    (demo_updateTransaction "t1" (Transaction.only_amount 120) restored).1 = Resolved new ∧
    Transaction.updatedAt old = Some "2031-01-02T09:00:00.000Z" ∧
    Transaction.updatedAt new = Some "2024-06-01T12:00:00.000Z" ∧
    String.leb "2031-01-02T09:00:00.000Z" "2024-06-01T12:00:00.000Z" = false.
Proof.
  eexists _, _. split_and!; [exact restored_reachable|by vm_compute..].
Qed.

(** The backup of the shop, imported again, gives the shop. *)
Lemma export_import_roundtrip_witness :
  ready shop = true ∧
  keyed (transactions_of shop) ∧
  (∀ k t, transactions_of shop !! k = Some t → stamped t) ∧
  ∃ backup s1 s2,
    demo_exportData shop = (Resolved backup, s1) ∧
    demo_importData (backup_data backup) s1 = (Resolved 2, s2) ∧
    transactions_of s2 = transactions_of shop.
Proof.
  split; [exact shop_ready|]. split; [exact shop_keyed|]. split; [exact shop_stamped|].
  destruct (export_import_roundtrip demo_generateId demo_toISOString demo_Date_parse shop
              shop_ready shop_keyed shop_stamped)
    as (backup & s1 & s2 & Hexport & Himport & Hsame & _).
  exists backup, s1, s2. split; [exact Hexport|]. split; [|exact Hsame].
  unfold demo_importData. rewrite Himport. by vm_compute.
Defined.

(** Outside the data model, where [createdAt] is a time the store
    assigned: a sale whose creation time was overwritten with the empty
    string comes back from the export and import with the time of the
    import. *)
Lemma export_import_restamps :
  reachable demo_generateId demo_toISOString demo_Date_parse shop_without_createdAt ∧
  demo_exportData shop_without_createdAt =
    (Resolved backup_of_emptied, after demo_exportData shop_without_createdAt) ∧
  demo_importData (backup_data backup_of_emptied)
      (after demo_exportData shop_without_createdAt) =
    (Resolved 2, reimported) ∧
  transactions_of shop_without_createdAt !! "t1" = Some sale_emptied ∧
  Transaction.createdAt sale_emptied = Some "" ∧
  transactions_of reimported !! "t1" =
    Some (Transaction.set_createdAt "2024-06-01T12:00:04.000Z" sale_emptied) ∧
  sale_emptied ∈ (map_to_list (transactions_of shop_without_createdAt)).*2 ∧
  (sale_emptied ∉ (map_to_list (transactions_of reimported)).*2) ∧
  ¬ ((map_to_list (transactions_of reimported)).*2
       ≡ₚ (map_to_list (transactions_of shop_without_createdAt)).*2).
Proof.
  assert (Hin : sale_emptied ∈ (map_to_list (transactions_of shop_without_createdAt)).*2).
  { vm_compute. by left. }
  assert (Hnotin : sale_emptied ∉ (map_to_list (transactions_of reimported)).*2).
  { vm_compute. intros Hel. apply list_elem_of_In in Hel.
    destruct Hel as [Heq|[Heq|[]]]; discriminate Heq. }
  split_and!;
    [exact shop_without_createdAt_reachable|by vm_compute..|exact Hin|exact Hnotin|].
  intros Hperm. apply Hnotin. rewrite Hperm. exact Hin.
Qed.

(** An import is not atomic: of a backup that holds the sale twice, the
    first copy is stored, the second is refused as a duplicate, and the
    rent that the shop held before is gone. *)
Example importData_not_atomic :
  (demo_importData (Data (Array [sale_stored; sale_stored])) shop).1
    = Rejected ConstraintError ∧
  transactions_of (after (demo_importData (Data (Array [sale_stored; sale_stored]))) shop)
    = <["t1" := sale_stored]> ∅.
Proof. split; by vm_compute. Qed.

(** The transactions of January 2024 in the shop: the sale of the first
    day, and not the rent of the day before. *)
Lemma getTransactionsByDateRange_inclusive_witness :
  ready shop = true ∧
  String.leb "2024-01-01" "2024-01-31" = true ∧
  ∃ result,
    getTransactionsByDateRange "2024-01-01" "2024-01-31" shop = (Resolved result, shop) ∧
    sale_stored ∈ result ∧
    (rent_stored ∉ result).
Proof.
  split; [exact shop_ready|]. split; [reflexivity|].
  destruct (getTransactionsByDateRange_inclusive shop "2024-01-01" "2024-01-31"
              shop_ready eq_refl)
    as (result & Hrun & _ & _ & _ & _ & Hjanuary).
  exists result. split; [exact Hrun|].
  assert (Hsale : transactions_of shop !! "t1" = Some sale_stored)
    by (by rewrite shop_transactions).
  assert (Hrent : transactions_of shop !! "t2" = Some rent_stored)
    by (by rewrite shop_transactions).
  split.
  - by apply (Hjanuary eq_refl eq_refl "t1" sale_stored Hsale).
  - by apply (Hjanuary eq_refl eq_refl "t2" rent_stored Hrent).
Defined.

(** The category of the sales sent again under its id: the stored category
    is updated in place. *)
Lemma addCategory_name_taken_witness :
  ready shop = true ∧
  keyed (categories_of shop) ∧
  unique_names (categories_of shop) ∧
  categories_of shop !! "ventas" = Some ventas ∧
  Category.name ventas = Category.name ventas_again ∧
  ∃ updated,
    (demo_addCategory ventas_again shop).1 = Resolved (Updated updated) ∧
    categories_of (after (demo_addCategory ventas_again) shop) =
      <["ventas" := updated]> (categories_of shop) ∧
    Category.color updated = "#2E7D32".
Proof.
  assert (Hventas : categories_of shop !! "ventas" = Some ventas)
    by (by rewrite shop_categories).
  split; [exact shop_ready|]. split; [exact shop_categories_keyed|].
  split; [exact shop_unique_names|]. split; [exact Hventas|]. split; [reflexivity|].
  destruct (addCategory_name_taken demo_generateId demo_toISOString shop ventas_again
              "ventas" ventas shop_ready shop_categories_keyed shop_unique_names
              Hventas eq_refl)
    as (i & created & Hown & _ & Hsame & _).
  assert (Hi : i = "ventas") by (by apply Hown).
  destruct (Hsame Hi) as (now & Hrun & Hstore).
  eexists. split; [exact Hrun|]. split; [exact Hstore|]. reflexivity.
Defined.

(** The same name without an id: the generated id is new, the update finds
    no category under it, and the categories are as before. *)
Example addCategory_name_taken_other_id :
  (demo_addCategory ventas_without_id shop).1 = Rejected CategoryNotFound ∧
  categories_of (after (demo_addCategory ventas_without_id) shop) = categories_of shop.
Proof. split; by vm_compute. Qed.

(** The shop has no transaction [t9]: deleting it succeeds and changes
    nothing. *)
Lemma deleteTransaction_absent_id_witness :
  ready shop = true ∧
  transactions_of shop !! "t9" = None ∧
  deleteTransaction "t9" shop = (Resolved true, shop).
Proof.
  assert (Habsent : transactions_of shop !! "t9" = None)
    by (by rewrite shop_transactions).
  split; [exact shop_ready|]. split; [exact Habsent|].
  apply (deleteTransaction_absent_id shop "t9" shop_ready Habsent).
Defined.

(** The categories of the shop by type, in the order of their names. *)
Lemma getCategoriesByType_result_witness :
  ready shop = true ∧
  getCategoriesByType demo_localeCompare "both" shop =
    (Resolved [alquiler; otros; ventas], shop) ∧
  getCategoriesByType demo_localeCompare "income" shop = (Resolved [ventas], shop) ∧
  ∃ result,
    getCategoriesByType demo_localeCompare "expense" shop = (Resolved result, shop) ∧
    (∀ c, c ∈ result ↔ (∃ k, categories_of shop !! k = Some c) ∧ Category.type c = "expense") ∧
    Sorted (λ a b, PrimFloat.ltb 0 (demo_localeCompare (Category.name a) (Category.name b))
                   = false) result.
Proof.
  split; [exact shop_ready|]. split; [by vm_compute|]. split; [by vm_compute|].
  destruct (getCategoriesByType_result demo_localeCompare shop "expense" shop_ready)
    as (result & Hrun & _ & Hexpense & Hsorted).
  exists result. split; [exact Hrun|]. split.
  - apply Hexpense. discriminate.
  - apply Hsorted. exact demo_localeCompare_asym.
Defined.

(** * The rest of the code *)

(** ** Opening the database *)

(** A database of version 1, with the sale in it, is upgraded: the sale is
    kept and the categories store is there, empty. *)
Lemma init_ready_witness :
  version (indexedDB version_1) < dbVersion ∧
  ready (after init version_1) = true ∧
  transactions_of (after init version_1) !! "t1" = Some sale_stored ∧
  categories_of (after init version_1) = ∅.
Proof.
  split; [by vm_compute|].
  destruct (init_ready version_1) as (_ & Hready & Htx & Hcat).
  - by vm_compute.
  - unfold version_1. simpl. intros store [= <-]. simpl.
    rewrite !elem_of_cons. auto.
  - intros store Hs. by vm_compute in Hs.
  - split; [exact Hready|]. split; [by rewrite Htx|by rewrite Hcat].
Defined.

(** X4. Once [init()] has succeeded, the database has the version of the
    application and [this.db] is set, and a second [init()] succeeds and
    changes nothing: no store or index is created twice. *)
Theorem init_idempotent s :
  (init s).1 = Resolved () →
  version (indexedDB (after init s)) = dbVersion ∧
  db (after init s) = true ∧
  init (after init s) = (Resolved (), after init s).
Proof.
  unfold after, init. simpl.
  destruct (decide (dbVersion < version (indexedDB s))) as [|Hle]; [done|]. intros _.
  destruct (decide (version (indexedDB s) < dbVersion)) as [Hlt|Hge]; simpl.
  - by split_and!.
  - assert (Hv : version (indexedDB s) = dbVersion) by lia.
    split_and!; try done. by rewrite !decide_False.
Qed.

Lemma init_idempotent_witness :
  (init version_1).1 = Resolved () ∧
  init (after init version_1) = (Resolved (), after init version_1).
Proof.
  assert (H : (init version_1).1 = Resolved ()) by (by vm_compute).
  split; [exact H|]. apply (init_idempotent version_1 H).
Defined.

(** ** Before [init()] *)

Section before_init.
Variable generateId_value : nat → string.
Variable toISOString_value : nat → string.
Variable Date_parse : string → float.
Variable localeCompare : string → string → float.
Variable toLowerCase : string → string.

(** X5. While [this.db] is not set, every method of the store is rejected
    with "Base de datos no inicializada" and leaves the state as it is,
    also the methods that go through another one ([getStats],
    [searchTransactions], [exportData], [importData] of an array);
    [initDefaultCategories] catches the rejection and resolves, having
    added nothing. *)
Theorem not_initialized s :
  db s = false →
  (∀ t, addTransaction generateId_value toISOString_value t s = (Rejected NotInitialized, s)) ∧
  getAllTransactions Date_parse s = (Rejected NotInitialized, s) ∧
  (∀ id, getTransaction id s = (Rejected NotInitialized, s)) ∧
  (∀ id updates,
     updateTransaction toISOString_value id updates s = (Rejected NotInitialized, s)) ∧
  (∀ id, deleteTransaction id s = (Rejected NotInitialized, s)) ∧
  (∀ startDate endDate,
     getTransactionsByDateRange startDate endDate s = (Rejected NotInitialized, s)) ∧
  (∀ type, getTransactionsByType type s = (Rejected NotInitialized, s)) ∧
  getStats Date_parse s = (Rejected NotInitialized, s) ∧
  (∀ searchText,
     searchTransactions toLowerCase Date_parse searchText s = (Rejected NotInitialized, s)) ∧
  exportData toISOString_value Date_parse s = (Rejected NotInitialized, s) ∧
  (∀ l, importData generateId_value toISOString_value (Data (Array l)) s
        = (Rejected NotInitialized, s)) ∧
  clearAll s = (Rejected NotInitialized, s) ∧
  (∀ c, addCategory generateId_value toISOString_value c s = (Rejected NotInitialized, s)) ∧
  getAllCategories s = (Rejected NotInitialized, s) ∧
  (∀ type, getCategoriesByType localeCompare type s = (Rejected NotInitialized, s)) ∧
  (∀ id, getCategory id s = (Rejected NotInitialized, s)) ∧
  (∀ id updates,
     updateCategory toISOString_value id updates s = (Rejected NotInitialized, s)) ∧
  (∀ id, deleteCategory id s = (Rejected NotInitialized, s)) ∧
  (∀ id, getTransactionsByCategory id s = (Rejected NotInitialized, s)) ∧
  initDefaultCategories generateId_value toISOString_value s = (Resolved (), s).
Proof.
  intros Hdb.
  assert (Hreq : ∀ B (k : unit → Promise B), await requireDb k s = (Rejected NotInitialized, s)).
  { intros B k. unfold await, requireDb. by rewrite Hdb. }
  assert (Hall : getAllTransactions Date_parse s = (Rejected NotInitialized, s)) by apply Hreq.
  assert (Hclear : clearAll s = (Rejected NotInitialized, s)) by apply Hreq.
  assert (Hcats : getAllCategories s = (Rejected NotInitialized, s)) by apply Hreq.
  split_and!; intros; try apply Hreq.
  - unfold getStats. by rewrite (await_rejected _ _ _ _ _ Hall).
  - unfold searchTransactions. by rewrite (await_rejected _ _ _ _ _ Hall).
  - unfold exportData. by rewrite (await_rejected _ _ _ _ _ Hall).
  - unfold importData. simpl. by rewrite (await_rejected _ _ _ _ _ Hclear).
  - unfold initDefaultCategories, try_catch.
    by rewrite (await_rejected _ _ _ _ _ Hcats).
Qed.
End before_init.

Lemma not_initialized_witness :
  db fresh = false ∧
  getStats demo_Date_parse fresh = (Rejected NotInitialized, fresh) ∧
  demo_initDefaultCategories fresh = (Resolved (), fresh).
Proof.
  split; [reflexivity|].
  destruct (not_initialized demo_generateId demo_toISOString demo_Date_parse
              demo_localeCompare demo_toLowerCase fresh eq_refl)
    as (_ & _ & _ & _ & _ & _ & _ & Hstats & _ & _ & _ & _ & _ & _ & _ & _ & _ & _ & _ & Hinit).
  by split.
Defined.

(** ** The sign of a difference of numbers *)

Lemma binary_round_negative prec emax m e :
  SFltb (S754_zero false) (binary_round prec emax true m e) = false.
Proof.
  unfold binary_round, binary_round_aux.
  destruct (shl_align _ _ _) as [mz ez].
  destruct (shr_fexp prec emax (Z.pos mz) ez loc_Exact) as [mrs e'].
  destruct (shr_fexp _ _ _ _ _) as [mrs' e''].
  destruct (shr_m mrs'); [reflexivity| |reflexivity].
  by destruct (_ <=? _)%Z.
Qed.

Lemma binary_normalize_opp prec emax m e :
  SFltb (S754_zero false) (binary_normalize prec emax m e false) = true →
  SFltb (S754_zero false) (binary_normalize prec emax (- m) e false) = false.
Proof.
  destruct m as [|p|p]; simpl.
  - discriminate.
  - intros _. apply binary_round_negative.
  - by rewrite binary_round_negative.
Qed.

Lemma SFsub_asym prec emax x y :
  SFltb (S754_zero false) (SFsub prec emax y x) = true →
  SFltb (S754_zero false) (SFsub prec emax x y) = false.
Proof.
  destruct x as [sx|sx| |sx mx ex], y as [sy|sy| |sy my ey]; simpl;
    try (destruct sx, sy; cbv; congruence);
    try (destruct sx; cbv; congruence);
    try (destruct sy; cbv; congruence);
    try (cbv; congruence).
  rewrite (Z.min_comm ey ex).
  set (a := cond_Zopp sx _). set (b := cond_Zopp sy _).
  replace (a - b)%Z with (- (b - a))%Z by lia.
  apply binary_normalize_opp.
Qed.

(** When [y - x] is positive, [x - y] is not. *)
Lemma float_sub_asym (x y : float) :
  PrimFloat.ltb 0 (PrimFloat.sub y x) = true →
  PrimFloat.ltb 0 (PrimFloat.sub x y) = false.
Proof. rewrite !ltb_spec, !sub_spec. apply SFsub_asym. Qed.

(** ** Reading, deleting, updating and clearing transactions *)

Section more_transactions.
Variable generateId_value : nat → string.
Variable toISOString_value : nat → string.
Variable Date_parse : string → float.

(** A list that is sorted for a relation which goes through a third
    element of the list has every element related to all that follow. *)
Lemma Sorted_StronglySorted_on {A} (R : A → A → Prop) (l : list A) :
  (∀ a b c, a ∈ l → b ∈ l → c ∈ l → R a b → R b c → R a c) →
  Sorted R l → StronglySorted R l.
Proof.
  intros Htrans Hsorted.
  induction Hsorted as [|x l Hl IH Hhd]; [constructor|].
  assert (Hrest : StronglySorted R l).
  { apply IH. intros a b c Ha Hb Hc. apply Htrans; by right. }
  constructor; [done|].
  destruct Hhd as [|y l Hxy]; [constructor|].
  apply StronglySorted_inv in Hrest as [_ Hy].
  constructor; [done|].
  rewrite Forall_forall in Hy |- *. intros z Hz.
  apply (Htrans x y z); [by left|by right; left|by do 2 right|done|by apply Hy].
Qed.

(** X6. On an initialized store on whose transactions the comparison of the
    dates ([new Date(b.date) - new Date(a.date)]) is consistent,
    [getAllTransactions] resolves with the stored transactions, each once,
    the latest date first: no transaction of the result has a date before
    the date of one that follows it, anywhere in the list, and so none has
    a date before that of the first. The state is unchanged. *)
Theorem getAllTransactions_latest_first s :
  ready s = true →
  consistent_dates Date_parse (map_to_list (transactions_of s)).*2 →
  ∃ result,
    getAllTransactions Date_parse s = (Resolved result, s) ∧
    result ≡ₚ (map_to_list (transactions_of s)).*2 ∧
    length result = size (transactions_of s) ∧
    (∀ t, t ∈ result ↔ ∃ k, transactions_of s !! k = Some t) ∧
    StronglySorted (λ a b, earlier Date_parse a b = false) result ∧
    (∀ first rest, result = first :: rest →
       ∀ k t, transactions_of s !! k = Some t → earlier Date_parse first t = false).
Proof.
  intros (Hdb & ts & cs & Hts & Hcs & Hrec & _)%ready_inv. rewrite Hrec.
  intros Hconsistent.
  set (comparefn := λ a b : Transaction.t,
         PrimFloat.sub (Date_parse (Transaction.date b)) (Date_parse (Transaction.date a))).
  set (result := Array_sort comparefn (getAll ts)).
  assert (Hperm : result ≡ₚ (map_to_list (records ts)).*2).
  { unfold result, Array_sort. by rewrite stable_sort_perm, getAll_perm. }
  assert (Hmem : ∀ t, t ∈ result ↔ ∃ k, records ts !! k = Some t).
  { intros t. rewrite Hperm. apply (elem_of_stored ts). }
  assert (Hsorted : StronglySorted (λ a b, earlier Date_parse a b = false) result).
  { apply Sorted_StronglySorted_on.
    - intros a b c Ha Hb Hc. apply Hconsistent; by rewrite <-Hperm.
    - apply (stable_sort_Sorted (λ a b, PrimFloat.ltb 0 (comparefn a b))).
      intros a b. apply float_sub_asym. }
  exists result. split_and!; try done.
  - unfold getAllTransactions. run_method. by rewrite Hdb, Hts.
  - by rewrite Hperm, length_fmap, length_map_to_list.
  - intros first rest Hresult k t Hk.
    assert (Hin : t ∈ first :: rest) by (rewrite <-Hresult; apply Hmem; by exists k).
    rewrite Hresult in Hsorted. apply StronglySorted_inv in Hsorted as [_ Hfirst].
    apply elem_of_cons in Hin as [->|Hin].
    + destruct (earlier Date_parse first first) eqn:Hself; [|done].
      pose proof (float_sub_asym _ _ Hself) as Hno. unfold earlier in Hself. congruence.
    + rewrite Forall_forall in Hfirst. by apply Hfirst.
Qed.

(** X7. On an initialized store [deleteTransaction(id)] resolves with
    [true] and removes the transaction under [id] and nothing else:
    [getTransaction(id)] then resolves with [undefined], every other id
    reads as before, and the categories are untouched. *)
Theorem deleteTransaction_then_get s id :
  ready s = true →
  (deleteTransaction id s).1 = Resolved true ∧
  transactions_of (after (deleteTransaction id) s) = delete id (transactions_of s) ∧
  categories_of (after (deleteTransaction id) s) = categories_of s ∧
  getTransaction id (after (deleteTransaction id) s)
    = (Resolved None, after (deleteTransaction id) s) ∧
  (∀ k, k ≠ id →
     getTransaction k (after (deleteTransaction id) s)
       = (Resolved (transactions_of s !! k), after (deleteTransaction id) s)).
Proof.
  intros (Hdb & ts & cs & Hts & Hcs & Hrec & Hcrec & _)%ready_inv.
  rewrite Hrec.
  assert (Hrun : deleteTransaction id s =
            (Resolved true,
             mkState (mkIDB (version (indexedDB s)) (Some (IDB_delete id ts))
                            (categories (indexedDB s))) true (ticks s))).
  { unfold deleteTransaction. run_method. rewrite Hdb, Hts. simpl. by rewrite Hdb. }
  unfold after. rewrite Hrun. unfold transactions_of, categories_of, getTransaction.
  run_method. rewrite Hcs. split_and!; try done.
  - by rewrite lookup_delete_eq.
  - intros k Hk. by rewrite lookup_delete_ne.
Qed.

(** X8. [updateTransaction(id, updates)] on a stored transaction writes
    the merged record under the id the merged record has: under [id] when
    the updates carry no id, and under [updates.id] when they carry one. In
    that case the record under [id] stays as it was, so an update that
    changes the id leaves two transactions (the form of [ui.js] always
    sends an id). The categories are untouched. *)
Theorem updateTransaction_under_id s id old updates :
  ready s = true →
  keyed (transactions_of s) →
  transactions_of s !! id = Some old →
  let new := Transaction.merge old updates (toISOString_value (ticks s)) in
  let k := default id (Transaction.p_id updates) in
  let update := updateTransaction toISOString_value id updates s in
  update.1 = Resolved new ∧
  transactions_of update.2 = <[k := new]> (transactions_of s) ∧
  categories_of update.2 = categories_of s ∧
  getTransaction k update.2 = (Resolved (Some new), update.2) ∧
  (k ≠ id → getTransaction id update.2 = (Resolved (Some old), update.2)).
Proof.
  intros (Hdb & ts & cs & Hts & Hcs & Hrec & Hcrec & _)%ready_inv Hkeyed.
  rewrite Hrec in *. intros Hold. cbv zeta.
  assert (Hid : Transaction.id old = Some id) by (by apply (Hkeyed id old)).
  rewrite (updateTransaction_run toISOString_value s ts id old updates
             (default id (Transaction.p_id updates)) Hdb Hts Hold).
  2:{ simpl. rewrite Hid. destruct (Transaction.p_id updates); reflexivity. }
  unfold getTransaction. run_method. rewrite Hcs. split_and!; try done.
  - by rewrite lookup_insert_eq.
  - intros Hk. rewrite lookup_insert_ne by done. by rewrite Hold.
Qed.

(** X9. On an initialized store [clearAll] resolves with [true] and leaves
    no transaction, the categories and the schema being as before:
    [getAllTransactions] then resolves with the empty list and [getStats]
    with zeros. *)
Theorem clearAll_empties s :
  ready s = true →
  (clearAll s).1 = Resolved true ∧
  transactions_of (after clearAll s) = ∅ ∧
  categories_of (after clearAll s) = categories_of s ∧
  ready (after clearAll s) = true ∧
  getAllTransactions Date_parse (after clearAll s) = (Resolved [], after clearAll s) ∧
  getStats Date_parse (after clearAll s) = (Resolved (Stats.mk 0 0 0 0), after clearAll s).
Proof.
  intros Hready.
  pose proof Hready as (Hdb & ts & cs & Hts & Hcs & Hrec & Hcrec & _)%ready_inv.
  unfold after. rewrite (clearAll_run s ts Hdb Hts).
  assert (Hall : getAllTransactions Date_parse
            (mkState (mkIDB (version (indexedDB s)) (Some (mkStore (indexNames ts) ∅))
                            (categories (indexedDB s))) true (ticks s)) =
          (Resolved [], mkState (mkIDB (version (indexedDB s)) (Some (mkStore (indexNames ts) ∅))
                            (categories (indexedDB s))) true (ticks s))).
  { unfold getAllTransactions. run_method. unfold getAll. simpl.
    rewrite map_to_list_empty. reflexivity. }
  split_and!; try done.
  unfold ready in *. simpl. rewrite Hts, Hcs, Hdb in Hready. by rewrite Hcs.
Qed.

End more_transactions.

(** The shop: the sale of 2024-01-01 comes before the rent of 2023-12-31. *)
Lemma getAllTransactions_latest_first_witness :
  ready shop = true ∧
  consistent_dates demo_Date_parse (map_to_list (transactions_of shop)).*2 ∧
  getAllTransactions demo_Date_parse shop = (Resolved [sale_stored; rent_stored], shop).
Proof.
  assert (Hstored : (map_to_list (transactions_of shop)).*2 ≡ₚ [sale_stored; rent_stored]).
  { rewrite shop_transactions. by vm_compute. }
  assert (Hconsistent :
    consistent_dates demo_Date_parse (map_to_list (transactions_of shop)).*2).
  { intros a b c. rewrite !Hstored, !elem_of_cons, !elem_of_nil.
    intros [->|[->|[]]] [->|[->|[]]] [->|[->|[]]]; by vm_compute. }
  split; [exact shop_ready|]. split; [exact Hconsistent|].
  destruct (getAllTransactions_latest_first demo_Date_parse shop shop_ready Hconsistent)
    as (result & Hrun & Hperm & _ & _ & Hsorted & _).
  rewrite Hrun. f_equal. f_equal.
  rewrite Hstored in Hperm. symmetry in Hperm.
  apply Permutation_length_2_inv in Hperm as [->| ->]; [done|].
  apply StronglySorted_inv in Hsorted as [_ Hrent].
  apply Forall_cons in Hrent as [Hrent _]. by vm_compute in Hrent.
Defined.

Lemma deleteTransaction_then_get_witness :
  ready shop = true ∧
  getTransaction "t1" (after (deleteTransaction "t1") shop)
    = (Resolved None, after (deleteTransaction "t1") shop).
Proof.
  split; [exact shop_ready|].
  apply (deleteTransaction_then_get shop "t1" shop_ready).
Defined.

(** The sale moved to the id [t9]: it is still there under [t1]. *)
Lemma updateTransaction_under_id_witness :
  ready shop = true ∧
  keyed (transactions_of shop) ∧
  transactions_of shop !! "t1" = Some sale_stored ∧
  getTransaction "t1" (after (demo_updateTransaction "t1" moved_to_t9) shop)
    = (Resolved (Some sale_stored), after (demo_updateTransaction "t1" moved_to_t9) shop) ∧
  is_Some (transactions_of (after (demo_updateTransaction "t1" moved_to_t9) shop) !! "t9").
Proof.
  assert (Hsale : transactions_of shop !! "t1" = Some sale_stored)
    by (by rewrite shop_transactions).
  split; [exact shop_ready|]. split; [exact shop_keyed|]. split; [exact Hsale|].
  destruct (updateTransaction_under_id demo_toISOString shop "t1" sale_stored moved_to_t9
              shop_ready shop_keyed Hsale) as (_ & Hstore & _ & _ & Hold).
  split.
  - by apply Hold.
  - unfold after, demo_updateTransaction. rewrite Hstore. simpl.
    rewrite lookup_insert_eq. by eexists.
Defined.

Lemma clearAll_empties_witness :
  ready shop = true ∧
  getStats demo_Date_parse (after clearAll shop)
    = (Resolved (Stats.mk 0 0 0 0), after clearAll shop).
Proof.
  split; [exact shop_ready|].
  apply (clearAll_empties demo_Date_parse shop shop_ready).
Defined.

(** ** Export and import, in general *)

Lemma addEach_app generateId_value toISOString_value l1 l2 s :
  addEach generateId_value toISOString_value (l1 ++ l2) s =
  (addEach generateId_value toISOString_value l1 ;;;
   addEach generateId_value toISOString_value l2) s.
Proof.
  revert s. induction l1 as [|t l1 IH]; intros s; simpl; [done|].
  unfold await in *.
  destruct (addTransaction _ _ t s) as [[i|e] s1]; [apply IH|done].
Qed.

Section import_export.
Variable generateId_value : nat → string.
Variable toISOString_value : nat → string.
Variable Date_parse : string → float.

(** X10. On an initialized store [exportData] resolves with a backup that
    holds what [getAllTransactions] returns, stamped with the time of the
    call; its [count] is the length of its list, the number of stored
    transactions and the [count] of [getStats]. The export reads the clock
    and leaves the database as it is. *)
Theorem exportData_backup s :
  ready s = true →
  ∃ backup,
    exportData toISOString_value Date_parse s = (Resolved backup, tick s) ∧
    getAllTransactions Date_parse s = (Resolved (Backup.transactions backup), s) ∧
    Backup.exportedAt backup = toISOString_value (ticks s) ∧
    Backup.count backup = length (Backup.transactions backup) ∧
    Backup.count backup = size (transactions_of s) ∧
    (∃ stats, getStats Date_parse s = (Resolved stats, s) ∧
              Stats.count stats = Backup.count backup) ∧
    indexedDB (tick s) = indexedDB s.
Proof.
  intros Hready.
  destruct (getAllTransactions_run Date_parse s Hready) as (scanned & Hrun & Hperm).
  exists (Backup.mk (toISOString_value (ticks s)) (length scanned) scanned).
  split_and!; try done.
  - unfold exportData. by rewrite (await_resolved _ _ _ _ _ Hrun).
  - simpl. by rewrite Hperm, length_fmap, length_map_to_list.
  - eexists. split.
    + unfold getStats. rewrite (await_resolved _ _ _ _ _ Hrun).
      rewrite fold_addToStats. reflexivity.
    + done.
Qed.

(** X11. An import replaces what the store held. For an array of
    transactions that have an id and a creation time, under distinct ids,
    [importData] on an initialized store resolves with the length of the
    array and leaves exactly these transactions, as they are, under their
    ids, whatever was stored before; the categories are untouched and the
    platform is not asked for an id or for the time. *)
Theorem importData_replaces s l :
  ready s = true →
  Forall stamped l →
  NoDup (entry <$> l).*1 →
  ∃ s',
    importData generateId_value toISOString_value (Data (Array l)) s
      = (Resolved (length l), s') ∧
    transactions_of s' = list_to_map (entry <$> l) ∧
    categories_of s' = categories_of s ∧
    ticks s' = ticks s ∧
    ready s' = true.
Proof.
  intros Hready Hst Hnd.
  pose proof Hready as (Hdb & ts & cs & Hts & Hcs & Hrec & Hcrec & _)%ready_inv.
  eexists. split.
  - unfold importData. simpl. rewrite (await_resolved _ _ _ _ _ (clearAll_run s ts Hdb Hts)).
    erewrite await_resolved; [reflexivity|].
    by apply (addEach_run generateId_value toISOString_value l _ (mkStore (indexNames ts) ∅)).
  - unfold transactions_of, categories_of. simpl. split_and!; try done.
    + apply (right_id_L ∅ (∪)).
    + unfold ready in *. simpl. rewrite Hts, Hcs, Hdb in Hready. by rewrite Hcs.
Qed.

(** X12. An import is not atomic. When the array holds, after
    transactions with distinct ids, one whose id is among theirs,
    [importData] is rejected with the [ConstraintError] of [store.add]; the
    store then holds the transactions that came before the duplicate and
    nothing of what it held before the import, and what follows the
    duplicate is not added. *)
Theorem importData_stops s l1 t l2 :
  ready s = true →
  Forall stamped l1 →
  NoDup (entry <$> l1).*1 →
  stamped t →
  (entry t).1 ∈ (entry <$> l1).*1 →
  ∃ s',
    importData generateId_value toISOString_value (Data (Array (l1 ++ t :: l2))) s
      = (Rejected ConstraintError, s') ∧
    transactions_of s' = list_to_map (entry <$> l1) ∧
    categories_of s' = categories_of s.
Proof.
  intros Hready Hst Hnd Ht Hdup.
  pose proof Hready as (Hdb & ts & cs & Hts & Hcs & Hrec & Hcrec & _)%ready_inv.
  set (s1 := mkState (mkIDB (version (indexedDB s)) (Some (mkStore (indexNames ts) ∅))
                            (categories (indexedDB s))) true (ticks s)).
  set (s2 := mkState (mkIDB (version (indexedDB s))
                        (Some (mkStore (indexNames ts) (list_to_map (entry <$> l1) ∪ ∅)))
                        (categories (indexedDB s))) true (ticks s)).
  assert (Hadd1 : addEach generateId_value toISOString_value l1 s1 = (Resolved (), s2)).
  { by apply (addEach_run generateId_value toISOString_value l1 s1
                (mkStore (indexNames ts) ∅)). }
  pose proof (addTransaction_run generateId_value toISOString_value s2 _ t
                eq_refl eq_refl (stamped_valid t Ht)) as Hadd.
  cbv zeta in Hadd.
  destruct Ht as [(i & Hi & Hine)%falsy_false (c & Hc & Hcne)%falsy_false].
  unfold assigned in Hadd. rewrite Hi, Hc in Hadd. simpl in Hadd.
  apply String.eqb_neq in Hine, Hcne. rewrite Hine, Hcne in Hadd.
  assert (Hent : entry t = (i, t)) by (unfold entry; by rewrite Hi).
  rewrite Hent in Hdup. cbn [fst] in Hdup.
  assert (Hthere : is_Some ((list_to_map (entry <$> l1) ∪ ∅ : gmap string Transaction.t) !! i)).
  { rewrite (right_id_L ∅ (∪)). apply elem_of_dom.
    by rewrite dom_list_to_map_L, elem_of_list_to_set. }
  destruct Hthere as [r Hr]. rewrite Hr in Hadd.
  exists s2. split.
  - unfold importData. simpl.
    rewrite (await_resolved _ _ _ _ _ (clearAll_run s ts Hdb Hts)). fold s1.
    apply await_rejected. rewrite addEach_app.
    rewrite (await_resolved _ _ _ _ _ Hadd1). simpl.
    by apply await_rejected.
  - unfold transactions_of, categories_of. simpl. split; [|done].
    apply (right_id_L ∅ (∪)).
Qed.

End import_export.

Lemma exportData_backup_witness :
  ready shop = true ∧
  ∃ backup,
    demo_exportData shop = (Resolved backup, tick shop) ∧
    Backup.count backup = 2.
Proof.
  split; [exact shop_ready|].
  destruct (exportData_backup demo_toISOString demo_Date_parse shop shop_ready)
    as (backup & Hrun & _ & _ & _ & Hcount & _).
  exists backup. split; [exact Hrun|]. rewrite Hcount, shop_transactions. by vm_compute.
Defined.

(** The backup of 2031 imported into the shop: the rent is gone. *)
Lemma importData_replaces_witness :
  ready shop = true ∧
  Forall stamped [sale_from_2031] ∧
  NoDup (entry <$> [sale_from_2031]).*1 ∧
  ∃ s',
    demo_importData (Data (Array [sale_from_2031])) shop = (Resolved 1, s') ∧
    transactions_of s' = {["t1" := sale_from_2031]}.
Proof.
  assert (Hst : Forall stamped [sale_from_2031]) by (by repeat constructor).
  assert (Hnd : NoDup (entry <$> [sale_from_2031]).*1).
  { apply (bool_decide_unpack _). by vm_compute. }
  split; [exact shop_ready|]. split; [exact Hst|]. split; [exact Hnd|].
  destruct (importData_replaces demo_generateId demo_toISOString shop [sale_from_2031]
              shop_ready Hst Hnd) as (s' & Hrun & Hstore & _).
  exists s'. split; [exact Hrun|]. rewrite Hstore. by vm_compute.
Defined.

(** The sale twice, then the rent: the first sale is all that is left. *)
Lemma importData_stops_witness :
  ready shop = true ∧
  Forall stamped [sale_stored] ∧
  NoDup (entry <$> [sale_stored]).*1 ∧
  stamped sale_stored ∧
  (entry sale_stored).1 ∈ (entry <$> [sale_stored]).*1 ∧
  ∃ s',
    demo_importData (Data (Array [sale_stored; sale_stored; rent_stored])) shop
      = (Rejected ConstraintError, s') ∧
    transactions_of s' = {["t1" := sale_stored]}.
Proof.
  assert (Hsale : stamped sale_stored) by done.
  assert (Hst : Forall stamped [sale_stored]) by (by repeat constructor).
  assert (Hnd : NoDup (entry <$> [sale_stored]).*1).
  { apply (bool_decide_unpack _). by vm_compute. }
  assert (Hin : (entry sale_stored).1 ∈ (entry <$> [sale_stored]).*1) by (by left).
  split; [exact shop_ready|]. split; [exact Hst|]. split; [exact Hnd|].
  split; [exact Hsale|]. split; [exact Hin|].
  destruct (importData_stops demo_generateId demo_toISOString shop
              [sale_stored] sale_stored [rent_stored] shop_ready Hst Hnd Hsale Hin)
    as (s' & Hrun & Hstore & _).
  exists s'. split; [exact Hrun|]. rewrite Hstore. by vm_compute.
Defined.

(** ** Queries by type and by date *)

Lemma getTransactionsByType_run s type :
  ready s = true →
  ∃ result,
    getTransactionsByType type s = (Resolved result, s) ∧
    result ≡ₚ List.filter (λ t, String.eqb (Transaction.type t) type)
                (map_to_list (transactions_of s)).*2 ∧
    (∀ t, t ∈ result ↔ (∃ k, transactions_of s !! k = Some t) ∧ Transaction.type t = type).
Proof.
  intros (Hdb & ts & cs & Hts & Hcs & Hrec & _ & _ & Htype & _)%ready_inv.
  rewrite Hrec.
  set (key := λ t : Transaction.t, Some (Transaction.type t)).
  exists (index_getAll key (only type) ts). split_and!.
  - unfold getTransactionsByType. run_method. rewrite Hdb, Hts.
    by rewrite bool_decide_true.
  - rewrite index_getAll_perm. by apply filter_ext_perm.
  - intros t. rewrite elem_of_index_getAll. unfold in_range, key. simpl.
    by rewrite String.eqb_eq.
Qed.

Lemma getTransactionsByDateRange_DataError s startDate endDate :
  ready s = true →
  String.ltb endDate startDate = true →
  getTransactionsByDateRange startDate endDate s = (Rejected DataError, s).
Proof.
  intros (Hdb & ts & cs & Hts & Hcs & Hrec & _ & Hdate & _)%ready_inv Hlt.
  unfold getTransactionsByDateRange. run_method. rewrite Hdb, Hts.
  rewrite bool_decide_true by done. unfold IDBKeyRange_bound. by rewrite Hlt.
Qed.

(** X13. On an initialized store [getTransactionsByType(type)] resolves
    with exactly the stored transactions of that type, each once, and
    leaves the state as it is; for ['income'] these are the transactions
    [getStats] sums into [totalIncome]. *)
Theorem getTransactionsByType_result s type :
  ready s = true →
  ∃ result,
    getTransactionsByType type s = (Resolved result, s) ∧
    result ≡ₚ List.filter (λ t, String.eqb (Transaction.type t) type)
                (map_to_list (transactions_of s)).*2 ∧
    (∀ t, t ∈ result ↔ (∃ k, transactions_of s !! k = Some t) ∧ Transaction.type t = type) ∧
    (type = "income" → result ≡ₚ List.filter is_income (map_to_list (transactions_of s)).*2).
Proof.
  intros Hready.
  destruct (getTransactionsByType_run s type Hready) as (result & Hrun & Hperm & Hmem).
  exists result. split_and!; try done. by intros ->.
Qed.

Lemma getTransactionsByType_result_witness :
  ready shop = true ∧
  ∃ result,
    getTransactionsByType "income" shop = (Resolved result, shop) ∧
    sale_stored ∈ result ∧
    (rent_stored ∉ result).
Proof.
  split; [exact shop_ready|].
  destruct (getTransactionsByType_result shop "income" shop_ready)
    as (result & Hrun & _ & Hmem & _).
  exists result. split; [exact Hrun|]. split.
  - apply Hmem. split; [|done]. exists "t1". by rewrite shop_transactions.
  - intros [_ Hty]%Hmem. discriminate Hty.
Defined.

(** X14. The edges of the date range. With the first bound after the
    second, [getTransactionsByDateRange] is rejected with the [DataError]
    of [IDBKeyRange.bound] and nothing is read; with both bounds equal it
    resolves with exactly the stored transactions of that date. *)
Theorem getTransactionsByDateRange_edges s startDate endDate :
  ready s = true →
  (String.ltb endDate startDate = true →
   getTransactionsByDateRange startDate endDate s = (Rejected DataError, s)) ∧
  (∃ result,
     getTransactionsByDateRange startDate startDate s = (Resolved result, s) ∧
     ∀ t, t ∈ result ↔
          (∃ k, transactions_of s !! k = Some t) ∧ Transaction.date t = startDate).
Proof.
  intros Hready. split; [by apply getTransactionsByDateRange_DataError|].
  destruct (getTransactionsByDateRange_run s startDate startDate Hready
              (String_leb_refl startDate)) as (result & Hrun & _ & Hmem).
  exists result. split; [done|]. intros t. rewrite Hmem. split.
  - intros (Hk & H1 & H2). split; [done|]. by apply String.leb_antisym.
  - intros [Hk ->]. by rewrite String_leb_refl.
Qed.

Lemma getTransactionsByDateRange_edges_witness :
  ready shop = true ∧
  getTransactionsByDateRange "2024-01-31" "2024-01-01" shop = (Rejected DataError, shop).
Proof.
  split; [exact shop_ready|].
  by apply (getTransactionsByDateRange_edges shop "2024-01-31" "2024-01-01" shop_ready).
Defined.

(** January 2024 by its calendar dates: the sale of the first day is in. *)
Lemma getTransactionsByDateRange_calendar_witness :
  ready shop = true ∧
  2024 < 10 ^ 4 ∧ 1 < 10 ^ 2 ∧ 31 < 10 ^ 2 ∧
  date_le 2024 1 1 2024 1 31 ∧
  ∃ result,
    getTransactionsByDateRange (iso_date 2024 1 1) (iso_date 2024 1 31) shop
      = (Resolved result, shop) ∧
    sale_stored ∈ result.
Proof.
  assert (Hy : 2024 < 10 ^ 4) by (apply Nat.ltb_lt; by vm_compute).
  assert (Hm : 1 < 10 ^ 2) by (apply Nat.ltb_lt; by vm_compute).
  assert (Hd : 31 < 10 ^ 2) by (apply Nat.ltb_lt; by vm_compute).
  assert (Hle : date_le 2024 1 1 2024 1 31) by (right; split; [done|right; split; [done|lia]]).
  split; [exact shop_ready|]. split; [exact Hy|]. split; [exact Hm|]. split; [exact Hd|].
  split; [exact Hle|].
  destruct (getTransactionsByDateRange_calendar shop 2024 1 1 2024 1 31
              shop_ready Hy Hm Hm Hy Hm Hd Hle) as (result & Hrun & Hmem).
  exists result. split; [exact Hrun|].
  apply (Hmem "t1" sale_stored 2024 1 1); [by rewrite shop_transactions|done..|].
  split; right; (split; [done|]); right; (split; [done|lia]).
Defined.

(** ** More on the categories *)

Lemma String_ltb_asym a b : String.ltb a b = true → String.ltb b a = false.
Proof.
  unfold String.ltb. rewrite (String.compare_antisym b a).
  by destruct (String.compare a b).
Qed.

(** ** The order of the keys is transitive *)

Lemma String_compare_trans a : ∀ b c,
  String.compare a b ≠ Gt → String.compare b c ≠ Gt → String.compare a c ≠ Gt.
Proof.
  induction a as [|x a IH]; intros [|y b] [|z c]; simpl; try done.
  unfold Ascii.compare.
  destruct (N.compare_spec (Ascii.N_of_ascii x) (Ascii.N_of_ascii y)) as [Hxy|Hxy|Hxy],
           (N.compare_spec (Ascii.N_of_ascii y) (Ascii.N_of_ascii z)) as [Hyz|Hyz|Hyz],
           (N.compare_spec (Ascii.N_of_ascii x) (Ascii.N_of_ascii z)) as [Hxz|Hxz|Hxz];
    try done; try lia.
  apply IH.
Qed.

Lemma String_leb_trans a b c :
  String.leb a b = true → String.leb b c = true → String.leb a c = true.
Proof.
  unfold String.leb. intros Hab Hbc.
  pose proof (String_compare_trans a b c) as Htrans.
  destruct (String.compare a b), (String.compare b c), (String.compare a c);
    try done; by destruct Htrans.
Qed.

Lemma String_leb_ne_ltb a b : String.leb a b = true → a ≠ b → String.ltb a b = true.
Proof.
  unfold String.leb, String.ltb. intros Hle Hne.
  destruct (String.compare a b) eqn:Hcmp; try done.
  by apply String.compare_eq_iff in Hcmp.
Qed.

Lemma Sorted_weaken {A} (R R' : A → A → Prop) (l : list A) :
  (∀ a b, R a b → R' a b) → Sorted R l → Sorted R' l.
Proof.
  intros Himpl. induction 1 as [|x l Hl IH Hhd]; constructor; [done|].
  destruct Hhd; constructor. by apply Himpl.
Qed.

(** [getAll] reads a store whose records are under their ids by ascending
    id: every record has an id before the ids of all that follow. *)
Lemma getAll_StronglySorted {A} `{Keyed A} (store : ObjectStore A) :
  keyed (records store) →
  StronglySorted
    (λ a b, String.ltb (default "" (keyPath a)) (default "" (keyPath b)) = true)
    (getAll store).
Proof.
  intros Hkeyed. unfold getAll.
  set (after := λ a b : string * A, String.ltb b.1 a.1).
  set (l := stable_sort after (map_to_list (records store))).
  assert (Hperm : l ≡ₚ map_to_list (records store)) by apply stable_sort_perm.
  assert (Hsorted : StronglySorted (λ p q : string * A, String.leb p.1 q.1 = true) l).
  { apply Sorted_StronglySorted.
    - intros p q r. apply String_leb_trans.
    - eapply Sorted_weaken;
        [|apply (stable_sort_Sorted after); intros x y; apply String_ltb_asym].
      intros p q Hpq. unfold not_after, after in Hpq. unfold String.leb.
      unfold String.ltb in Hpq. rewrite (String.compare_antisym p.1 q.1).
      by destruct (String.compare q.1 p.1). }
  assert (Hnodup : NoDup l.*1).
  { rewrite Hperm. apply NoDup_fst_map_to_list. }
  assert (Hkeys : Forall (λ p, keyPath p.2 = Some p.1) l).
  { apply Forall_forall. intros [k r] Hin. rewrite Hperm in Hin.
    apply elem_of_map_to_list in Hin. by apply (Hkeyed k r). }
  clearbody l. clear Hperm.
  induction Hsorted as [|p l Hl IH Hp]; [constructor|].
  rewrite fmap_cons in Hnodup. apply NoDup_cons in Hnodup as [Hnotin Hnodup].
  apply Forall_cons in Hkeys as [Hkp Hkeys].
  rewrite fmap_cons. constructor; [by apply IH|].
  apply Forall_forall. intros r [q [-> Hq]]%list_elem_of_fmap.
  pose proof (proj1 (Forall_forall _ _) Hp q Hq) as Hpq.
  pose proof (proj1 (Forall_forall _ _) Hkeys q Hq) as Hkq.
  cbn beta in Hpq, Hkq. rewrite Hkp, Hkq. cbn [default from_option id].
  apply String_leb_ne_ltb; [done|].
  intros Heq. apply Hnotin. rewrite Heq. by apply list_elem_of_fmap_2.
Qed.

Lemma getAllCategories_run s :
  ready s = true →
  keyed (categories_of s) →
  ∃ result,
    getAllCategories s = (Resolved result, s) ∧
    result ≡ₚ (map_to_list (categories_of s)).*2 ∧
    length result = size (categories_of s) ∧
    (∀ c, c ∈ result →
          ∃ i, Category.id c = Some i ∧ getCategory i s = (Resolved (Some c), s)).
Proof.
  intros (Hdb & ts & cs & Hts & Hcs & Hrec & Hcrec & _)%ready_inv.
  rewrite Hcrec. intros Hkeyed.
  exists (getAll cs). split_and!.
  - unfold getAllCategories. run_method. by rewrite Hdb, Hcs.
  - apply getAll_perm.
  - apply length_getAll.
  - intros c [k Hk]%elem_of_getAll. exists k. split; [by apply (Hkeyed k c)|].
    unfold getCategory. run_method. by rewrite Hdb, Hcs, Hk.
Qed.

(** X15. On an initialized store whose categories are kept under their
    ids, these being made of ASCII characters (as the ids the application
    generates and those of the default categories are), [getAllCategories]
    resolves with every stored category, each once, by ascending id (the
    order of the keys, not of the names): every category has an id before
    the ids of all that follow. [getCategory] of the id of each of them
    resolves with that category. The state is unchanged. *)
Theorem getAllCategories_by_id s :
  ready s = true →
  keyed (categories_of s) →
  (∀ k c, categories_of s !! k = Some c → ascii_only k = true) →
  ∃ result,
    getAllCategories s = (Resolved result, s) ∧
    result ≡ₚ (map_to_list (categories_of s)).*2 ∧
    length result = size (categories_of s) ∧
    StronglySorted
      (λ a b, String.ltb (default "" (Category.id a)) (default "" (Category.id b)) = true)
      result ∧
    (∀ c, c ∈ result →
          ∃ i, Category.id c = Some i ∧ ascii_only i = true ∧
               getCategory i s = (Resolved (Some c), s)).
Proof.
  intros Hready Hkeyed Hascii.
  destruct (getAllCategories_run s Hready Hkeyed) as (result & Hrun & Hperm & Hlen & Hget).
  exists result. split_and!; try done.
  - apply ready_inv in Hready as (Hdb & ts & cs & Hts & Hcs & Hrec & Hcrec & _).
    assert (Hresult : result = getAll cs).
    { unfold getAllCategories in Hrun. revert Hrun. run_method. rewrite Hdb, Hcs.
      by intros [= <-]. }
    rewrite Hresult. rewrite Hcrec in Hkeyed. by apply (getAll_StronglySorted cs).
  - intros c Hc. destruct (Hget c Hc) as (i & Hi & Hrun').
    exists i. split_and!; try done.
    rewrite Hperm in Hc.
    apply list_elem_of_fmap in Hc as [[k c'] [-> Hin%elem_of_map_to_list]]. simpl in *.
    pose proof (Hkeyed k c' Hin) as Hk. unfold keyPath, Category_Keyed in Hk.
    assert (i = k) as -> by congruence. by apply (Hascii k c').
Qed.

(** The categories of the shop, by their ids. *)
Lemma getAllCategories_by_id_witness :
  ready shop = true ∧
  keyed (categories_of shop) ∧
  (∀ k c, categories_of shop !! k = Some c → ascii_only k = true) ∧
  getAllCategories shop = (Resolved [alquiler; otros; ventas], shop).
Proof.
  assert (Hascii : ∀ k c, categories_of shop !! k = Some c → ascii_only k = true).
  { apply (bool_decide_unpack
             (map_Forall (λ k _, ascii_only k = true) (categories_of shop))).
    by vm_compute. }
  split; [exact shop_ready|]. split; [exact shop_categories_keyed|].
  split; [exact Hascii|].
  destruct (getAllCategories_by_id shop shop_ready shop_categories_keyed Hascii)
    as (result & Hrun & _).
  assert (Hshop : getAllCategories shop = (Resolved [alquiler; otros; ventas], shop))
    by (by vm_compute).
  rewrite Hrun in Hshop. apply (f_equal fst) in Hshop. cbn [fst] in Hshop.
  injection Hshop as ->. exact Hrun.
Defined.

Section more_categories.
Variable generateId_value : nat → string.
Variable toISOString_value : nat → string.

(** X16. [updateCategory(id, updates)] on an initialized store whose
    categories are kept under their ids. For an id the store does not hold
    it is rejected with "Categoría no encontrada" and changes nothing. For
    a stored category the merged record goes under the id it has; it is
    refused with the [ConstraintError] of [store.put], the categories
    staying as they were, exactly when a category under another key has
    the name of the merged record; otherwise the promise resolves with the
    merged record, which [getCategory] then returns. The transactions are
    untouched in every case. *)
Theorem updateCategory_result s id updates :
  ready s = true →
  keyed (categories_of s) →
  (categories_of s !! id = None →
   updateCategory toISOString_value id updates s = (Rejected CategoryNotFound, s)) ∧
  (∀ old, categories_of s !! id = Some old →
     let new := Category.merge old updates (toISOString_value (ticks s)) in
     let k := default id (Category.p_id updates) in
     let update := updateCategory toISOString_value id updates s in
     ((∃ k' other, categories_of s !! k' = Some other ∧ k' ≠ k ∧
                   Category.name other = Category.name new) →
      update.1 = Rejected ConstraintError ∧
      categories_of update.2 = categories_of s) ∧
     ((¬ ∃ k' other, categories_of s !! k' = Some other ∧ k' ≠ k ∧
                     Category.name other = Category.name new) →
      update.1 = Resolved new ∧
      categories_of update.2 = <[k := new]> (categories_of s) ∧
      getCategory k update.2 = (Resolved (Some new), update.2)) ∧
     transactions_of update.2 = transactions_of s).
Proof.
  intros (Hdb & ts & cs & Hts & Hcs & Hrec & Hcrec & _ & _ & _ & _ & Hname)%ready_inv.
  rewrite Hcrec. intros Hkeyed. split.
  - intros Hnone. unfold updateCategory. run_method. by rewrite Hdb, Hcs, Hnone.
  - intros old Hold. cbv zeta.
    rewrite (updateCategory_run toISOString_value s cs id old updates Hdb Hcs Hold).
    set (new := Category.merge old updates (toISOString_value (ticks s))).
    set (k := default id (Category.p_id updates)).
    assert (Hid : Category.id old = Some id) by (by apply (Hkeyed id old)).
    assert (Hk : keyPath new = Some k).
    { unfold keyPath, Category_Keyed, new, k. simpl. rewrite Hid.
      destruct (Category.p_id updates); reflexivity. }
    unfold IDB_put. rewrite Hk.
    assert (Hiff : violates (same_name cs) new k cs ↔
              ∃ k' other, records cs !! k' = Some other ∧ k' ≠ k ∧
                          Category.name other = Category.name new).
    { rewrite violates_same_name_iff by done.
      split; intros (k' & r & ? & ? & ?); exists k', r; by split_and!. }
    destruct (decide (violates (same_name cs) new k cs)) as [Hv|Hv]; simpl.
    + unfold transactions_of, categories_of. simpl. rewrite Hcs, Hts. split_and!; try done.
      intros Hno. destruct Hno. by apply Hiff.
    + unfold transactions_of, categories_of, getCategory. run_method. rewrite Hts.
      split_and!; try done.
      * intros Hsome. destruct Hv. by apply Hiff.
      * intros _. split_and!; try done. by rewrite lookup_insert_eq.
Qed.

(** X17. A category that is new to an initialized store, by the id it is
    added under (its own, or the generated one when it has none) and by
    its name, is added: [addCategory] resolves with that id and the store
    then holds, under it, the record with the name, colour, icon, type and
    [updatedAt] of the category, that id, and as [createdAt] the one the
    category has or, when it has none, the time the clock gives in the
    call (after the id was generated, when one was). [getCategory] of the
    id returns this record, and nothing else changes. *)
Theorem addCategory_new s c :
  ready s = true →
  let i := assigned (Category.id c) (generateId_value (ticks s)) in
  categories_of s !! i = None →
  (∀ k other, categories_of s !! k = Some other → Category.name other ≠ Category.name c) →
  ∃ stamp,
    let record := Category.mk (Some i) (Category.name c) (Category.color c)
                    (Category.icon c) (Category.type c) (Some stamp)
                    (Category.updatedAt c) in
    let add := addCategory generateId_value toISOString_value c s in
    (∀ v, Category.id c = Some v → v ≠ "" → i = v) ∧
    (falsy (Category.id c) = true → i = generateId_value (ticks s)) ∧
    (∀ v, Category.createdAt c = Some v → v ≠ "" → stamp = v) ∧
    (falsy (Category.createdAt c) = true →
     stamp = toISOString_value (if falsy (Category.id c) then S (ticks s) else ticks s)) ∧
    add.1 = Resolved (Added i) ∧
    categories_of add.2 = <[i := record]> (categories_of s) ∧
    transactions_of add.2 = transactions_of s ∧
    getCategory i add.2 = (Resolved (Some record), add.2).
Proof.
  intros (Hdb & ts & cs & Hts & Hcs & Hrec & Hcrec & _ & _ & _ & _ & Hname)%ready_inv.
  rewrite Hcrec. intros i Hfree Hnames.
  pose proof (addCategory_run generateId_value toISOString_value s cs c Hdb Hcs) as Hrun.
  cbv zeta in Hrun. fold i in Hrun.
  set (n1 := if falsy (Category.id c) then S (ticks s) else ticks s) in *.
  set (stamp := assigned (Category.createdAt c) (toISOString_value n1)) in *.
  exists stamp. cbv zeta.
  set (record := Category.mk (Some i) (Category.name c) (Category.color c)
                   (Category.icon c) (Category.type c) (Some stamp) (Category.updatedAt c)).
  change (Category.set_createdAt stamp (Category.set_id i c)) with record in Hrun.
  assert (Hadd : IDB_add (same_name cs) record cs =
                 inr (i, mkStore (indexNames cs) (<[i := record]> (records cs)))).
  { unfold IDB_add. assert (Hk : keyPath record = Some i) by done.
    rewrite Hk, Hfree. rewrite decide_False; [done|].
    rewrite violates_same_name_iff by done.
    intros (k & r & Hkr & _ & Heq). by apply (Hnames k r Hkr). }
  rewrite Hadd in Hrun. rewrite Hrun.
  unfold transactions_of, categories_of, getCategory. run_method. rewrite Hts.
  split_and!; try done.
  - intros v Hv Hne. by apply assigned_present.
  - apply assigned_falsy.
  - intros v Hv Hne. by apply assigned_present.
  - apply assigned_falsy.
  - by rewrite lookup_insert_eq.
Qed.

Variable Date_parse : string → float.

(** X18. In every state the methods reach from a browser that opened the
    database, the reading methods succeed and agree with each other:
    [getAllTransactions] resolves and every transaction it returns is
    found by [getTransaction] under its own id; [getStats] resolves;
    [getAllCategories] resolves with categories of distinct names, each
    found by [getCategory] under its own id. *)
Theorem reachable_reads s :
  reachable generateId_value toISOString_value Date_parse s →
  ready s = true ∧
  (∃ all,
     getAllTransactions Date_parse s = (Resolved all, s) ∧
     ∀ t, t ∈ all →
          ∃ i, Transaction.id t = Some i ∧ getTransaction i s = (Resolved (Some t), s)) ∧
  (∃ stats, getStats Date_parse s = (Resolved stats, s)) ∧
  (∃ cats,
     getAllCategories s = (Resolved cats, s) ∧
     NoDup (Category.name <$> cats) ∧
     ∀ c, c ∈ cats →
          ∃ i, Category.id c = Some i ∧ getCategory i s = (Resolved (Some c), s)).
Proof.
  intros (Hready & Hkt & Hkc & Huniq)%reachable_consistent.
  pose proof Hready as (Hdb & ts & cs & Hts & Hcs & Hrec & Hcrec & _)%ready_inv.
  split; [done|].
  destruct (getAllTransactions_run Date_parse s Hready) as (all & Hall & Hperm).
  split_and!.
  - exists all. split; [done|]. intros t Ht. rewrite Hperm in Ht.
    apply list_elem_of_fmap in Ht as [[k t'] [-> Hin%elem_of_map_to_list]]. simpl.
    exists k. split; [by apply (Hkt k t')|].
    unfold getTransaction. run_method. rewrite Hdb, Hts. rewrite Hrec in Hin. by rewrite Hin.
  - eexists. unfold getStats. by rewrite (await_resolved _ _ _ _ _ Hall).
  - destruct (getAllCategories_run s Hready Hkc) as (cats & Hrun & Hcperm & _ & Hget).
    exists cats. split_and!; try done.
    rewrite Hcperm, <-list_fmap_compose.
    apply NoDup_fmap_2_strong; [|apply NoDup_map_to_list].
    intros [k1 c1] [k2 c2] H1%elem_of_map_to_list H2%elem_of_map_to_list Heq. simpl in Heq.
    assert (k1 = k2) as -> by (by apply (Huniq k1 k2 c1 c2)).
    congruence.
Qed.

End more_categories.

(** Renaming the rent category to the name of the sales is refused. *)
Lemma updateCategory_result_witness :
  ready shop = true ∧
  keyed (categories_of shop) ∧
  (updateCategory demo_toISOString "alquiler" renamed_to_ventas shop).1
    = Rejected ConstraintError.
Proof.
  split; [exact shop_ready|]. split; [exact shop_categories_keyed|].
  destruct (updateCategory_result demo_toISOString shop "alquiler" renamed_to_ventas
              shop_ready shop_categories_keyed) as [_ Hfound].
  destruct (Hfound alquiler) as (Htaken & _); [by rewrite shop_categories|].
  apply Htaken. exists "ventas", ventas. split_and!; [by rewrite shop_categories|done..].
Defined.

(** A category for the workshop is added to the shop, at the third reading
    of the clock. *)
Lemma addCategory_new_witness :
  ready shop = true ∧
  categories_of shop !! "taller" = None ∧
  (∀ k other, categories_of shop !! k = Some other →
              Category.name other ≠ Category.name taller) ∧
  (demo_addCategory taller shop).1 = Resolved (Added "taller") ∧
  getCategory "taller" (after (demo_addCategory taller) shop) =
    (Resolved (Some (Category.mk (Some "taller") "Taller" "#FF5722" "garage" "expense"
                       (Some "2024-06-01T12:00:02.000Z") None)),
     after (demo_addCategory taller) shop).
Proof.
  assert (Hfree : categories_of shop !! "taller" = None) by (by rewrite shop_categories).
  assert (Hnames : ∀ k other, categories_of shop !! k = Some other →
                              Category.name other ≠ Category.name taller).
  { apply (bool_decide_unpack
             (map_Forall (λ _ other, Category.name other ≠ Category.name taller)
                         (categories_of shop))).
    by vm_compute. }
  split; [exact shop_ready|]. split; [exact Hfree|]. split; [exact Hnames|].
  destruct (addCategory_new demo_generateId demo_toISOString shop taller
              shop_ready Hfree Hnames) as (stamp & _ & _ & _ & Hstamp & Hrun & _ & _ & Hget).
  assert (Hs : stamp = "2024-06-01T12:00:02.000Z").
  { rewrite (Hstamp eq_refl). by vm_compute. }
  subst stamp. split; [exact Hrun|]. exact Hget.
Defined.

Lemma reachable_reads_witness :
  reachable demo_generateId demo_toISOString demo_Date_parse shop ∧
  ∃ stats, getStats demo_Date_parse shop = (Resolved stats, shop).
Proof.
  split; [exact shop_reachable|].
  apply (reachable_reads demo_generateId demo_toISOString demo_Date_parse shop shop_reachable).
Defined.

(** ** Text search *)

Lemma String_prefix_spec needle : ∀ haystack,
  String.prefix needle haystack = true ↔ ∃ rest, haystack = needle +:+ rest.
Proof.
  induction needle as [|a needle IH]; intros haystack.
  - destruct haystack; simpl; (split; [by eexists|done]).
  - destruct haystack as [|b haystack]; simpl.
    + split; [done|]. by intros [rest Hrest].
    + destruct (Ascii.ascii_dec a b) as [->|Hne].
      * rewrite IH. split; intros [rest Hrest]; exists rest.
        -- change (String b haystack = String b (needle +:+ rest)). by rewrite Hrest.
        -- change (String b haystack = String b (needle +:+ rest)) in Hrest.
           by injection Hrest.
      * split; [done|]. intros [rest Hrest].
        change (String b haystack = String a (needle +:+ rest)) in Hrest.
        by injection Hrest.
Qed.

(** [includes] finds the text wherever it starts. *)
Lemma String_includes_spec needle : ∀ haystack,
  String_includes needle haystack = true ↔
  ∃ before rest, haystack = before +:+ needle +:+ rest.
Proof.
  induction haystack as [|b haystack IH]; cbn [String_includes].
  - rewrite orb_false_r. rewrite String_prefix_spec. split.
    + intros [rest Hrest]. by exists "", rest.
    + intros ([|c before] & rest & Hrest); [by exists rest|done].
  - rewrite orb_true_iff, IH, String_prefix_spec. split.
    + intros [[rest Hrest]|(before & rest & Hrest)].
      * by exists "", rest.
      * exists (String b before), rest.
        change (String b haystack = String b (before +:+ needle +:+ rest)).
        by rewrite Hrest.
    + intros ([|c before] & rest & Hrest).
      * left. by exists rest.
      * right. change (String b haystack = String c (before +:+ needle +:+ rest)) in Hrest.
        injection Hrest as _ Hrest. by exists before, rest.
Qed.

Lemma String_includes_empty haystack : String_includes "" haystack = true.
Proof. by destruct haystack. Qed.

Lemma String_append_empty text : text +:+ "" = text.
Proof.
  induction text as [|a text IH]; [done|].
  change (String a (text +:+ "") = String a text). by rewrite IH.
Qed.

Lemma String_includes_refl text : String_includes text text = true.
Proof.
  apply String_includes_spec. exists "", "".
  change (text = text +:+ ""). by rewrite String_append_empty.
Qed.

Lemma List_filter_sublist {A} (f : A → bool) l : sublist (List.filter f l) l.
Proof.
  induction l as [|x l IH]; simpl; [constructor|].
  destruct (f x); by constructor.
Qed.

Section text_search.
Variable toLowerCase : string → string.
Variable Date_parse : string → float.

(** X19. On an initialized store [searchTransactions(text)] resolves with
    the transactions of [getAllTransactions], in that order, whose name in
    lower case holds the text in lower case, or that have a description
    that is not empty and holds it; the state is unchanged. A transaction
    is always found by its own name, in any case of the letters; a text
    that is empty in lower case finds every transaction; and two texts that
    are equal in lower case find the same. *)
Theorem searchTransactions_result s searchText :
  ready s = true →
  ∃ all result,
    getAllTransactions Date_parse s = (Resolved all, s) ∧
    searchTransactions toLowerCase Date_parse searchText s = (Resolved result, s) ∧
    sublist result all ∧
    (∀ t, t ∈ result ↔
          t ∈ all ∧
          ((∃ before rest,
              toLowerCase (Transaction.name t) = before +:+ toLowerCase searchText +:+ rest) ∨
           (∃ description before rest,
              Transaction.description t = Some description ∧ description ≠ "" ∧
              toLowerCase description = before +:+ toLowerCase searchText +:+ rest))) ∧
    (∀ t, t ∈ all → toLowerCase searchText = toLowerCase (Transaction.name t) → t ∈ result) ∧
    (toLowerCase searchText = "" → result = all) ∧
    (∀ other, toLowerCase other = toLowerCase searchText →
              searchTransactions toLowerCase Date_parse other s = (Resolved result, s)).
Proof.
  intros Hready.
  destruct (getAllTransactions_run Date_parse s Hready) as (all & Hall & _).
  exists all, (List.filter (matches toLowerCase searchText) all).
  assert (Hmem : ∀ t, t ∈ List.filter (matches toLowerCase searchText) all ↔
                      t ∈ all ∧ matches toLowerCase searchText t = true).
  { intros t. by rewrite !list_elem_of_In, filter_In. }
  split_and!.
  - done.
  - unfold searchTransactions. by rewrite (await_resolved _ _ _ _ _ Hall).
  - apply List_filter_sublist.
  - intros t. rewrite Hmem. unfold matches. cbv zeta.
    rewrite orb_true_iff, String_includes_spec.
    split; intros [Hin Hm]; (split; [done|]); destruct Hm as [Hm|Hm]; auto; right.
    + destruct (Transaction.description t) as [d|]; [|done].
      apply andb_true_iff in Hm as [Hne%negb_true_iff%String.eqb_neq Hd].
      apply String_includes_spec in Hd as (before & rest & Hd). by exists d, before, rest.
    + destruct Hm as (d & before & rest & -> & Hne & Hd).
      apply andb_true_iff. split.
      * by apply negb_true_iff, String.eqb_neq.
      * apply String_includes_spec. by exists before, rest.
  - intros t Ht Heq. apply Hmem. split; [done|]. unfold matches. cbv zeta.
    by rewrite Heq, String_includes_refl.
  - intros Hempty.
    assert (Hmatches : ∀ t, matches toLowerCase searchText t = true).
    { intros t. unfold matches. cbv zeta. by rewrite Hempty, String_includes_empty. }
    clear Hall Hmem. induction all as [|t all IH]; simpl; [done|].
    by rewrite Hmatches, IH.
  - intros other Heq. unfold searchTransactions.
    rewrite (await_resolved _ _ _ _ _ Hall). unfold resolve, matches. cbv zeta.
    by rewrite Heq.
Qed.

(** X20. The filters of the list of transactions in [ui.js] against the
    queries of the store, on an initialized store and the list
    [getAllTransactions] returns. With no filter the list is shown as it
    is. The filter by text is [searchTransactions]; the filter by type
    keeps the transactions [getTransactionsByType] returns; the filter by
    dates keeps those [getTransactionsByDateRange] returns when the first
    date is not after the second, and where that query is rejected, the
    first date being after the second, the filter shows an empty list. *)
Theorem filterTransactions_queries s :
  ready s = true →
  ∃ all,
    getAllTransactions Date_parse s = (Resolved all, s) ∧
    filterTransactions toLowerCase "all" "" "" "" all = all ∧
    (∀ searchText, searchText ≠ "" →
       searchTransactions toLowerCase Date_parse searchText s
         = (Resolved (filterTransactions toLowerCase "all" searchText "" "" all), s)) ∧
    (∀ type, type ≠ "all" →
       ∃ result, getTransactionsByType type s = (Resolved result, s) ∧
                 result ≡ₚ filterTransactions toLowerCase type "" "" "" all) ∧
    (∀ startDate endDate, startDate ≠ "" → endDate ≠ "" →
       String.leb startDate endDate = true →
       ∃ result, getTransactionsByDateRange startDate endDate s = (Resolved result, s) ∧
                 result ≡ₚ filterTransactions toLowerCase "all" "" startDate endDate all) ∧
    (∀ startDate endDate, startDate ≠ "" → endDate ≠ "" →
       String.ltb endDate startDate = true →
       getTransactionsByDateRange startDate endDate s = (Rejected DataError, s) ∧
       filterTransactions toLowerCase "all" "" startDate endDate all = []).
Proof.
  intros Hready.
  destruct (getAllTransactions_run Date_parse s Hready) as (all & Hall & Hperm).
  exists all. split_and!; try done.
  - intros searchText Hne%String.eqb_neq. unfold searchTransactions.
    rewrite (await_resolved _ _ _ _ _ Hall). unfold filterTransactions. simpl.
    by rewrite Hne.
  - intros type Hne%String.eqb_neq.
    destruct (getTransactionsByType_run s type Hready) as (result & Hrun & Hres & _).
    exists result. split; [done|]. unfold filterTransactions. rewrite Hne. simpl.
    rewrite Hres. by apply filter_ext_perm.
  - intros startDate endDate Hs%String.eqb_neq He%String.eqb_neq Hle.
    destruct (getTransactionsByDateRange_run s startDate endDate Hready Hle)
      as (result & Hrun & Hres & _).
    exists result. split; [done|]. unfold filterTransactions. rewrite Hs, He. simpl.
    rewrite Hres. by apply filter_ext_perm.
  - intros startDate endDate Hs%String.eqb_neq He%String.eqb_neq Hlt.
    split; [by apply getTransactionsByDateRange_DataError|].
    unfold filterTransactions. rewrite Hs, He. simpl.
    clear Hall Hperm. induction all as [|t all IH]; simpl; [done|].
    destruct (String.leb startDate (Transaction.date t)) eqn:H1; simpl; [|done].
    destruct (String.leb (Transaction.date t) endDate) eqn:H2; simpl; [|done].
    pose proof (String_leb_trans _ _ _ H1 H2) as Hle.
    apply String_leb_not_ltb in Hle. congruence.
Qed.

End text_search.

(** The sale is found by its name in capitals. *)
Lemma searchTransactions_result_witness :
  ready shop = true ∧
  ∃ result,
    searchTransactions demo_toLowerCase demo_Date_parse "VENTA" shop
      = (Resolved result, shop) ∧
    sale_stored ∈ result.
Proof.
  split; [exact shop_ready|].
  destruct (searchTransactions_result demo_toLowerCase demo_Date_parse shop "VENTA"
              shop_ready) as (all & result & Hall & Hrun & _ & _ & Hname & _).
  exists result. split; [exact Hrun|].
  assert (Hshop : getAllTransactions demo_Date_parse shop
                  = (Resolved [sale_stored; rent_stored], shop)) by (by vm_compute).
  rewrite Hall in Hshop. apply (f_equal fst) in Hshop. cbn [fst] in Hshop.
  injection Hshop as ->.
  apply Hname; [by left|reflexivity].
Defined.

Lemma filterTransactions_queries_witness :
  ready shop = true ∧
  ∃ all,
    getAllTransactions demo_Date_parse shop = (Resolved all, shop) ∧
    searchTransactions demo_toLowerCase demo_Date_parse "venta" shop
      = (Resolved (filterTransactions demo_toLowerCase "all" "venta" "" "" all), shop).
Proof.
  split; [exact shop_ready|].
  destruct (filterTransactions_queries demo_toLowerCase demo_Date_parse shop shop_ready)
    as (all & Hall & _ & Hsearch & _).
  exists all. split; [exact Hall|]. by apply Hsearch.
Defined.

(** ** The default categories *)

Section default_categories.
Variable generateId_value : nat → string.
Variable toISOString_value : nat → string.

(** A category with an id and a creation time, new to the store by its id
    and by its name, is added as it is. *)
Lemma addCategory_added s cs c :
  db s = true →
  categories (indexedDB s) = Some cs →
  "name" ∈ indexNames cs →
  stamped_category c →
  records cs !! (category_entry c).1 = None →
  (∀ k other, records cs !! k = Some other → Category.name other ≠ Category.name c) →
  addCategory generateId_value toISOString_value c s =
    (Resolved (Added (category_entry c).1),
     mkState (mkIDB (version (indexedDB s)) (transactions (indexedDB s))
                    (Some (mkStore (indexNames cs)
                                   (<[(category_entry c).1 := c]> (records cs)))))
             true (ticks s)).
Proof.
  intros Hdb Hcs Hname [Hid Hcr] Hfree Hnames.
  pose proof (addCategory_run generateId_value toISOString_value s cs c Hdb Hcs) as Hrun.
  cbv zeta in Hrun. rewrite Hid, Hcr in Hrun.
  apply falsy_false in Hid as (i & Hi & Hine), Hcr as (stamp & Hc & Hcne).
  rewrite (assigned_present _ _ i Hi Hine), (assigned_present _ _ stamp Hc Hcne) in Hrun.
  rewrite (category_set_id_present c i Hi), (category_set_createdAt_present c stamp Hc) in Hrun.
  unfold category_entry in *. rewrite Hi in Hfree |- *. simpl in Hfree |- *.
  assert (Hadd : IDB_add (same_name cs) c cs =
                 inr (i, mkStore (indexNames cs) (<[i := c]> (records cs)))).
  { unfold IDB_add, keyPath, Category_Keyed. rewrite Hi, Hfree.
    rewrite decide_False; [done|].
    rewrite violates_same_name_iff by done.
    intros (k & r & Hkr & _ & Heq). by apply (Hnames k r Hkr). }
  by rewrite Hadd in Hrun.
Qed.

Lemma addDefaults_run l : ∀ s cs,
  db s = true →
  categories (indexedDB s) = Some cs →
  "name" ∈ indexNames cs →
  Forall stamped_category l →
  NoDup (category_entry <$> l).*1 →
  NoDup (Category.name <$> l) →
  (∀ c, c ∈ l → records cs !! (category_entry c).1 = None) →
  (∀ c k other, c ∈ l → records cs !! k = Some other →
                Category.name other ≠ Category.name c) →
  addDefaults generateId_value toISOString_value l s =
    (Resolved (),
     mkState (mkIDB (version (indexedDB s)) (transactions (indexedDB s))
                    (Some (mkStore (indexNames cs)
                                   (list_to_map (category_entry <$> l) ∪ records cs))))
             true (ticks s)).
Proof.
  induction l as [|c l IH]; intros s cs Hdb Hcs Hname Hst Hids Hnames Hfree Hother; simpl.
  - unfold resolve. rewrite (left_id_L ∅ (∪)).
    destruct s as [[v txs cats] d n], cs. simpl in *. by subst.
  - apply Forall_cons in Hst as [Hc Hst].
    rewrite !fmap_cons in Hids. apply NoDup_cons in Hids as [Hnotin Hids].
    rewrite fmap_cons in Hnames. apply NoDup_cons in Hnames as [Hnamenotin Hnames].
    pose proof (addCategory_added s cs c Hdb Hcs Hname Hc
                  (Hfree c (list_elem_of_here _ _))
                  (λ k other, Hother c k other (list_elem_of_here _ _))) as Hadd.
    set (i := (category_entry c).1) in *.
    unfold await, try_catch. rewrite Hadd. cbn [snd].
    erewrite IH; [|reflexivity|reflexivity|exact Hname|exact Hst|exact Hids|exact Hnames|..].
    + cbn [indexedDB version transactions categories db ticks indexNames records].
      assert (Hmap : list_to_map (category_entry <$> l) ∪ <[i := c]> (records cs) =
                     list_to_map (category_entry <$> c :: l) ∪ records cs).
      { rewrite fmap_cons. cbn [list_to_map foldr uncurry]. fold i.
        change ((category_entry c).2) with c.
        rewrite <-insert_union_l. symmetry. apply insert_union_r.
        by apply not_elem_of_list_to_map_1. }
      by rewrite Hmap.
    + intros c' Hc'. cbn [records]. rewrite lookup_insert_ne.
      * apply Hfree. by right.
      * intros Heq. apply Hnotin. rewrite Heq.
        apply list_elem_of_fmap. exists (category_entry c'). split; [done|].
        by apply list_elem_of_fmap_2.
    + intros c' k other Hc'. cbn [records]. rewrite lookup_insert.
      case_decide as Hk.
      * intros [= <-] Heq. apply Hnamenotin. rewrite Heq. by apply list_elem_of_fmap_2.
      * intros Hk'. apply (Hother c' k other); [by right|done].
Qed.

Lemma arrayLiteral_run literals : ∀ s,
  arrayLiteral toISOString_value literals s =
    (Resolved (categories_from toISOString_value (ticks s) literals),
     mkState (indexedDB s) (db s) (length literals + ticks s)).
Proof.
  induction literals as [|[[[[id name] color] icon] type] rest IH]; intros s; simpl.
  - unfold resolve. by destruct s.
  - unfold await, toISOString, resolve. simpl. rewrite IH. simpl.
    by rewrite Nat.add_succ_r.
Qed.

End default_categories.

Lemma categories_from_ids toISOString_value literals : ∀ n,
  (category_entry <$> categories_from toISOString_value n literals).*1 =
  (λ literal, literal.1.1.1.1) <$> literals.
Proof.
  induction literals as [|[[[[id name] color] icon] type] rest IH]; intros n; simpl; [done|].
  by rewrite IH.
Qed.

Lemma categories_from_names toISOString_value literals : ∀ n,
  Category.name <$> categories_from toISOString_value n literals =
  (λ literal, literal.1.1.1.2) <$> literals.
Proof.
  induction literals as [|[[[[id name] color] icon] type] rest IH]; intros n; simpl; [done|].
  by rewrite IH.
Qed.

Lemma categories_from_lookup toISOString_value literals : ∀ n k id name color icon type,
  literals !! k = Some (id, name, color, icon, type) →
  categories_from toISOString_value n literals !! k =
    Some (Category.mk (Some id) name color icon type (Some (toISOString_value (k + n))) None).
Proof.
  induction literals as [|[[[[id' name'] color'] icon'] type'] rest IH];
    intros n [|k] id name color icon type; simpl; try done.
  - by intros [= -> -> -> -> ->].
  - intros Hk. rewrite (IH (S n) k id name color icon type Hk).
    by rewrite Nat.add_succ_r.
Qed.

Lemma categories_from_stamped toISOString_value literals : ∀ n,
  (∀ n, toISOString_value n ≠ "") →
  Forall (λ literal, literal.1.1.1.1 ≠ "") literals →
  Forall stamped_category (categories_from toISOString_value n literals).
Proof.
  induction literals as [|[[[[id name] color] icon] type] rest IH]; intros n Hclock Hids;
    simpl; [constructor|].
  apply Forall_cons in Hids as [Hid Hids]. constructor; [|by apply IH].
  split; simpl; by apply String.eqb_neq.
Qed.

Lemma defaultLiterals_ids :
  NoDup ((λ literal, literal.1.1.1.1) <$> defaultLiterals) ∧
  Forall (λ literal, literal.1.1.1.1 ≠ "") defaultLiterals.
Proof.
  split.
  - apply (bool_decide_unpack _). by vm_compute.
  - apply (bool_decide_unpack _). by vm_compute.
Qed.

Lemma defaultLiterals_names :
  NoDup ((λ literal, literal.1.1.1.2) <$> defaultLiterals).
Proof. apply (bool_decide_unpack _). by vm_compute. Qed.

Section default_categories_run.
Variable generateId_value : nat → string.
Variable toISOString_value : nat → string.

(** With no category in the store, the ten default ones are added. *)
Lemma initDefaultCategories_empty s ts cs :
  db s = true →
  transactions (indexedDB s) = Some ts →
  categories (indexedDB s) = Some cs →
  "name" ∈ indexNames cs →
  records cs = ∅ →
  (∀ n, toISOString_value n ≠ "") →
  initDefaultCategories generateId_value toISOString_value s =
    (Resolved (),
     mkState (mkIDB (version (indexedDB s)) (Some ts)
                (Some (mkStore (indexNames cs)
                         (list_to_map (category_entry <$>
                            categories_from toISOString_value (ticks s) defaultLiterals)))))
             true (10 + ticks s)).
Proof.
  intros Hdb Hts Hcs Hname Hempty Hclock.
  assert (Hget : getAllCategories s = (Resolved (getAll cs), s)).
  { unfold getAllCategories. run_method. by rewrite Hdb, Hcs. }
  assert (Hlen : length (getAll cs) = 0) by (rewrite length_getAll, Hempty; apply map_size_empty).
  destruct defaultLiterals_ids as [Hids Hnonempty].
  unfold initDefaultCategories, try_catch.
  rewrite (await_resolved _ _ _ _ _ Hget), Hlen. cbn [Nat.eqb]. unfold defaultCategories.
  rewrite (await_resolved _ _ _ _ _ (arrayLiteral_run toISOString_value _ s)).
  erewrite (addDefaults_run generateId_value toISOString_value _ _ cs);
    [| exact Hdb | exact Hcs | exact Hname | by apply categories_from_stamped
     | by rewrite categories_from_ids | by rewrite categories_from_names; apply defaultLiterals_names
     | intros c _; by rewrite Hempty | intros c k other _; by rewrite Hempty ].
  cbn [snd indexedDB version transactions categories db ticks length].
  by rewrite Hempty, (right_id_L ∅ (∪)), Hts.
Qed.

(** With a category in the store, nothing is done. *)
Lemma initDefaultCategories_nonempty s cs :
  db s = true →
  categories (indexedDB s) = Some cs →
  records cs ≠ ∅ →
  initDefaultCategories generateId_value toISOString_value s = (Resolved (), s).
Proof.
  intros Hdb Hcs Hne.
  assert (Hget : getAllCategories s = (Resolved (getAll cs), s)).
  { unfold getAllCategories. run_method. by rewrite Hdb, Hcs. }
  assert (Hlen : length (getAll cs) ≠ 0).
  { rewrite length_getAll. by intros ?%map_size_empty_inv. }
  unfold initDefaultCategories, try_catch.
  rewrite (await_resolved _ _ _ _ _ Hget).
  destruct (length (getAll cs)); done.
Qed.

(** X21. On an initialized store without categories, and with a clock
    that never gives the empty string, [initDefaultCategories] adds the
    ten default categories: each is stored under its id with the name,
    colour, icon and type of the source and the time of its turn in the
    array as creation time, and [getCategory] returns it. The clock is read
    ten times, the transactions are untouched and the store stays
    initialized. *)
Theorem initDefaultCategories_adds s :
  ready s = true →
  categories_of s = ∅ →
  (∀ n, toISOString_value n ≠ "") →
  let s' := after (initDefaultCategories generateId_value toISOString_value) s in
  (initDefaultCategories generateId_value toISOString_value s).1 = Resolved () ∧
  categories_of s' =
    list_to_map (category_entry <$>
                   categories_from toISOString_value (ticks s) defaultLiterals) ∧
  size (categories_of s') = 10 ∧
  (∀ k id name color icon type,
     defaultLiterals !! k = Some (id, name, color, icon, type) →
     getCategory id s' =
       (Resolved (Some (Category.mk (Some id) name color icon type
                          (Some (toISOString_value (k + ticks s))) None)), s')) ∧
  transactions_of s' = transactions_of s ∧
  ticks s' = 10 + ticks s ∧
  ready s' = true.
Proof.
  intros Hready Hempty Hclock.
  pose proof Hready as (Hdb & ts & cs & Hts & Hcs & Hrec & Hcrec & _ & _ & _ & _ & Hname)%ready_inv.
  rewrite Hcrec in Hempty.
  cbv zeta. unfold after.
  rewrite (initDefaultCategories_empty s ts cs Hdb Hts Hcs Hname Hempty Hclock).
  destruct defaultLiterals_ids as [Hids _].
  assert (Hkeys : NoDup (category_entry <$>
                    categories_from toISOString_value (ticks s) defaultLiterals).*1)
    by (by rewrite categories_from_ids).
  assert (Hsize : size (list_to_map (category_entry <$>
                     categories_from toISOString_value (ticks s) defaultLiterals)
                   : gmap string Category.t) = 10).
  { rewrite map_size_list_to_map by done.
    rewrite length_fmap.
    rewrite <-(length_fmap Category.name), categories_from_names. done. }
  assert (Hget : ∀ k id name color icon type,
     defaultLiterals !! k = Some (id, name, color, icon, type) →
     (list_to_map (category_entry <$>
                     categories_from toISOString_value (ticks s) defaultLiterals)
      : gmap string Category.t) !! id =
     Some (Category.mk (Some id) name color icon type
             (Some (toISOString_value (k + ticks s))) None)).
  { intros k id name color icon type Hk.
    apply elem_of_list_to_map_1; [done|].
    apply (categories_from_lookup toISOString_value _ (ticks s)) in Hk.
    apply list_elem_of_lookup_2 in Hk.
    by apply (list_elem_of_fmap_2 category_entry) in Hk. }
  remember (list_to_map (category_entry <$>
              categories_from toISOString_value (ticks s) defaultLiterals)
            : gmap string Category.t) as m eqn:Hm.
  unfold transactions_of, categories_of, getCategory. run_method. rewrite Hts.
  split_and!; try done.
  - intros k id name color icon type Hk. by rewrite (Hget _ _ _ _ _ _ Hk).
  - unfold ready in *. rewrite Hts, Hcs, Hdb in Hready. simpl in *. exact Hready.
Qed.

(** X22. [initDefaultCategories] adds the default categories once. On an
    initialized store that has a category it resolves and changes nothing,
    so the categories of the user are never overwritten; and after it has
    run, whatever the store held, the store has a category and a second
    run changes nothing. *)
Theorem initDefaultCategories_once s :
  ready s = true →
  (∀ n, toISOString_value n ≠ "") →
  let s' := after (initDefaultCategories generateId_value toISOString_value) s in
  (categories_of s ≠ ∅ →
   initDefaultCategories generateId_value toISOString_value s = (Resolved (), s)) ∧
  initDefaultCategories generateId_value toISOString_value s' = (Resolved (), s') ∧
  categories_of s' ≠ ∅.
Proof.
  intros Hready Hclock.
  pose proof Hready as (Hdb & ts & cs & Hts & Hcs & Hrec & Hcrec & _ & _ & _ & _ & Hname)%ready_inv.
  rewrite Hcrec. cbv zeta. unfold after.
  split; [by apply initDefaultCategories_nonempty|].
  destruct (decide (records cs = ∅)) as [Hempty|Hne].
  - rewrite (initDefaultCategories_empty s ts cs Hdb Hts Hcs Hname Hempty Hclock).
    assert (Hnew : (list_to_map (category_entry <$>
                      categories_from toISOString_value (ticks s) defaultLiterals)
                    : gmap string Category.t) ≠ ∅).
    { intros Hnone. apply (f_equal (λ m, m !! "ventas")) in Hnone.
      by vm_compute in Hnone. }
    split; [|done]. by eapply initDefaultCategories_nonempty.
  - rewrite (initDefaultCategories_nonempty s cs Hdb Hcs Hne). simpl.
    split; [by eapply initDefaultCategories_nonempty|].
    unfold categories_of. by rewrite Hcs.
Qed.

(** X23. [initDefaultCategories] keeps the invariant of the store: the
    schema, the records under their ids and the categories under distinct
    names, whatever the clock and the ids the platform gives. *)
Theorem initDefaultCategories_consistent s :
  consistent s →
  consistent (after (initDefaultCategories generateId_value toISOString_value) s).
Proof.
  intros Hs.
  assert (Hticks : ∀ s1 n, consistent s1 → consistent (mkState (indexedDB s1) (db s1) n)).
  { intros s1 n (v & ts & cs & n1 & -> & Hti & Hci & _ & Ht & Hc & Hu)%consistent_inv.
    by apply consistent_intro. }
  assert (Hloop : ∀ l s1, consistent s1 →
            consistent (addDefaults generateId_value toISOString_value l s1).2).
  { induction l as [|c l IH]; intros s1 Hs1; simpl; [done|].
    unfold await, try_catch. apply IH.
    by apply addCategory_consistent. }
  pose proof Hs as [(Hdb & ts & cs & Hts & Hcs & _)%ready_inv _].
  assert (Hget : getAllCategories s = (Resolved (getAll cs), s)).
  { unfold getAllCategories. run_method. by rewrite Hdb, Hcs. }
  unfold after, initDefaultCategories, try_catch. cbn [snd].
  rewrite (await_resolved _ _ _ _ _ Hget).
  destruct (length (getAll cs) =? 0)%nat; [|done]. unfold defaultCategories.
  rewrite (await_resolved _ _ _ _ _ (arrayLiteral_run toISOString_value _ s)).
  by apply Hloop, Hticks.
Qed.

End default_categories_run.

Lemma demo_toISOString_nonempty n : demo_toISOString n ≠ "".
Proof. unfold demo_toISOString. intros Hn. by vm_compute in Hn. Qed.

(** A database that was just opened gets its ten categories. *)
Lemma initDefaultCategories_adds_witness :
  ready (after init fresh) = true ∧
  categories_of (after init fresh) = ∅ ∧
  (∀ n, demo_toISOString n ≠ "") ∧
  size (categories_of (after demo_initDefaultCategories (after init fresh))) = 10 ∧
  getCategory "nomina" (after demo_initDefaultCategories (after init fresh)) =
    (Resolved (Some (Category.mk (Some "nomina") "Nómina" "#F44336" "groups" "expense"
                       (Some "2024-06-01T12:00:08.000Z") None)),
     after demo_initDefaultCategories (after init fresh)).
Proof.
  assert (Hready : ready (after init fresh) = true) by (by vm_compute).
  assert (Hempty : categories_of (after init fresh) = ∅) by (by vm_compute).
  split; [exact Hready|]. split; [exact Hempty|]. split; [exact demo_toISOString_nonempty|].
  destruct (initDefaultCategories_adds demo_generateId demo_toISOString (after init fresh)
              Hready Hempty demo_toISOString_nonempty) as (_ & _ & Hsize & Hget & _).
  split; [exact Hsize|].
  apply (Hget 8 "nomina" "Nómina" "#F44336" "groups" "expense"). reflexivity.
Defined.

(** The shop has its categories: nothing is added. *)
Lemma initDefaultCategories_once_witness :
  ready shop = true ∧
  (∀ n, demo_toISOString n ≠ "") ∧
  demo_initDefaultCategories shop = (Resolved (), shop).
Proof.
  split; [exact shop_ready|]. split; [exact demo_toISOString_nonempty|].
  destruct (initDefaultCategories_once demo_generateId demo_toISOString shop
              shop_ready demo_toISOString_nonempty) as (Hkeeps & _).
  apply Hkeeps. rewrite shop_categories. intros Hnone.
  apply (f_equal (λ m, m !! "ventas")) in Hnone. by vm_compute in Hnone.
Defined.

Lemma initDefaultCategories_consistent_witness :
  consistent (after init fresh) ∧
  consistent (after demo_initDefaultCategories (after init fresh)).
Proof.
  split; [exact init_fresh_consistent|].
  apply (initDefaultCategories_consistent demo_generateId demo_toISOString
           (after init fresh) init_fresh_consistent).
Defined.

(** ** The calendar *)

Lemma push_by_date_ok byDate t :
  ¬ inherited t →
  Calendar.push_by_date byDate t =
    inr (<[Transaction.date t := (default [] (byDate !! Transaction.date t) ++ [t])%list]> byDate).
Proof.
  intros Hno. unfold Calendar.push_by_date. cbv zeta.
  destruct (byDate !! Transaction.date t); simpl; [done|].
  by rewrite bool_decide_false.
Qed.

(** The groups after the loop: the transactions of each date are appended,
    in their order, to what the object held for the date. *)
Lemma organize_groups transactions : ∀ byDate,
  Forall (λ t, ¬ inherited t) transactions →
  ∃ result,
    Calendar.organize transactions byDate = inr result ∧
    ∀ date, result !! date =
            match dated date transactions with
            | [] => byDate !! date
            | group => Some (default [] (byDate !! date) ++ group)%list
            end.
Proof.
  induction transactions as [|t l IH]; intros byDate Hno; simpl.
  - by exists byDate.
  - apply Forall_cons in Hno as [Ht Hl].
    rewrite (push_by_date_ok byDate t Ht).
    destruct (IH (<[Transaction.date t := (default [] (byDate !! Transaction.date t) ++ [t])%list]>
                    byDate) Hl) as (result & Hrun & Hgroups).
    exists result. split; [done|]. intros date. rewrite Hgroups. unfold dated. simpl.
    destruct (String.eqb_spec (Transaction.date t) date) as [->|Hne].
    + rewrite lookup_insert_eq. simpl.
      destruct (List.filter _ l); [done|]. by rewrite <-app_assoc.
    + by rewrite lookup_insert_ne.
Qed.

Lemma organize_inherited transactions : ∀ byDate,
  (∀ name, name ∈ Calendar.Object_prototype → byDate !! name = None) →
  Exists inherited transactions →
  Calendar.organize transactions byDate = inl TypeError.
Proof.
  induction transactions as [|t l IH]; intros byDate Hown Hex; simpl.
  - by apply Exists_nil in Hex.
  - destruct (decide (inherited t)) as [Ht|Ht].
    + unfold Calendar.push_by_date. cbv zeta. rewrite (Hown _ Ht).
      by rewrite bool_decide_true.
    + rewrite (push_by_date_ok byDate t Ht). apply IH.
      * intros name Hname. rewrite lookup_insert_ne; [by apply Hown|].
        intros Heq. apply Ht. unfold inherited. by rewrite Heq.
      * apply Exists_cons in Hex as [?|?]; done.
Qed.

(** X24. The loop that fills [transactionsByDate], from the empty object.
    When no date is the name of a property every object inherits, the
    object gets one entry per date that occurs, holding the transactions
    of that date in the order of the list; no entry is empty and every
    transaction is in the entry of its date. When a date is such a name
    ([constructor], [toString], ...) the loop throws a [TypeError]. *)
Theorem organize_by_date transactions :
  (Exists inherited transactions → Calendar.organize transactions ∅ = inl TypeError) ∧
  (Forall (λ t, ¬ inherited t) transactions →
   ∃ byDate,
     Calendar.organize transactions ∅ = inr byDate ∧
     (∀ date group, byDate !! date = Some group ↔
                    group ≠ [] ∧ group = dated date transactions) ∧
     (∀ t, t ∈ transactions →
           ∃ group, byDate !! Transaction.date t = Some group ∧ t ∈ group) ∧
     (∀ date group, byDate !! date = Some group →
                    ∀ t, t ∈ group ↔ t ∈ transactions ∧ Transaction.date t = date)).
Proof.
  split.
  - apply organize_inherited. intros name _. apply lookup_empty.
  - intros Hno. destruct (organize_groups transactions ∅ Hno) as (byDate & Hrun & Hgroups).
    exists byDate. split; [done|].
    assert (Hiff : ∀ date group, byDate !! date = Some group ↔
                     group ≠ [] ∧ group = dated date transactions).
    { intros date group. rewrite Hgroups, lookup_empty. simpl.
      destruct (dated date transactions) as [|t g]; split.
      - done.
      - by intros [? ->].
      - by intros [= <-].
      - by intros [_ ->]. }
    assert (Hdated : ∀ date t, t ∈ dated date transactions ↔
                               t ∈ transactions ∧ Transaction.date t = date).
    { intros date t. unfold dated. by rewrite !list_elem_of_In, filter_In, String.eqb_eq. }
    split_and!; [done|..].
    + intros t Ht. exists (dated (Transaction.date t) transactions).
      assert (Hin : t ∈ dated (Transaction.date t) transactions) by (by apply Hdated).
      split; [|done]. apply Hiff. split; [|done]. intros Hnil. rewrite Hnil in Hin.
      by apply elem_of_nil in Hin.
    + intros date group [_ ->]%Hiff t. apply Hdated.
Qed.

Lemma organize_by_date_witness :
  Forall (λ t, ¬ inherited t) [sale_stored; rent_stored; sale] ∧
  Calendar.organize [sale_stored; rent_stored; sale] ∅ =
    inr (<["2023-12-31" := [rent_stored]]> (<["2024-01-01" := [sale_stored; sale]]> ∅)).
Proof.
  assert (Hno : Forall (λ t, ¬ inherited t) [sale_stored; rent_stored; sale]).
  { apply (bool_decide_unpack _). by vm_compute. }
  split; [exact Hno|].
  destruct (organize_by_date [sale_stored; rent_stored; sale]) as [_ Hok].
  destruct (Hok Hno) as (byDate & Hrun & _).
  rewrite Hrun. by vm_compute.
Defined.

(** X25. [loadTransactionsForMonth] on an initialized store, for a first
    date not after the last and a last date that sorts before every name
    an object inherits (as every date that begins with a digit does): the
    promise resolves and never meets the [TypeError] of the loop. The
    object it leaves has an entry exactly for the dates of the stored
    transactions within the two dates, each the transactions of that date
    that the range query returns, in that order; every stored transaction
    within the dates is in the entry of its date. *)
Theorem loadTransactionsForMonth_groups s startDate endDate :
  ready s = true →
  String.leb startDate endDate = true →
  Forall (λ name, String.ltb endDate name = true) Calendar.Object_prototype →
  ∃ transactions byDate,
    getTransactionsByDateRange startDate endDate s = (Resolved transactions, s) ∧
    Calendar.loadTransactionsForMonth startDate endDate s = (Resolved byDate, s) ∧
    (∀ date group, byDate !! date = Some group ↔
                   group ≠ [] ∧ group = dated date transactions) ∧
    (∀ date group, byDate !! date = Some group →
                   String.leb startDate date = true ∧ String.leb date endDate = true) ∧
    (∀ k t, transactions_of s !! k = Some t →
            String.leb startDate (Transaction.date t) = true →
            String.leb (Transaction.date t) endDate = true →
            ∃ group, byDate !! Transaction.date t = Some group ∧ t ∈ group).
Proof.
  intros Hready Hle Hend.
  destruct (getTransactionsByDateRange_run s startDate endDate Hready Hle)
    as (transactions & Hrun & _ & Hmem).
  assert (Hno : Forall (λ t, ¬ inherited t) transactions).
  { apply Forall_forall. intros t [_ [_ Hd]]%Hmem Hin.
    rewrite Forall_forall in Hend. specialize (Hend _ Hin).
    apply String_leb_not_ltb in Hd. congruence. }
  destruct (organize_groups transactions ∅ Hno) as (byDate & Horg & Hgroups).
  assert (Hiff : ∀ date group, byDate !! date = Some group ↔
                   group ≠ [] ∧ group = dated date transactions).
  { intros date group. rewrite Hgroups, lookup_empty. simpl.
    destruct (dated date transactions) as [|t g]; split.
    - done.
    - by intros [? ->].
    - by intros [= <-].
    - by intros [_ ->]. }
  assert (Hdated : ∀ date t, t ∈ dated date transactions ↔
                             t ∈ transactions ∧ Transaction.date t = date).
  { intros date t. unfold dated. by rewrite !list_elem_of_In, filter_In, String.eqb_eq. }
  exists transactions, byDate. split_and!; try done.
  - unfold Calendar.loadTransactionsForMonth.
    rewrite (await_resolved _ _ _ _ _ Hrun). by rewrite Horg.
  - intros date group [Hne ->]%Hiff.
    destruct (dated date transactions) as [|t g] eqn:Hg; [done|].
    assert (Ht : t ∈ dated date transactions) by (rewrite Hg; by left).
    apply Hdated in Ht as [(_ & H1 & H2)%Hmem <-]. done.
  - intros k t Hk H1 H2.
    assert (Hin : t ∈ dated (Transaction.date t) transactions).
    { apply Hdated. split; [|done]. apply Hmem. split; [by exists k|done]. }
    exists (dated (Transaction.date t) transactions). split; [|done].
    apply Hiff. split; [|done]. intros Hnil. rewrite Hnil in Hin.
    by apply elem_of_nil in Hin.
Qed.

Lemma loadTransactionsForMonth_groups_witness :
  ready shop = true ∧
  String.leb "2024-01-01" "2024-01-31" = true ∧
  Forall (λ name, String.ltb "2024-01-31" name = true) Calendar.Object_prototype ∧
  Calendar.loadTransactionsForMonth "2024-01-01" "2024-01-31" shop =
    (Resolved {["2024-01-01" := [sale_stored]]}, shop).
Proof.
  assert (Hend : Forall (λ name, String.ltb "2024-01-31" name = true)
                        Calendar.Object_prototype).
  { apply (bool_decide_unpack _). by vm_compute. }
  split; [exact shop_ready|]. split; [reflexivity|]. split; [exact Hend|].
  destruct (loadTransactionsForMonth_groups shop "2024-01-01" "2024-01-31"
              shop_ready eq_refl Hend) as (transactions & byDate & _ & Hrun & _).
  rewrite Hrun. by vm_compute.
Defined.

(** ** The cell of a day *)

Lemma fold_addToDay l : ∀ total income expense,
  fold_left Calendar.addToDay l (Calendar.mkDay total income expense) =
  Calendar.mkDay
    (Calendar.dayTotal (fold_left Calendar.addToDay l (Calendar.mkDay total income expense)))
    (income || existsb is_income l)
    (expense || existsb (λ t, negb (is_income t)) l).
Proof.
  induction l as [|t l IH]; intros total income expense; simpl.
  - by rewrite !orb_false_r.
  - unfold Calendar.addToDay at 2 4. fold (is_income t). simpl.
    destruct (is_income t); simpl; rewrite IH; simpl;
      by rewrite ?orb_true_r, ?orb_false_r, ?orb_true_l, ?orb_assoc.
Qed.

Lemma fold_addToDay_income l : ∀ total income expense,
  (∀ t, t ∈ l → Transaction.type t = "income") →
  Calendar.dayTotal (fold_left Calendar.addToDay l (Calendar.mkDay total income expense)) =
  sum_from total l.
Proof.
  induction l as [|t l IH]; intros total income expense Hall; simpl; [done|].
  unfold Calendar.addToDay at 2. rewrite (Hall t) by (by left). simpl.
  unfold sum_from in *. simpl. apply IH. intros t' Ht'. apply Hall. by right.
Qed.

(** X26. The cell of a day that has transactions. [hasIncome] holds
    exactly when a transaction of the day is an income and [hasExpense]
    when one is not; the dot is the mixed one when the day has both, the
    income one when every transaction is an income, and the expense one
    when none is, so a transfer counts as an expense here as in
    [getStats]. On a day of incomes only, the total is the sum of the
    amounts. *)
Theorem day_indicator group :
  group ≠ [] →
  let d := Calendar.day (Some group) in
  (Calendar.hasIncome d = true ↔ ∃ t, t ∈ group ∧ Transaction.type t = "income") ∧
  (Calendar.hasExpense d = true ↔ ∃ t, t ∈ group ∧ Transaction.type t ≠ "income") ∧
  (Calendar.indicator d = Calendar.mixed ↔
   (∃ t, t ∈ group ∧ Transaction.type t = "income") ∧
   (∃ t, t ∈ group ∧ Transaction.type t ≠ "income")) ∧
  (Calendar.indicator d = Calendar.income_indicator ↔
   ∀ t, t ∈ group → Transaction.type t = "income") ∧
  (Calendar.indicator d = Calendar.expense_indicator ↔
   ∀ t, t ∈ group → Transaction.type t ≠ "income") ∧
  ((∀ t, t ∈ group → Transaction.type t = "income") →
   Calendar.dayTotal d = sum_amounts group).
Proof.
  intros Hne. cbv zeta. unfold Calendar.day.
  assert (Hincome : existsb is_income group = true ↔
                    ∃ t, t ∈ group ∧ Transaction.type t = "income").
  { rewrite existsb_exists. unfold is_income.
    split; intros (t & Hin & Ht); exists t; split;
      try (by apply list_elem_of_In); by apply String.eqb_eq. }
  assert (Hexpense : existsb (λ t, negb (is_income t)) group = true ↔
                     ∃ t, t ∈ group ∧ Transaction.type t ≠ "income").
  { rewrite existsb_exists. unfold is_income.
    split; intros (t & Hin & Ht); exists t; split;
      try (by apply list_elem_of_In).
    - by apply String.eqb_neq, negb_true_iff.
    - by apply negb_true_iff, String.eqb_neq. }
  assert (Hsome : existsb is_income group = true ∨
                  existsb (λ t, negb (is_income t)) group = true).
  { destruct group as [|t g]; [done|]. simpl. destruct (is_income t); auto. }
  assert (Hall : ∀ P : Transaction.t → Prop,
            (∀ t, P t ∨ ¬ P t) →
            (¬ ∃ t, t ∈ group ∧ ¬ P t) ↔ ∀ t, t ∈ group → P t).
  { intros P Hdec. split.
    - intros Hno t Ht. destruct (Hdec t) as [|Hn]; [done|]. destruct Hno. by exists t.
    - intros Hyes (t & Ht & Hn). by apply Hn, Hyes. }
  rewrite fold_addToDay. unfold Calendar.indicator. simpl.
  split_and!; try done.
  - rewrite <-Hincome, <-Hexpense.
    destruct (existsb is_income group), (existsb _ group); simpl; split; try done;
      by intros [? ?].
  - rewrite <-(Hall (λ t, Transaction.type t = "income")), <-Hexpense
      by (intros t; destruct (decide (Transaction.type t = "income")); auto).
    destruct (existsb is_income group), (existsb _ group); simpl; split; try done;
      try (by intros []); destruct Hsome; done.
  - assert (Hall' : (¬ ∃ t, t ∈ group ∧ Transaction.type t = "income") ↔
                    ∀ t, t ∈ group → Transaction.type t ≠ "income").
    { split.
      - intros Hno t Ht Hty. destruct Hno. by exists t.
      - intros Hyes (t & Ht & Hty). by apply (Hyes t). }
    rewrite <-Hall', <-Hincome.
    destruct (existsb is_income group), (existsb _ group); simpl; split; try done;
      try (by intros []).
  - intros Hinc. unfold sum_amounts. by apply fold_addToDay_income.
Qed.

Lemma day_indicator_witness :
  [sale_stored; rent_stored] ≠ [] ∧
  Calendar.indicator (Calendar.day (Some [sale_stored; rent_stored])) = Calendar.mixed ∧
  Calendar.dayTotal (Calendar.day (Some [sale_stored; rent_stored])) = 60%float.
Proof.
  assert (Hne : [sale_stored; rent_stored] ≠ []) by done.
  split; [exact Hne|]. split; [|reflexivity].
  destruct (day_indicator [sale_stored; rent_stored] Hne) as (_ & _ & Hmixed & _).
  apply Hmixed. split.
  - exists sale_stored. split; [by left|done].
  - exists rent_stored. split; [by right; left|done].
Defined.

(** ** The grid *)

(** X27. The grid of a month. For a first day of the week from 0 (Sunday)
    to 6 and a month of 28 to 31 days, the empty cells before the first
    day put Monday first, the three loops write 42 cells, six weeks, in
    all, and at least five empty cells follow the last day: a whole
    empty week when the days end within five weeks. *)
Theorem calendar_grid firstDayOfWeek daysInMonth :
  (0 ≤ firstDayOfWeek ≤ 6)%Z →
  (28 ≤ daysInMonth ≤ 31)%Z →
  Calendar.adjustedFirstDayOfWeek firstDayOfWeek = ((firstDayOfWeek + 6) `mod` 7)%Z ∧
  (5 ≤ Calendar.emptyCells firstDayOfWeek daysInMonth ≤ 14)%Z ∧
  Calendar.cells firstDayOfWeek daysInMonth = 42 ∧
  (Calendar.adjustedFirstDayOfWeek firstDayOfWeek + daysInMonth ≤ 35 →
   7 ≤ Calendar.emptyCells firstDayOfWeek daysInMonth)%Z.
Proof.
  intros Hday Hdays.
  unfold Calendar.cells, Calendar.emptyCells, Calendar.iterations, Calendar.totalCells,
    Calendar.adjustedFirstDayOfWeek.
  destruct (Z.eqb_spec firstDayOfWeek 0) as [->|Hne].
  - split_and!; try done; lia.
  - assert (Hmod : ((firstDayOfWeek + 6) `mod` 7 = firstDayOfWeek - 1)%Z).
    { replace (firstDayOfWeek + 6)%Z with (firstDayOfWeek - 1 + 1 * 7)%Z by lia.
      rewrite Z.mod_add by lia. apply Z.mod_small. lia. }
    split_and!; try lia.
Qed.

Lemma calendar_grid_witness :
  (0 ≤ 1 ≤ 6)%Z ∧ (28 ≤ 31 ≤ 31)%Z ∧
  Calendar.adjustedFirstDayOfWeek 1 = 0%Z ∧
  Calendar.emptyCells 1 31 = 11%Z ∧
  Calendar.cells 1 31 = 42.
Proof.
  assert (Hday : (0 ≤ 1 ≤ 6)%Z) by lia.
  assert (Hdays : (28 ≤ 31 ≤ 31)%Z) by lia.
  split; [exact Hday|]. split; [exact Hdays|].
  destruct (calendar_grid 1 31 Hday Hdays) as (_ & _ & Hcells & _).
  split; [reflexivity|]. split; [reflexivity|]. exact Hcells.
Defined.
